(** * pleme-web-observability: the telemetry engine

    A shallow embedding of [src/telemetry.ts] (with the types of
    [src/types.ts]) and the properties of its queue, flush scheduler,
    circuit breaker and teardown path; then of the session helpers of
    [src/session.ts].

    Conventions of the embedding.
    - The closure variables of [createObservability] form the record
      [State]; every inner function is a computation in the monad [M],
      which threads the [State] and collects the host calls the function
      makes ([Effect]: timers, [fetch], [sendBeacon], console, listeners).
    - Impure reads ([Date.now()], the session and page providers) are inputs
      of the function that performs them.
    - [flush] is [async]: the part before [await fetch] is [flush], the part
      after it ([flush_settle]) runs when the request settles; other
      functions may run in between.  When [JSON.stringify] throws on the
      batch no request is started and the [catch] block runs at once, inside
      [flush].
    - The host is a browser: [fetch], [Blob] and [navigator.sendBeacon]
      exist, and [fetch] reports every failure through the promise it
      returns.
    - JavaScript numbers are modelled by [Z] (the failure counter by [nat]);
      all the quantities the engine computes on are integers far below 2^53
      and [5000 * 2^k] is exact in binary floating point, so the integer
      model agrees with the code on them. *)

From Stdlib Require Import ZArith.
From stdpp Require Import base tactics option list strings pretty gmap.

Local Open Scope Z_scope.

(** ** Values of type [unknown] *)

(** The values the engine inspects: it only asks whether a value is an
    [Error] (then reads [message] and [stack]) and otherwise takes its
    [String(...)] form.  [JOther] stands for any other value that
    [JSON.stringify] accepts (a number, a plain object, ...) and
    [JUnserializable] for one it throws on (a [BigInt], an object that
    contains itself), both carried together with their [String(...)] form. *)
Inductive JSValue : Type :=
| JUndefined
| JNull
| JBool (b : bool)
| JString (s : string)
| JError (message : string) (stack : option string)
| JOther (str : string)
| JUnserializable (str : string).

#[global] Instance JSValue_eq_dec : EqDecision JSValue.
Proof. solve_decision. Defined.

(** [error instanceof Error] *)
Definition instanceof_Error (v : JSValue) : bool :=
  match v with JError _ _ => true | _ => false end.

(** [String(v)] *)
Definition String_ (v : JSValue) : string :=
  match v with
  | JUndefined => "undefined"
  | JNull => "null"
  | JBool true => "true"
  | JBool false => "false"
  | JString s => s
  | JError m _ => if decide (m = "") then "Error" else "Error: " +:+ m
  | JOther str => str
  | JUnserializable str => str
  end.

(** Whether [JSON.stringify] returns on a value.  An [Error] is written as
    the object of its own enumerable fields, [undefined] is left out. *)
Definition stringifies (v : JSValue) : bool :=
  match v with JUnserializable _ => false | _ => true end.

(** [s | undefined] as a value *)
Definition of_optional_string (o : option string) : JSValue :=
  match o with Some s => JString s | None => JUndefined end.

(** [{...o}] for [o : Record<string, unknown> | undefined]: spreading
    [undefined] contributes no key. *)
Definition spread (o : option (gmap string JSValue)) : gmap string JSValue :=
  match o with Some m => m | None => ∅ end.

(** ** types.ts *)

Inductive TelemetryType : Type := Metric | Event | Error | Trace.
Inductive MetricRating : Type := Good | NeedsImprovement | Poor.

#[global] Instance TelemetryType_eq_dec : EqDecision TelemetryType.
Proof. solve_decision. Defined.
#[global] Instance MetricRating_eq_dec : EqDecision MetricRating.
Proof. solve_decision. Defined.

Record TelemetryEvent : Type := mkEvent {
  type : TelemetryType;
  name : string;
  value : option Z;
  rating : option MetricRating;
  properties : option (gmap string JSValue);
  timestamp : Z;
  sessionId : string;
  page : string
}.

#[global] Instance TelemetryEvent_eq_dec : EqDecision TelemetryEvent.
Proof. solve_decision. Defined.

(** [Omit<TelemetryEvent, 'timestamp' | 'sessionId' | 'page'>] *)
Record PartialEvent : Type := mkPartial {
  p_type : TelemetryType;
  p_name : string;
  p_value : option Z;
  p_rating : option MetricRating;
  p_properties : option (gmap string JSValue)
}.

(** Whether [JSON.stringify] returns on an event: its other fields being
    strings and numbers, it does unless one of the [properties] makes it
    throw. *)
Definition event_stringifies (e : TelemetryEvent) : bool :=
  match properties e with
  | Some ps => bool_decide (map_Forall (λ _ v, stringifies v = true) ps)
  | None => true
  end.

(** Whether [JSON.stringify({ events })] returns. *)
Definition batch_stringifies (events : list TelemetryEvent) : bool :=
  forallb event_stringifies events.

(** The configured fields of [ObservabilityConfig].  The three optional
    providers are impure thunks: the results of calling them are the
    [Reads] below and the [isDebug] flag of the instance. *)
Record ObservabilityConfig : Type := mkConfig {
  debug : bool;
  batchSize : Z;
  flushInterval : Z;
  telemetryEndpoint : string;
  useBeacon : bool;
  sessionKey : string
}.

Definition DEFAULT_CONFIG : ObservabilityConfig :=
  {| debug := false;
     batchSize := 10;
     flushInterval := 5000;
     telemetryEndpoint := "/api/telemetry";
     useBeacon := true;
     sessionKey := "pleme_session_id" |}.

(** What [collect] reads from its environment when it runs: [Date.now()],
    [getSession()] and [getPage()]. *)
Record Reads : Type := mkReads {
  r_now : Z;
  r_session : string;
  r_page : string
}.

(** ** Host calls *)

Inductive Callback : Type := scheduleFlushCb | flushCb.

(** A timer handle, identified by what it was armed with. *)
Record Timeout : Type := mkTimeout { callback : Callback; delay : Z }.

#[global] Instance Callback_eq_dec : EqDecision Callback.
Proof. solve_decision. Defined.
#[global] Instance Timeout_eq_dec : EqDecision Timeout.
Proof. solve_decision. Defined.

Inductive LogLine : Type :=
| LogCollected (t : TelemetryType) (n : string)
| LogFlushing (count : nat)
| LogRecovered (failures : nat)
| LogBeaconFlush (count : nat)
| LogInitialized
| LogCleanedUp.

(** [ConsoleWarn loggedAt attempt seconds detail] is the failure warning
    [Telemetry send failed (attempt <attempt>, retry in <seconds>s): detail];
    [loggedAt] is the clock reading [logNow] at which it was printed (it is
    not part of the text). *)
Inductive Effect : Type :=
| SetTimeout (cb : Callback) (ms : Z)
| ClearTimeout (h : Timeout)
| RequestIdleCallback (timeout : Z)
| Fetch (endpoint : string) (events : list TelemetryEvent)
| SendBeacon (endpoint : string) (events : list TelemetryEvent)
| ConsoleLog (line : LogLine)
| ConsoleWarn (loggedAt : Z) (attempt : nat) (seconds : Z) (detail : JSValue)
| ConsoleError (error : JSValue)
| AddEventListener (ty : string)
| RemoveEventListener (ty : string)
| ResetSessionCache.

(** ** The closure state of an instance *)

Record State : Type := mkState {
  eventQueue : list TelemetryEvent;
  flushTimer : option Timeout;
  isInitialized : bool;
  boundHandleVisibilityChange : bool;
  boundFlushWithBeacon : bool;
  consecutiveFailures : nat;
  backoffUntil : Z;
  lastErrorLogged : Z
}.

Definition set_eventQueue (q : list TelemetryEvent) (s : State) : State :=
  mkState q (flushTimer s) (isInitialized s) (boundHandleVisibilityChange s)
    (boundFlushWithBeacon s) (consecutiveFailures s) (backoffUntil s)
    (lastErrorLogged s).
Definition set_flushTimer (t : option Timeout) (s : State) : State :=
  mkState (eventQueue s) t (isInitialized s) (boundHandleVisibilityChange s)
    (boundFlushWithBeacon s) (consecutiveFailures s) (backoffUntil s)
    (lastErrorLogged s).
Definition set_isInitialized (b : bool) (s : State) : State :=
  mkState (eventQueue s) (flushTimer s) b (boundHandleVisibilityChange s)
    (boundFlushWithBeacon s) (consecutiveFailures s) (backoffUntil s)
    (lastErrorLogged s).
Definition set_boundHandleVisibilityChange (b : bool) (s : State) : State :=
  mkState (eventQueue s) (flushTimer s) (isInitialized s) b
    (boundFlushWithBeacon s) (consecutiveFailures s) (backoffUntil s)
    (lastErrorLogged s).
Definition set_boundFlushWithBeacon (b : bool) (s : State) : State :=
  mkState (eventQueue s) (flushTimer s) (isInitialized s)
    (boundHandleVisibilityChange s) b (consecutiveFailures s) (backoffUntil s)
    (lastErrorLogged s).
Definition set_consecutiveFailures (n : nat) (s : State) : State :=
  mkState (eventQueue s) (flushTimer s) (isInitialized s)
    (boundHandleVisibilityChange s) (boundFlushWithBeacon s) n (backoffUntil s)
    (lastErrorLogged s).
Definition set_backoffUntil (t : Z) (s : State) : State :=
  mkState (eventQueue s) (flushTimer s) (isInitialized s)
    (boundHandleVisibilityChange s) (boundFlushWithBeacon s)
    (consecutiveFailures s) t (lastErrorLogged s).
Definition set_lastErrorLogged (t : Z) (s : State) : State :=
  mkState (eventQueue s) (flushTimer s) (isInitialized s)
    (boundHandleVisibilityChange s) (boundFlushWithBeacon s)
    (consecutiveFailures s) (backoffUntil s) t.

(** ** The monad of instance code: state and emitted host calls *)

Definition M (A : Type) : Type := State → A * State * list Effect.

#[global] Instance M_ret : MRet M := λ A a s, (a, s, []).
#[global] Instance M_bind : MBind M := λ A B f m s,
  let '(a, s1, e1) := m s in
  let '(b, s2, e2) := f a s1 in
  (b, s2, e1 ++ e2).

Definition gets {A} (f : State → A) : M A := λ s, (f s, s, []).
Definition modify (f : State → State) : M unit := λ s, ((), f s, []).
Definition emit (e : Effect) : M unit := λ s, ((), s, [e]).
Definition when (b : bool) (m : M unit) : M unit := if b then m else mret ().

Definition result_of {A} (x : A * State * list Effect) : A := x.1.1.
Definition state_of {A} (x : A * State * list Effect) : State := x.1.2.
Definition effects_of {A} (x : A * State * list Effect) : list Effect := x.2.

(** ** telemetry.ts: the functions of an instance *)

(** What the [catch] block of [flush] reads when it runs because
    [JSON.stringify] threw: the message of the [TypeError] (worded by the
    JavaScript engine) and the two clock readings. *)
Record Thrown : Type := mkThrown {
  t_message : string;
  t_now : Z;
  t_logNow : Z
}.

(** How the call of [navigator.sendBeacon] ends: it returns a boolean, or it
    throws (a [TypeError], for an endpoint that is not an http(s) URL). *)
Inductive BeaconCall : Type :=
| BeaconReturns (accepted : bool)
| BeaconThrows.

(** The failure of a request: what the [catch] block of [flush] receives. *)
Inductive FetchOutcome : Type :=
| ResponseOk
| ResponseNotOk (status : Z)
| FetchRejected (reason : JSValue).

(** The value thrown inside the [try] block, if any.  For a response that
    is not [ok] it is [new Error(`Telemetry request failed: ${status}`)],
    whose stack is never read. *)
Definition caught (o : FetchOutcome) : option JSValue :=
  match o with
  | ResponseOk => None
  | ResponseNotOk status =>
      Some (JError ("Telemetry request failed: " +:+ pretty status) None)
  | FetchRejected reason => Some reason
  end.

(** [error instanceof Error ? error.message : error] *)
Definition message_or_self (error : JSValue) : JSValue :=
  match error with JError m _ => JString m | _ => error end.

(** [error instanceof Error ? error.message : String(error)] *)
Definition message_or_String (error : JSValue) : string :=
  match error with JError m _ => m | _ => String_ error end.

(** [error instanceof Error ? error.stack : undefined] *)
Definition stack_or_undefined (error : JSValue) : JSValue :=
  match error with JError _ st => of_optional_string st | _ => JUndefined end.

(** [Math.round(a / b)] for integers [a] and [b > 0]: the nearest integer,
    halves rounded up. *)
Definition Math_round_div (a b : Z) : Z := (2 * a + b) / (2 * b).

Definition MAX_BACKOFF_MS : Z := 5 * 60 * 1000.
Definition ERROR_LOG_INTERVAL_MS : Z := 60000.

(** [{ ...event, timestamp: Date.now(), sessionId: getSession(), page: getPage() }] *)
Definition stamp (event : PartialEvent) (r : Reads) : TelemetryEvent :=
  {| type := p_type event;
     name := p_name event;
     value := p_value event;
     rating := p_rating event;
     properties := p_properties event;
     timestamp := r_now r;
     sessionId := r_session r;
     page := r_page r |}.

Section Instance.

Variable config : ObservabilityConfig.
(** [config.debug || (config.isDevelopmentProvider?.() ?? isDevelopment())] *)
Variable isDebug : bool.
(** [typeof window !== 'undefined'] and ['requestIdleCallback' in window] *)
Variable hasWindow : bool.
Variable hasRequestIdleCallback : bool.

(** [flushTimer = setTimeout(scheduleFlush, ms)] *)
Definition arm_flushTimer (ms : Z) : M unit :=
  emit (SetTimeout scheduleFlushCb ms);;
  modify (set_flushTimer (Some (mkTimeout scheduleFlushCb ms))).

Definition scheduleFlush : M unit :=
  t ← gets flushTimer;
  match t with
  | Some h => emit (ClearTimeout h);; modify (set_flushTimer None)
  | None => mret ()
  end;;
  q ← gets eventQueue;
  if bool_decide (length q = 0%nat) then mret ()
  else if hasWindow && hasRequestIdleCallback
       then emit (RequestIdleCallback 2000)
       else emit (SetTimeout flushCb 0).

Definition collect (r : Reads) (event : PartialEvent) : M unit :=
  let fullEvent := stamp event r in
  modify (λ s, set_eventQueue (eventQueue s ++ [fullEvent]) s);;
  when isDebug (emit (ConsoleLog (LogCollected (p_type event) (p_name event))));;
  q ← gets eventQueue;
  if batchSize config <=? Z.of_nat (length q) then scheduleFlush
  else
    t ← gets flushTimer;
    match t with
    | None => arm_flushTimer (flushInterval config)
    | Some _ => mret ()
    end.

(** Only called right after [consecutiveFailures++], so on a counter that
    is at least 1 (at 0 the code's [Math.pow(2, -1)] is a half, which the
    integer power is not). *)
Definition getBackoffDelay : M Z :=
  n ← gets consecutiveFailures;
  mret (Z.min (5000 * 2 ^ (Z.of_nat n - 1)) MAX_BACKOFF_MS).

(** [flush], from the point where the awaited request settles: [events] is
    the batch of that request, [now] and [logNow] the two clock readings
    of the [catch] block. *)
Definition flush_settle (events : list TelemetryEvent) (outcome : FetchOutcome)
    (now logNow : Z) : M unit :=
  match caught outcome with
  | None =>
      n ← gets consecutiveFailures;
      when (bool_decide (0 < n)%nat && isDebug) (emit (ConsoleLog (LogRecovered n)));;
      modify (set_consecutiveFailures 0);;
      modify (set_backoffUntil 0)
  | Some error =>
      modify (λ s, set_consecutiveFailures (S (consecutiveFailures s)) s);;
      q ← gets eventQueue;
      let spaceLeft := 100 - Z.of_nat (length q) in
      when (0 <? spaceLeft)
        (modify (set_eventQueue (q ++ take (Z.to_nat spaceLeft) events)));;
      delay ← getBackoffDelay;
      modify (set_backoffUntil (now + delay));;
      last ← gets lastErrorLogged;
      when (ERROR_LOG_INTERVAL_MS <=? logNow - last)
        (modify (set_lastErrorLogged logNow);;
         n ← gets consecutiveFailures;
         emit (ConsoleWarn logNow n (Math_round_div delay 1000)
                 (message_or_self error)));;
      t ← gets flushTimer;
      match t with
      | None => arm_flushTimer delay
      | Some _ => mret ()
      end
  end.

(** The [catch] block of [flush] with [error] caught. *)
Definition flush_catch (events : list TelemetryEvent) (error : JSValue)
    (now logNow : Z) : M unit :=
  flush_settle events (FetchRejected error) now logNow.

(** [flush], up to and including the call of [fetch]; the result is the
    batch handed to [fetch], if a request was started.  The request body
    [JSON.stringify({ events })] is evaluated inside the [try] block before
    [fetch] is called: when it throws, no request is started and the [catch]
    block runs in the same turn, with the [TypeError] and the clock readings
    of [thrown]. *)
Definition flush (now : Z) (thrown : Thrown)
    : M (option (list TelemetryEvent)) :=
  q ← gets eventQueue;
  if bool_decide (length q = 0%nat) then mret None
  else
    until ← gets backoffUntil;
    if now <? until then
      t ← gets flushTimer;
      match t with
      | None => arm_flushTimer (until - now)
      | Some _ => mret ()
      end;;
      mret None
    else
      let events := q in
      modify (set_eventQueue []);;
      when isDebug (emit (ConsoleLog (LogFlushing (length events))));;
      if batch_stringifies events then
        emit (Fetch (telemetryEndpoint config) events);;
        mret (Some events)
      else
        flush_catch events (JError (t_message thrown) None)
          (t_now thrown) (t_logNow thrown);;
        mret None.

(** [call] is how [navigator.sendBeacon] ends, which the code does not look
    at.  The queue is emptied before the body is built, and nothing catches
    what [JSON.stringify({ events })] throws: [sendBeacon] is then not
    called and the function ends there, with the exception. *)
Definition flushWithBeacon (call : BeaconCall) : M unit :=
  q ← gets eventQueue;
  if bool_decide (length q = 0%nat) || negb (useBeacon config) then mret ()
  else
    let events := q in
    modify (set_eventQueue []);;
    when isDebug (emit (ConsoleLog (LogBeaconFlush (length events))));;
    when (batch_stringifies events)
      (emit (SendBeacon (telemetryEndpoint config) events)).

(** The [visibilitychange] listener; [hidden] is
    [document.visibilityState === 'hidden']. *)
Definition handleVisibilityChange (hidden : bool) (call : BeaconCall) : M unit :=
  when hidden (flushWithBeacon call).

Definition init : M unit :=
  i ← gets isInitialized;
  if i || negb hasWindow then mret ()
  else
    when (useBeacon config)
      (modify (set_boundHandleVisibilityChange true);;
       modify (set_boundFlushWithBeacon true);;
       emit (AddEventListener "visibilitychange");;
       emit (AddEventListener "beforeunload"));;
    modify (set_isInitialized true);;
    when isDebug (emit (ConsoleLog LogInitialized)).

(** *** The public API *)

Definition trackMetric (r : Reads) (name : string) (value : Z)
    (rating : option MetricRating) (properties : option (gmap string JSValue))
    : M unit :=
  collect r (mkPartial Metric name (Some value) rating properties).

Definition trackEvent (r : Reads) (name : string)
    (properties : option (gmap string JSValue)) : M unit :=
  collect r (mkPartial Event name None None properties).

Definition trackError (r : Reads) (name : string) (error : JSValue)
    (properties : option (gmap string JSValue)) : M unit :=
  collect r
    (mkPartial Error name None None
       (Some (<["stack" := stack_or_undefined error]>
                (<["message" := JString (message_or_String error)]>
                   (<["error" := error]> (spread properties)))))).

Definition trackTrace (r : Reads) (name : string)
    (properties : option (gmap string JSValue)) : M unit :=
  collect r (mkPartial Trace name None None properties).

Definition captureException (r : Reads) (error : JSValue)
    (context : option (gmap string JSValue)) : M unit :=
  trackError r "exception" error context;;
  emit (ConsoleError error).

(** [{ path, ...properties }]: the keys of [properties] are written after
    [path]. *)
Definition trackPageView (r : Reads) (path : string)
    (properties : option (gmap string JSValue)) : M unit :=
  trackEvent r "page_view" (Some (spread properties ∪ {["path" := JString path]})).

Definition api_flush : M unit := scheduleFlush.

Definition cleanup : M unit :=
  when hasWindow
    (v ← gets boundHandleVisibilityChange;
     when v (emit (RemoveEventListener "visibilitychange");;
             modify (set_boundHandleVisibilityChange false));;
     b ← gets boundFlushWithBeacon;
     when b (emit (RemoveEventListener "beforeunload");;
             modify (set_boundFlushWithBeacon false)));;
  t ← gets flushTimer;
  match t with
  | Some h => emit (ClearTimeout h);; modify (set_flushTimer None)
  | None => mret ()
  end;;
  modify (set_isInitialized false);;
  emit ResetSessionCache;;
  when isDebug (emit (ConsoleLog LogCleanedUp)).

End Instance.

(** The closure variables as [createObservability] declares them. *)
Definition initialState : State :=
  {| eventQueue := [];
     flushTimer := None;
     isInitialized := false;
     boundHandleVisibilityChange := false;
     boundFlushWithBeacon := false;
     consecutiveFailures := 0;
     backoffUntil := 0;
     lastErrorLogged := 0 |}.

(** [createObservability], up to its [return]: the fresh closure state, then
    [init()]. *)
Definition createObservability (config : ObservabilityConfig)
    (isDebug hasWindow : bool) : unit * State * list Effect :=
  init config isDebug hasWindow initialState.

(** ** The host: timers, deferred callbacks, requests in flight, listeners *)

Record World : Type := mkWorld {
  inst : State;
  (** pending [setTimeout(scheduleFlush, ms)] timers *)
  timers : list Timeout;
  (** pending runs of [flush]: idle callbacks and zero-delay timeouts *)
  deferred : nat;
  (** the batches of the requests that have not settled yet *)
  inflight : list (list TelemetryEvent);
  (** the page-lifecycle listeners currently registered *)
  listeners : list string;
  (** every host call made so far, oldest first *)
  output : list Effect
}.

(** Removes the first occurrence of [h]: clearing a timer that already fired
    does nothing. *)
Fixpoint clear_timer (h : Timeout) (l : list Timeout) : list Timeout :=
  match l with
  | [] => []
  | h' :: l' => if decide (h = h') then l' else h' :: clear_timer h l'
  end.

Definition host_effect (w : World) (e : Effect) : World :=
  let w' := mkWorld (inst w) (timers w) (deferred w) (inflight w) (listeners w)
              (output w ++ [e]) in
  match e with
  | SetTimeout scheduleFlushCb ms =>
      mkWorld (inst w') (timers w' ++ [mkTimeout scheduleFlushCb ms]) (deferred w')
        (inflight w') (listeners w') (output w')
  | SetTimeout flushCb _ | RequestIdleCallback _ =>
      mkWorld (inst w') (timers w') (S (deferred w')) (inflight w') (listeners w')
        (output w')
  | ClearTimeout h =>
      mkWorld (inst w') (clear_timer h (timers w')) (deferred w') (inflight w')
        (listeners w') (output w')
  | Fetch _ events =>
      mkWorld (inst w') (timers w') (deferred w') (inflight w' ++ [events])
        (listeners w') (output w')
  | AddEventListener ty =>
      mkWorld (inst w') (timers w') (deferred w') (inflight w') (listeners w' ++ [ty])
        (output w')
  | RemoveEventListener ty =>
      mkWorld (inst w') (timers w') (deferred w') (inflight w')
        (filter (λ x, x ≠ ty) (listeners w')) (output w')
  | _ => w'
  end.

(** Runs a piece of instance code in the world: the closure state is
    replaced and the host performs the calls in order. *)
Definition run_m {A} (m : M A) (w : World) : World :=
  let '(_, s, es) := m (inst w) in
  foldl host_effect
    (mkWorld s (timers w) (deferred w) (inflight w) (listeners w) (output w)) es.

(** Whether a run of [flush] that reads the clock as [now] comes to
    [JSON.stringify] with a batch on which it throws. *)
Definition flush_throws (now : Z) (st : State) : bool :=
  negb (bool_decide (length (eventQueue st) = 0%nat))
  && negb (now <? backoffUntil st)
  && negb (batch_stringifies (eventQueue st)).

(** What [flush] is handed for its [catch] block in a turn in which
    [JSON.stringify] does not throw: none of it is read. *)
Definition not_thrown (now : Z) : Thrown := mkThrown "" now now.

Inductive Action : Type :=
| CallTrackMetric (r : Reads) (name : string) (value : Z)
    (rating : option MetricRating) (properties : option (gmap string JSValue))
| CallTrackEvent (r : Reads) (name : string) (properties : option (gmap string JSValue))
| CallTrackError (r : Reads) (name : string) (error : JSValue)
    (properties : option (gmap string JSValue))
| CallTrackTrace (r : Reads) (name : string) (properties : option (gmap string JSValue))
| CallCaptureException (r : Reads) (error : JSValue)
    (context : option (gmap string JSValue))
| CallTrackPageView (r : Reads) (path : string)
    (properties : option (gmap string JSValue))
| CallFlush
| CallCleanup
(** the pending timer [h] fires and calls [scheduleFlush] *)
| TimerFires (h : Timeout)
(** a deferred run of [flush] starts, reading the clock as [now], and gets
    past [JSON.stringify] if it comes to it *)
| DeferredFlushRuns (now : Z)
(** a deferred run of [flush] starts, reading the clock as [now], and
    [JSON.stringify] throws on its batch *)
| DeferredFlushThrows (now : Z) (thrown : Thrown)
(** the [i]-th request in flight settles *)
| RequestSettles (i : nat) (outcome : FetchOutcome) (now logNow : Z)
(** the page fires [visibilitychange] / [beforeunload] *)
| VisibilityChanges (hidden : bool) (call : BeaconCall)
| BeforeUnload (call : BeaconCall).

Section Loop.

Variable config : ObservabilityConfig.
Variable isDebug : bool.
Variable hasWindow : bool.
Variable hasRequestIdleCallback : bool.

(** The world right after [createObservability(...)]. *)
Definition boot : World :=
  run_m (init config isDebug hasWindow) (mkWorld initialState [] 0 [] [] []).

(** [m] with its result dropped. *)
Definition void {A} (m : M A) : M unit :=
  λ s, let '(_, s', es) := m s in ((), s', es).

(** What one turn of the event loop runs: the world with the callback taken
    off its list, and the instance code of the turn.  [None] when the action
    cannot happen in this world (no such timer, deferred run or request; a
    run of [flush] that throws on a batch [JSON.stringify] accepts, or the
    other way round). *)
Definition dispatch (a : Action) (w : World) : option (World * M unit) :=
  match a with
  | CallTrackMetric r n v rt ps =>
      Some (w, trackMetric config isDebug hasWindow hasRequestIdleCallback r n v rt ps)
  | CallTrackEvent r n ps =>
      Some (w, trackEvent config isDebug hasWindow hasRequestIdleCallback r n ps)
  | CallTrackError r n err ps =>
      Some (w, trackError config isDebug hasWindow hasRequestIdleCallback r n err ps)
  | CallTrackTrace r n ps =>
      Some (w, trackTrace config isDebug hasWindow hasRequestIdleCallback r n ps)
  | CallCaptureException r err ctx =>
      Some (w, captureException config isDebug hasWindow hasRequestIdleCallback r err ctx)
  | CallTrackPageView r p ps =>
      Some (w, trackPageView config isDebug hasWindow hasRequestIdleCallback r p ps)
  | CallFlush =>
      Some (w, api_flush hasWindow hasRequestIdleCallback)
  | CallCleanup =>
      Some (w, cleanup isDebug hasWindow)
  | TimerFires h =>
      if bool_decide (h ∈ timers w) then
        Some (mkWorld (inst w) (clear_timer h (timers w)) (deferred w)
                (inflight w) (listeners w) (output w),
              scheduleFlush hasWindow hasRequestIdleCallback)
      else None
  | DeferredFlushRuns now =>
      match deferred w with
      | O => None
      | S d =>
          if flush_throws now (inst w) then None
          else
            Some (mkWorld (inst w) (timers w) d (inflight w) (listeners w)
                    (output w),
                  void (flush config isDebug now (not_thrown now)))
      end
  | DeferredFlushThrows now thrown =>
      match deferred w with
      | O => None
      | S d =>
          if flush_throws now (inst w) then
            Some (mkWorld (inst w) (timers w) d (inflight w) (listeners w)
                    (output w),
                  void (flush config isDebug now thrown))
          else None
      end
  | RequestSettles i outcome now logNow =>
      match inflight w !! i with
      | None => None
      | Some events =>
          Some (mkWorld (inst w) (timers w) (deferred w) (delete i (inflight w))
                  (listeners w) (output w),
                flush_settle isDebug events outcome now logNow)
      end
  | VisibilityChanges hidden call =>
      if bool_decide ("visibilitychange" ∈ listeners w)
      then Some (w, handleVisibilityChange config isDebug hidden call)
      else Some (w, mret ())
  | BeforeUnload call =>
      if bool_decide ("beforeunload" ∈ listeners w)
      then Some (w, flushWithBeacon config isDebug call)
      else Some (w, mret ())
  end.

Definition step (a : Action) (w : World) : option World :=
  match dispatch a w with
  | Some (w0, m) => Some (run_m m w0)
  | None => None
  end.

Fixpoint run (acts : list Action) (w : World) : option World :=
  match acts with
  | [] => Some w
  | a :: rest =>
      match step a w with
      | Some w' => run rest w'
      | None => None
      end
  end.

End Loop.

(** ** Observations on effects and actions *)

(** The delivery attempts among some host calls. *)
Definition is_delivery (e : Effect) : bool :=
  match e with Fetch _ _ | SendBeacon _ _ => true | _ => false end.
Definition deliveries (es : list Effect) : list Effect := filter is_delivery es.

(** The calls that arm a timer or defer a callback. *)
Definition is_scheduling (e : Effect) : bool :=
  match e with SetTimeout _ _ | RequestIdleCallback _ => true | _ => false end.
Definition schedulings (es : list Effect) : list Effect := filter is_scheduling es.

(** The batches handed to [fetch]. *)
Definition fetched (es : list Effect) : list (list TelemetryEvent) :=
  omap (λ e, match e with Fetch _ evs => Some evs | _ => None end) es.

(** The clock readings at which failure warnings were printed. *)
Definition warn_times (es : list Effect) : list Z :=
  omap (λ e, match e with ConsoleWarn t _ _ _ => Some t | _ => None end) es.

(** Every event the engine holds: the queue and the batches in flight. *)
Definition held (w : World) : list TelemetryEvent :=
  eventQueue (inst w) ++ mjoin (inflight w).

(** For a track-* call: the clock, session and page it reads, and the type
    and name it records. *)
Definition track_of (a : Action) : option (Reads * TelemetryType * string) :=
  match a with
  | CallTrackMetric r n _ _ _ => Some (r, Metric, n)
  | CallTrackEvent r n _ => Some (r, Event, n)
  | CallTrackError r n _ _ => Some (r, Error, n)
  | CallTrackTrace r n _ => Some (r, Trace, n)
  | CallCaptureException r _ _ => Some (r, Error, "exception")
  | CallTrackPageView r _ _ => Some (r, Event, "page_view")
  | _ => None
  end.

(** The failure counter as the trace of actions determines it: a request
    that settles successfully resets it, one that fails increments it, and
    so does a run of [flush] that throws. *)
Fixpoint failures_in_a_row (acts : list Action) (start : nat) : nat :=
  match acts with
  | [] => start
  | RequestSettles _ outcome _ _ :: rest =>
      failures_in_a_row rest
        (match caught outcome with None => 0 | Some _ => S start end)%nat
  | DeferredFlushThrows _ _ :: rest => failures_in_a_row rest (S start)
  | _ :: rest => failures_in_a_row rest start
  end.

(** Gaps of at least a minute, the first one counted from [base]. *)
Fixpoint spaced (base : Z) (ts : list Z) : Prop :=
  match ts with
  | [] => True
  | t :: rest => base + ERROR_LOG_INTERVAL_MS ≤ t ∧ spaced t rest
  end.

(** Instance code that leaves the breaker alone and prints no warning. *)
Definition keeps_breaker {A} (m : M A) : Prop :=
  ∀ st,
    consecutiveFailures (state_of (m st)) = consecutiveFailures st
    ∧ backoffUntil (state_of (m st)) = backoffUntil st
    ∧ lastErrorLogged (state_of (m st)) = lastErrorLogged st
    ∧ warn_times (effects_of (m st)) = [].

(** The turns in which an attempt of [flush] ends: its request settles, or
    [JSON.stringify] throws. *)
Definition is_settle (a : Action) : bool :=
  match a with
  | RequestSettles _ _ _ _ | DeferredFlushThrows _ _ => true
  | _ => false
  end.

(** Whether a clock reading falls in the minute that starts at [T]. *)
Definition in_minute (T t : Z) : bool := (T <=? t) && (t <? T + 60000).

(** The requeue as the specification words it: the failed batch in front
    of the current queue, its oldest events dropped to keep 100 in all. *)
Definition requeue_as_specified (q events : list TelemetryEvent)
    : list TelemetryEvent :=
  drop (length events + length q - 100) events ++ q.

(** ** Scenarios used below *)

Definition batch_of_one : ObservabilityConfig :=
  {| debug := false; batchSize := 1; flushInterval := 5000;
     telemetryEndpoint := "/api/telemetry"; useBeacon := true;
     sessionKey := "pleme_session_id" |}.

(** A browser tab at clock reading [t]. *)
Definition at_time (t : Z) : Reads :=
  {| r_now := t; r_session := "1700000000000-abc123xyz"; r_page := "/home" |}.

(** A generic event named [n], created at clock reading [t]. *)
Definition ev (n : string) (t : Z) : TelemetryEvent :=
  stamp (mkPartial Event n None None None) (at_time t).

Definition network_down : FetchOutcome :=
  FetchRejected (JError "Network error" None).

(** The world a run from a fresh instance ends in, in a browser with
    [requestIdleCallback] and debug logging off (the fresh world itself if
    the run cannot happen). *)
Definition world_after (cfg : ObservabilityConfig) (acts : list Action) : World :=
  default (boot cfg false true) (run cfg false true true acts (boot cfg false true)).

(** Three runs with [batchSize = 1] in which the request of the first flush
    fails: one event arrives during the attempt; 101 events arrive during
    it; two events are in the failed batch and 99 arrive during it. *)
Definition one_arrives_during_attempt : list Action :=
  [ CallTrackEvent (at_time 1700000000000) "a" None;
    DeferredFlushRuns 1700000000001;
    CallTrackEvent (at_time 1700000000002) "b" None;
    RequestSettles 0 network_down 1700000000003 1700000000003 ].

Definition many_arrive_during_attempt : list Action :=
  [ CallTrackEvent (at_time 1700000000000) "a" None;
    DeferredFlushRuns 1700000000001 ]
  ++ replicate 101 (CallTrackEvent (at_time 1700000000002) "c" None)
  ++ [ RequestSettles 0 network_down 1700000000003 1700000000003 ].

Definition batch_does_not_fit : list Action :=
  [ CallTrackEvent (at_time 1700000000000) "a" None;
    CallTrackEvent (at_time 1700000000001) "b" None;
    DeferredFlushRuns 1700000000001 ]
  ++ replicate 99 (CallTrackEvent (at_time 1700000000002) "c" None)
  ++ [ RequestSettles 0 network_down 1700000000003 1700000000003 ].

(** Two runs that start with [cleanup()] on a fresh instance and then track
    one event: with [batchSize = 1] the call defers a run of [flush]; with
    the default configuration it arms the interval timer, which fires. *)
Definition track_after_cleanup : list Action :=
  [ CallCleanup;
    CallTrackEvent (at_time 1700000000000) "a" None;
    DeferredFlushRuns 1700000000001 ].

Definition track_after_cleanup_default : list Action :=
  [ CallCleanup;
    CallTrackEvent (at_time 1700000000000) "a" None;
    TimerFires (mkTimeout scheduleFlushCb 5000);
    DeferredFlushRuns 1700000005001 ].

(** A run with the default configuration that ends inside a backoff window
    with the interval timer pending: an event is tracked and flushed by
    hand, the request fails, [flush()] is called again (which cancels the
    retry timer and defers a run of [flush]) and, before that run starts,
    another event is tracked (which arms the interval timer). *)
Definition backoff_with_timer_pending : list Action :=
  [ CallTrackEvent (at_time 1700000000000) "a" None;
    CallFlush;
    DeferredFlushRuns 1700000000001;
    RequestSettles 0 network_down 1700000000010 1700000000010;
    CallFlush;
    CallTrackEvent (at_time 1700000000101) "b" None ].

(** A run with [batchSize = 1] in which the first request fails and the
    retry is in flight: the retry timer fires, which defers a run of
    [flush], which starts the next request. *)
Definition one_failure_then_retry : list Action :=
  [ CallTrackEvent (at_time 1700000000000) "a" None;
    DeferredFlushRuns 1700000000001;
    RequestSettles 0 network_down 1700000000050 1700000000050;
    TimerFires (mkTimeout scheduleFlushCb 5000);
    DeferredFlushRuns 1700000005051 ].

(** The same, with the retry failing as well and a third attempt in
    flight. *)
Definition two_failures_then_retry : list Action :=
  one_failure_then_retry
  ++ [ RequestSettles 0 network_down 1700000005100 1700000005100;
       TimerFires (mkTimeout scheduleFlushCb 10000);
       DeferredFlushRuns 1700000015101 ].

(** After the retry has succeeded: one more event is tracked and its
    request is in flight. *)
Definition next_attempt : list Action :=
  [ CallTrackEvent (at_time 1700000006000) "b" None;
    DeferredFlushRuns 1700000006001 ].

(** ** More observations on the engine *)

(** The event a track-* call puts in the queue. *)
Definition created (a : Action) : option TelemetryEvent :=
  match a with
  | CallTrackMetric r n v rt ps => Some (stamp (mkPartial Metric n (Some v) rt ps) r)
  | CallTrackEvent r n ps => Some (stamp (mkPartial Event n None None ps) r)
  | CallTrackError r n err ps =>
      Some (stamp (mkPartial Error n None None
              (Some (<["stack" := stack_or_undefined err]>
                       (<["message" := JString (message_or_String err)]>
                          (<["error" := err]> (spread ps)))))) r)
  | CallTrackTrace r n ps => Some (stamp (mkPartial Trace n None None ps) r)
  | CallCaptureException r err ctx =>
      Some (stamp (mkPartial Error "exception" None None
              (Some (<["stack" := stack_or_undefined err]>
                       (<["message" := JString (message_or_String err)]>
                          (<["error" := err]> (spread ctx)))))) r)
  | CallTrackPageView r p ps =>
      Some (stamp (mkPartial Event "page_view" None None
              (Some (spread ps ∪ {["path" := JString p]}))) r)
  | _ => None
  end.

(** What a host call does to the list of pending [scheduleFlush] timers. *)
Definition timer_effect (ts : list Timeout) (e : Effect) : list Timeout :=
  match e with
  | SetTimeout scheduleFlushCb ms => ts ++ [mkTimeout scheduleFlushCb ms]
  | ClearTimeout h => clear_timer h ts
  | _ => ts
  end.

(** The timer the instance holds a handle of. *)
Definition pending_timer (st : State) : list Timeout :=
  match flushTimer st with Some h => [h] | None => [] end.

(** Instance code whose timer calls agree with what it stores in
    [flushTimer]. *)
Definition tracks_timer {A} (m : M A) : Prop :=
  ∀ st, foldl timer_effect (pending_timer st) (effects_of (m st))
        = pending_timer (state_of (m st)).

(** The calls that defer a run of [flush]. *)
Definition is_deferral (e : Effect) : bool :=
  match e with SetTimeout flushCb _ | RequestIdleCallback _ => true | _ => false end.
Definition deferrals (es : list Effect) : nat := length (filter is_deferral es).

(** The queue is empty or something is pending that will look at it. *)
Definition served (w : World) : Prop :=
  eventQueue (inst w) = [] ∨ timers w ≠ [] ∨ (0 < deferred w)%nat.

(** Instance code that ends with an empty queue, a timer held or a run of
    [flush] deferred. *)
Definition serves {A} (m : M A) : Prop :=
  ∀ st, eventQueue (state_of (m st)) = []
        ∨ is_Some (flushTimer (state_of (m st)))
        ∨ (0 < deferrals (effects_of (m st)))%nat.

(** Instance code that defers nothing, leaves the timer alone and leaves
    the queue as it is or empty. *)
Definition idles {A} (m : M A) : Prop :=
  ∀ st, flushTimer (state_of (m st)) = flushTimer st
        ∧ foldl timer_effect (pending_timer st) (effects_of (m st)) = pending_timer st
        ∧ (eventQueue (state_of (m st)) = eventQueue st
           ∨ eventQueue (state_of (m st)) = []).

Definition is_cleanup (a : Action) : bool :=
  match a with CallCleanup => true | _ => false end.

Definition is_beacon_turn (a : Action) : bool :=
  match a with VisibilityChanges _ _ | BeforeUnload _ => true | _ => false end.

Definition is_log (e : Effect) : bool :=
  match e with ConsoleLog _ => true | _ => false end.
Definition is_not_log (e : Effect) : bool := negb (is_log e).
Definition without_logs (es : list Effect) : list Effect := filter is_not_log es.

(** The world with the debug lines taken out of its output. *)
Definition silent (w : World) : World :=
  mkWorld (inst w) (timers w) (deferred w) (inflight w) (listeners w)
    (without_logs (output w)).

Definition is_beacon (e : Effect) : bool :=
  match e with SendBeacon _ _ => true | _ => false end.
Definition beacons (es : list Effect) : list Effect := filter is_beacon es.

(** A delivery that goes to the configured endpoint with at least one
    event. *)
Definition well_sent (cfg : ObservabilityConfig) (e : Effect) : Prop :=
  match e with
  | Fetch endpoint events | SendBeacon endpoint events =>
      endpoint = telemetryEndpoint cfg ∧ events ≠ []
  | _ => True
  end.

(** The timer [collect] arms when none is pending. *)
Definition interval_timer (cfg : ObservabilityConfig) : Timeout :=
  mkTimeout scheduleFlushCb (flushInterval cfg).

(** Three track-* calls of different kinds. *)
Definition three_tracks : list Action :=
  [ CallTrackEvent (at_time 1700000000000) "event1" None;
    CallTrackMetric (at_time 1700000000100) "LCP" 2500 (Some Good) None;
    CallTrackTrace (at_time 1700000000200) "span" None ].

Definition batch_of_three : ObservabilityConfig :=
  {| debug := false; batchSize := 3; flushInterval := 10000;
     telemetryEndpoint := "/api/telemetry"; useBeacon := true;
     sessionKey := "pleme_session_id" |}.

(** Instance code all of whose deliveries are [well_sent]. *)
Definition sends_well {A} (cfg : ObservabilityConfig) (m : M A) : Prop :=
  ∀ st, Forall (well_sent cfg) (effects_of (m st)).

(** What a host call does to the registered listeners. *)
Definition listener_effect (ls : list string) (e : Effect) : list string :=
  match e with
  | AddEventListener ty => ls ++ [ty]
  | RemoveEventListener ty => filter (λ x, x ≠ ty) ls
  | _ => ls
  end.

(** Every registered listener has its handler bound in the instance, and
    there is a window. *)
Definition listeners_bound (hasWindow : bool) (w : World) : Prop :=
  ∀ ty, ty ∈ listeners w →
    hasWindow = true
    ∧ ((ty = "visibilitychange" ∧ boundHandleVisibilityChange (inst w) = true)
       ∨ (ty = "beforeunload" ∧ boundFlushWithBeacon (inst w) = true)).

(** Instance code that registers and removes no listener, leaves the two
    handlers as they are and sends no beacon. *)
Definition leaves_listeners {A} (m : M A) : Prop :=
  ∀ st,
    (∀ ls, foldl listener_effect ls (effects_of (m st)) = ls)
    ∧ boundHandleVisibilityChange (state_of (m st)) = boundHandleVisibilityChange st
    ∧ boundFlushWithBeacon (state_of (m st)) = boundFlushWithBeacon st
    ∧ beacons (effects_of (m st)) = [].

(** The default configuration with the teardown beacon switched off. *)
Definition beacon_off : ObservabilityConfig :=
  {| debug := false; batchSize := 10; flushInterval := 5000;
     telemetryEndpoint := "/api/telemetry"; useBeacon := false;
     sessionKey := "pleme_session_id" |}.

(** An event is tracked, then the page unloads and is hidden. *)
Definition track_then_unload : list Action :=
  [ CallTrackEvent (at_time 1700000000000) "a" None;
    BeforeUnload (BeaconReturns true);
    VisibilityChanges true (BeaconReturns true) ].

(** An event is tracked, [cleanup()] is called, another event is tracked,
    then the page unloads and is hidden. *)
Definition cleanup_then_unload : list Action :=
  [ CallTrackEvent (at_time 1700000000500) "b" None;
    BeforeUnload (BeaconReturns true);
    VisibilityChanges true (BeaconReturns true) ].

(** A purchase is tracked with its total, a [BigInt], among the
    properties. *)
Definition bigint_tracked : Action :=
  CallTrackEvent (at_time 1700000000000) "purchase"
    (Some {["total" := JUnserializable "10"]}).

(** Two pieces of instance code that differ only in what they log. *)
Definition debug_related {A} (m1 m2 : M A) : Prop :=
  ∀ st, state_of (m1 st) = state_of (m2 st)
        ∧ without_logs (effects_of (m1 st)) = without_logs (effects_of (m2 st)).

(** ** session.ts *)

(** The module variable [cachedSessionId] and the tab's [sessionStorage]. *)
Record SessionModule : Type := mkSession {
  cachedSessionId : option string;
  sessionStorage : gmap string string
}.

(** Truthiness of a [string | null]: [null] and the empty string are
    falsy. *)
Definition truthy (o : option string) : bool :=
  match o with
  | Some s => negb (bool_decide (s = ""))
  | None => false
  end.

(** [`${Date.now()}-${Math.random().toString(36).slice(2, 11)}`]; [random36]
    is the value of [Math.random().toString(36).slice(2, 11)]. *)
Definition generateSessionId (now : Z) (random36 : string) : string :=
  pretty now +:+ "-" +:+ random36.

(** [getSessionId(sessionKey)]; [now] and [random36] are what
    [generateSessionId] would read if it were called.  Under each
    truthiness test the string tested is not [null], which is what
    [default ""] takes out. *)
Definition getSessionId (hasWindow : bool) (now : Z) (random36 : string)
    (sessionKey : string) (s : SessionModule) : string * SessionModule :=
  if truthy (cachedSessionId s) then (default "" (cachedSessionId s), s)
  else if negb hasWindow
  then ("ssr", mkSession (Some "ssr") (sessionStorage s))
  else
    let stored := sessionStorage s !! sessionKey in
    let fresh := generateSessionId now random36 in
    let sessionId := if truthy stored then default "" stored else fresh in
    let storage :=
      if truthy stored then sessionStorage s
      else <[sessionKey := fresh]> (sessionStorage s) in
    (sessionId, mkSession (Some sessionId) storage).

Definition resetSessionCache (s : SessionModule) : SessionModule :=
  mkSession None (sessionStorage s).

(** [getCurrentPage()]; [pathname] is [window.location.pathname]. *)
Definition getCurrentPage (hasWindow : bool) (pathname : string) : string :=
  if negb hasWindow then "/" else pathname.

(** [s.endsWith(suffix)]: [s] is [suffix], or what follows its first
    character ends with [suffix]. *)
Fixpoint endsWith (s suffix : string) : bool :=
  bool_decide (s = suffix)
  || match s with
     | EmptyString => false
     | String _ rest => endsWith rest suffix
     end.

(** [isDevelopment()]; [vite_env] is [window.ENV?.VITE_ENV] ([None] when it
    is [undefined]) and [hostname] is [window.location.hostname]. *)
Definition isDevelopment (hasWindow : bool) (vite_env : option string)
    (hostname : string) : bool :=
  if negb hasWindow then false
  else if truthy vite_env then bool_decide (vite_env = Some "development")
  else bool_decide (hostname = "localhost")
       || bool_decide (hostname = "127.0.0.1")
       || endsWith hostname ".local".

(** ** Unfolding instance code *)

Ltac msimpl :=
  repeat (progress
    (unfold collect, scheduleFlush, flush, flush_catch, flush_settle,
       flushWithBeacon, handleVisibilityChange, cleanup, init, arm_flushTimer,
       getBackoffDelay, trackEvent, trackError, trackMetric, trackTrace, trackPageView,
       captureException, api_flush, void, state_of, effects_of, result_of,
       when, gets, modify, emit, mbind, M_bind, mret, M_ret in *;
     simpl in *)).

Ltac mcases :=
  simpl in *; simplify_eq; repeat (case_match; simpl in *; simplify_eq).

Ltac mfinish :=
  msimpl; mcases; simpl in *; simplify_eq;
  unfold pending_timer, deferrals in *; simpl in *; simplify_eq;
  rewrite ?decide_True by done; try done.

(** * Properties *)

(** ** The host interpreter *)

Lemma foldl_host_inst es w : inst (foldl host_effect w es) = inst w.
Proof.
  revert w. induction es as [|e es IH]; intros w; [done|].
  simpl. rewrite IH. by destruct e as [[] ?| | | | | | | | | |].
Qed.

Lemma foldl_host_output es w : output (foldl host_effect w es) = output w ++ es.
Proof.
  revert w. induction es as [|e es IH]; intros w; simpl.
  - by rewrite app_nil_r.
  - rewrite IH. destruct e as [[] ?| | | | | | | | | |]; simpl;
      by rewrite <- app_assoc.
Qed.

Lemma foldl_host_inflight es w :
  inflight (foldl host_effect w es) = inflight w ++ fetched es.
Proof.
  revert w. induction es as [|e es IH]; intros w; simpl.
  - by rewrite app_nil_r.
  - rewrite IH. destruct e as [[] ?| | | | | | | | | |]; simpl; try done.
    by rewrite <- app_assoc.
Qed.

Lemma run_m_inst {A} (m : M A) w : inst (run_m m w) = state_of (m (inst w)).
Proof.
  unfold run_m, state_of. destruct (m (inst w)) as [[a s] es]. simpl.
  by rewrite foldl_host_inst.
Qed.

Lemma run_m_output {A} (m : M A) w :
  output (run_m m w) = output w ++ effects_of (m (inst w)).
Proof.
  unfold run_m, effects_of. destruct (m (inst w)) as [[a s] es]. simpl.
  by rewrite foldl_host_output.
Qed.

Lemma run_m_inflight {A} (m : M A) w :
  inflight (run_m m w) = inflight w ++ fetched (effects_of (m (inst w))).
Proof.
  unfold run_m, effects_of. destruct (m (inst w)) as [[a s] es]. simpl.
  by rewrite foldl_host_inflight.
Qed.

Lemma dispatch_inst cfg dbg hw hr a w w0 m :
  dispatch cfg dbg hw hr a w = Some (w0, m) →
  inst w0 = inst w ∧ output w0 = output w.
Proof.
  destruct a; simpl; intros H; mcases; done.
Qed.

Lemma step_dispatch cfg dbg hw hr a w w' :
  step cfg dbg hw hr a w = Some w' →
  ∃ w0 m, dispatch cfg dbg hw hr a w = Some (w0, m) ∧ w' = run_m m w0.
Proof.
  unfold step. destruct (dispatch cfg dbg hw hr a w) as [[w0 m]|]; [|done].
  intros [= <-]. eauto.
Qed.

(** ** trackError and trackPageView: the recorded properties *)

Lemma collect_queue cfg dbg hw hr r event st :
  eventQueue (state_of (collect cfg dbg hw hr r event st))
  = eventQueue st ++ [stamp event r].
Proof. destruct st. msimpl. mcases; done. Qed.

(** C4 (as the code has it): [trackError] appends one event of type
    [error] whose properties are the caller's, overwritten on three keys:
    [error] (the raw value), [message] (the message of an [Error], the
    string form of anything else) and [stack] (the stack of an [Error],
    [undefined] otherwise); on every other key the caller's field stands. *)
Theorem C4_trackError_properties cfg dbg hw hr r n error props st :
  ∃ e ps,
    eventQueue (state_of (trackError cfg dbg hw hr r n error props st))
      = eventQueue st ++ [e]
    ∧ type e = Error ∧ name e = n ∧ properties e = Some ps
    ∧ ps !! "error" = Some error
    ∧ ps !! "message" = Some (JString (message_or_String error))
    ∧ ps !! "stack" = Some (stack_or_undefined error)
    ∧ (∀ m s, error = JError m s →
         ps !! "message" = Some (JString m)
         ∧ ps !! "stack" = Some (of_optional_string s))
    ∧ (instanceof_Error error = false →
         ps !! "message" = Some (JString (String_ error))
         ∧ ps !! "stack" = Some JUndefined)
    ∧ (∀ k, k ≠ "error" → k ≠ "message" → k ≠ "stack" →
         ps !! k = spread props !! k).
Proof.
  unfold trackError. rewrite collect_queue. eexists _, _.
  split; [reflexivity|]. simpl.
  repeat split; try done.
  - by rewrite lookup_insert_ne, lookup_insert_ne, lookup_insert_eq.
  - by rewrite lookup_insert_ne, lookup_insert_eq.
  - by rewrite lookup_insert_eq.
  - subst. by rewrite lookup_insert_ne, lookup_insert_eq.
  - subst. by rewrite lookup_insert_eq.
  - rewrite lookup_insert_ne, lookup_insert_eq by done.
    by destruct error.
  - rewrite lookup_insert_eq. by destruct error.
  - intros k ? ? ?. by rewrite !lookup_insert_ne.
Qed.

(** C4, refuted as stated: a caller-supplied [error] field, which is not
    one of the two normalized keys, does not take precedence; it is
    replaced by the raw thrown value. *)
Lemma C4_counterexample :
  ∃ e ps,
    eventQueue (state_of (trackError DEFAULT_CONFIG false true true
                            (at_time 1700000000000) "checkout"
                            (JString "boom")
                            (Some {["error" := JString "mine"]})
                            initialState)) = [e]
    ∧ properties e = Some ps
    ∧ ps !! "error" = Some (JString "boom")
    ∧ ps !! "error" ≠ ({["error" := JString "mine"]} : gmap string JSValue) !! "error".
Proof.
  unfold trackError. rewrite collect_queue. eexists _, _.
  split; [reflexivity|]. simpl. split; [reflexivity|].
  rewrite lookup_insert_ne, lookup_insert_ne, lookup_insert_eq by done.
  split; [done|]. by rewrite lookup_singleton_eq.
Qed.

(** C4 on a thrown [Error] and a caller field [context]. *)
Lemma C4_witness :
  ∃ e ps,
    eventQueue (state_of (trackError DEFAULT_CONFIG false true true
                            (at_time 1700000000000) "test_error"
                            (JError "Test error" (Some "Error: Test error at <anonymous>"))
                            (Some {["context" := JString "test"]})
                            initialState)) = [e]
    ∧ type e = Error ∧ properties e = Some ps
    ∧ ps !! "message" = Some (JString "Test error")
    ∧ ps !! "stack" = Some (JString "Error: Test error at <anonymous>")
    ∧ ps !! "context" = Some (JString "test").
Proof.
  destruct (C4_trackError_properties DEFAULT_CONFIG false true true
              (at_time 1700000000000) "test_error"
              (JError "Test error" (Some "Error: Test error at <anonymous>"))
              (Some {["context" := JString "test"]}) initialState)
    as (e & ps & Hq & Ht & _ & Hp & _ & _ & _ & Herr & _ & Hother).
  exists e, ps.
  destruct (Herr _ _ eq_refl) as [Hm Hs].
  split; [exact Hq|]. split; [exact Ht|]. split; [exact Hp|].
  split; [exact Hm|]. split; [exact Hs|].
  rewrite Hother by done. simpl. by rewrite lookup_singleton_eq.
Defined.

(** C10: in the [page_view] event of [trackPageView(path, properties)] a
    [path] key of [properties] overrides the argument; the argument is
    recorded only when [properties] has no such key. *)
Theorem C10_trackPageView_path cfg dbg hw hr r path props st :
  ∃ e ps,
    eventQueue (state_of (trackPageView cfg dbg hw hr r path props st))
      = eventQueue st ++ [e]
    ∧ type e = Event ∧ name e = "page_view" ∧ properties e = Some ps
    ∧ (∀ v, spread props !! "path" = Some v → ps !! "path" = Some v)
    ∧ (spread props !! "path" = None → ps !! "path" = Some (JString path))
    ∧ (∀ k, k ≠ "path" → ps !! k = spread props !! k).
Proof.
  unfold trackPageView, trackEvent. rewrite collect_queue. eexists _, _.
  split; [reflexivity|]. simpl. repeat split; try done.
  - intros v Hv. by apply lookup_union_Some_l.
  - intros Hn. rewrite lookup_union_r by done. by rewrite lookup_singleton_eq.
  - intros k Hk. rewrite lookup_union. rewrite lookup_singleton_ne by done.
    by destruct (spread props !! k).
Qed.

(** C10 at a concrete call. *)
Lemma C10_witness :
  spread (Some ({["path" := JString "/override"]} : gmap string JSValue)) !! "path"
    = Some (JString "/override")
  ∧ ∃ e ps,
      eventQueue (state_of (trackPageView DEFAULT_CONFIG false true true
                              (at_time 1700000000000) "/test-page"
                              (Some {["path" := JString "/override"]})
                              initialState)) = [e]
      ∧ properties e = Some ps ∧ ps !! "path" = Some (JString "/override").
Proof.
  split; [by simpl; rewrite lookup_singleton_eq|].
  destruct (C10_trackPageView_path DEFAULT_CONFIG false true true
              (at_time 1700000000000) "/test-page"
              (Some {["path" := JString "/override"]}) initialState)
    as (e & ps & Hq & _ & _ & Hp & Hover & _).
  exists e, ps. repeat split; [exact Hq | exact Hp |].
  apply Hover. simpl. by rewrite lookup_singleton_eq.
Defined.

(** ** The teardown flush *)

(** C8 (as the code has it): with [useBeacon] on and a non-empty queue
    that [JSON.stringify] accepts, [flushWithBeacon] hands the whole queue to
    [sendBeacon] once (and to nothing else), empties the queue, arms no
    timer and changes nothing else, however the call of [sendBeacon] ends.
    With [useBeacon] off or an empty queue it makes no host call and leaves
    the state as it is.  The unload turn and the turn of a page that becomes
    hidden run it whenever their listener is registered, and they leave
    the requests in flight, the timers and the deferred runs as they were,
    so nothing is put back and nothing is tried again. *)
Theorem C8_teardown_flush cfg dbg call st :
  (useBeacon cfg = true → eventQueue st ≠ [] →
   batch_stringifies (eventQueue st) = true →
     deliveries (effects_of (flushWithBeacon cfg dbg call st))
       = [SendBeacon (telemetryEndpoint cfg) (eventQueue st)]
     ∧ schedulings (effects_of (flushWithBeacon cfg dbg call st)) = []
     ∧ state_of (flushWithBeacon cfg dbg call st) = set_eventQueue [] st)
  ∧ (useBeacon cfg = false ∨ eventQueue st = [] →
     effects_of (flushWithBeacon cfg dbg call st) = []
     ∧ state_of (flushWithBeacon cfg dbg call st) = st)
  ∧ (∀ call', flushWithBeacon cfg dbg call' st = flushWithBeacon cfg dbg call st)
  ∧ (∀ hw hr a w,
       (a = BeforeUnload call ∧ "beforeunload" ∈ listeners w)
       ∨ (a = VisibilityChanges true call ∧ "visibilitychange" ∈ listeners w) →
       inst w = st →
       ∃ w', step cfg dbg hw hr a w = Some w'
             ∧ inst w' = state_of (flushWithBeacon cfg dbg call st)
             ∧ output w' = output w ++ effects_of (flushWithBeacon cfg dbg call st)
             ∧ inflight w' = inflight w ∧ timers w' = timers w
             ∧ deferred w' = deferred w ∧ listeners w' = listeners w).
Proof.
  split; [|split; [|split]].
  - intros Hb Hq Hs. destruct st as [[|e q] ? ? ? ? ? ? ?]; [done|].
    simpl in Hs. msimpl. rewrite Hb, Hs. by destruct dbg.
  - intros [Hb|Hq]; destruct st as [[|e q] ? ? ? ? ? ? ?]; msimpl;
      try rewrite Hb; simplify_eq; done.
  - done.
  - intros hw hr a w Ha Hst.
    assert (Hrun : ∀ w0, inst w0 = st →
              inst (run_m (flushWithBeacon cfg dbg call) w0)
                = state_of (flushWithBeacon cfg dbg call st)
              ∧ output (run_m (flushWithBeacon cfg dbg call) w0)
                = output w0 ++ effects_of (flushWithBeacon cfg dbg call st)
              ∧ inflight (run_m (flushWithBeacon cfg dbg call) w0) = inflight w0
              ∧ timers (run_m (flushWithBeacon cfg dbg call) w0) = timers w0
              ∧ deferred (run_m (flushWithBeacon cfg dbg call) w0) = deferred w0
              ∧ listeners (run_m (flushWithBeacon cfg dbg call) w0) = listeners w0).
    { intros w0 <-. rewrite run_m_inst, run_m_output.
      split; [done|]. split; [done|].
      unfold run_m. destruct w0 as [[[|e q] ? ? ? ? ? ? ?] ? ? ? ? ?];
        msimpl; destruct (useBeacon cfg), dbg; simpl; try done;
        destruct (event_stringifies e && batch_stringifies q); done. }
    destruct Ha as [[-> Hl] | [-> Hl]]; unfold step; simpl;
      rewrite bool_decide_eq_true_2 by done;
      eexists; (split; [reflexivity|]); by apply Hrun.
Qed.

(** C8 on a queue of two events. *)
Lemma C8_witness :
  deliveries (effects_of (flushWithBeacon DEFAULT_CONFIG false (BeaconReturns false)
     (set_eventQueue [ev "a" 1700000000000; ev "b" 1700000000500] initialState)))
  = [SendBeacon "/api/telemetry" [ev "a" 1700000000000; ev "b" 1700000000500]]
  ∧ eventQueue (state_of (flushWithBeacon DEFAULT_CONFIG false (BeaconReturns false)
     (set_eventQueue [ev "a" 1700000000000; ev "b" 1700000000500] initialState)))
  = [].
Proof.
  destruct (C8_teardown_flush DEFAULT_CONFIG false (BeaconReturns false)
              (set_eventQueue [ev "a" 1700000000000; ev "b" 1700000000500]
                 initialState)) as [H _].
  destruct H as (Hd & _ & Hs); [reflexivity | discriminate | reflexivity |].
  split; [exact Hd | by rewrite Hs].
Defined.

(** C8, refuted as stated: an event is tracked with a [BigInt] among its
    properties and the page unloads.  The unload listener is registered,
    [useBeacon] is on and the queue holds the event; after the turn the
    queue is empty and nothing was handed to [sendBeacon] or to [fetch]:
    [JSON.stringify] threw after the queue had been emptied. *)
Lemma C8_counterexample :
  (λ w, (useBeacon DEFAULT_CONFIG, listeners w, length (eventQueue (inst w)),
         batch_stringifies (eventQueue (inst w))))
    <$> run DEFAULT_CONFIG false true true [bigint_tracked]
          (boot DEFAULT_CONFIG false true)
  = Some (true, ["visibilitychange"; "beforeunload"], 1%nat, false)
  ∧ (λ w, (eventQueue (inst w), deliveries (output w), inflight w))
      <$> run DEFAULT_CONFIG false true true
            [bigint_tracked; BeforeUnload (BeaconReturns true)]
            (boot DEFAULT_CONFIG false true)
    = Some ([], [], []).
Proof. vm_compute. done. Qed.

(** ** The standard flush inside a backoff window *)

(** C5 (as the code has it): a [flush] that starts before [backoffUntil]
    sends nothing and leaves the queue as it is.  It arms a timer for
    exactly the rest of the window when the queue is non-empty and no timer
    is pending; when a timer is already pending, or the queue is empty, it
    does nothing at all. *)
Theorem C5_flush_in_backoff cfg dbg now thrown st :
  now < backoffUntil st →
  result_of (flush cfg dbg now thrown st) = None
  ∧ deliveries (effects_of (flush cfg dbg now thrown st)) = []
  ∧ eventQueue (state_of (flush cfg dbg now thrown st)) = eventQueue st
  ∧ (eventQueue st ≠ [] → flushTimer st = None →
       effects_of (flush cfg dbg now thrown st)
         = [SetTimeout scheduleFlushCb (backoffUntil st - now)]
       ∧ state_of (flush cfg dbg now thrown st)
         = set_flushTimer (Some (mkTimeout scheduleFlushCb (backoffUntil st - now))) st)
  ∧ (eventQueue st = [] ∨ is_Some (flushTimer st) →
       effects_of (flush cfg dbg now thrown st) = []
       ∧ state_of (flush cfg dbg now thrown st) = st).
Proof.
  intros Hlt. apply Z.ltb_lt in Hlt.
  destruct st as [[|e q] t ? ? ? ? until ?]; simpl in Hlt; msimpl;
    rewrite ?Hlt; destruct t; simpl.
  all: repeat split; try done.
  all: match goal with H : _ ∨ _ |- _ => destruct H as [?|[? ?]]; done end.
Qed.

(** C5 in the first backoff window, five seconds long, 100 ms into it. *)
Lemma C5_witness :
  let st := mkState [ev "a" 1700000000000] None true true true
              1 1700000005010 1700000000010 in
  1700000000110 < backoffUntil st
  ∧ effects_of (flush DEFAULT_CONFIG false 1700000000110
                  (not_thrown 1700000000110) st)
    = [SetTimeout scheduleFlushCb 4900]
  ∧ eventQueue (state_of (flush DEFAULT_CONFIG false 1700000000110
                            (not_thrown 1700000000110) st))
    = [ev "a" 1700000000000].
Proof.
  intros st.
  assert (Hlt : 1700000000110 < backoffUntil st) by (simpl; lia).
  destruct (C5_flush_in_backoff DEFAULT_CONFIG false 1700000000110
              (not_thrown 1700000000110) st Hlt)
    as (_ & _ & Hq & Harm & _).
  assert (Hne : eventQueue st ≠ []) by discriminate.
  destruct (Harm Hne eq_refl) as [He _].
  split; [exact Hlt | split; [exact He | exact Hq]].
Defined.

(** C5, refuted as stated: the deferred [flush] of that run starts at
    1700000000102, inside the window that ends at 1700000005010, with a
    non-empty queue, and arms no timer; the only pending timer is the
    interval timer of 5000 ms, not one of the remaining 4908 ms. *)
Lemma C5_counterexample :
  (λ w, (backoffUntil (inst w), length (eventQueue (inst w)), deferred w,
         effects_of (flush DEFAULT_CONFIG false 1700000000102
                       (not_thrown 1700000000102) (inst w))))
    <$> run DEFAULT_CONFIG false true true backoff_with_timer_pending
          (boot DEFAULT_CONFIG false true)
  = Some (1700000005010, 2%nat, 1%nat, [])
  ∧ timers <$> run DEFAULT_CONFIG false true true
                 (backoff_with_timer_pending ++ [DeferredFlushRuns 1700000000102])
                 (boot DEFAULT_CONFIG false true)
    = Some [mkTimeout scheduleFlushCb 5000]
  ∧ 1700000005010 - 1700000000102 = 4908.
Proof. vm_compute. done. Qed.

(** ** How a request settles *)

(** The delay of the [n]-th failure in a row. *)
Lemma backoff_values :
  map (λ n : nat, Z.min (5000 * 2 ^ (Z.of_nat n - 1)) MAX_BACKOFF_MS)
      [1; 2; 3; 4; 5; 6; 7; 8; 20]%nat
  = [5000; 10000; 20000; 40000; 80000; 160000; 300000; 300000; 300000].
Proof. reflexivity. Qed.

(** Everything the [catch] block of [flush] does. *)
Lemma flush_settle_failure dbg events outcome now logNow st error :
  caught outcome = Some error →
  let n := S (consecutiveFailures st) in
  let d := Z.min (5000 * 2 ^ (Z.of_nat n - 1)) MAX_BACKOFF_MS in
  let logs := bool_decide (ERROR_LOG_INTERVAL_MS ≤ logNow - lastErrorLogged st) in
  state_of (flush_settle dbg events outcome now logNow st)
  = {| eventQueue :=
         eventQueue st
         ++ take (Z.to_nat (100 - Z.of_nat (length (eventQueue st)))) events;
       flushTimer :=
         match flushTimer st with
         | None => Some (mkTimeout scheduleFlushCb d)
         | Some h => Some h
         end;
       isInitialized := isInitialized st;
       boundHandleVisibilityChange := boundHandleVisibilityChange st;
       boundFlushWithBeacon := boundFlushWithBeacon st;
       consecutiveFailures := n;
       backoffUntil := now + d;
       lastErrorLogged := if logs then logNow else lastErrorLogged st |}
  ∧ effects_of (flush_settle dbg events outcome now logNow st)
    = (if logs
       then [ConsoleWarn logNow n (Math_round_div d 1000) (message_or_self error)]
       else [])
      ++ match flushTimer st with
         | None => [SetTimeout scheduleFlushCb d]
         | Some _ => []
         end.
Proof.
  intros Hc n d logs. subst n d logs.
  unfold flush_settle. rewrite Hc. destruct st as [q t ? ? ? cf until last].
  msimpl.
  destruct (Z.ltb_spec 0 (100 - Z.of_nat (length q))) as [Hs|Hs]; simpl.
  - destruct (Z.leb_spec ERROR_LOG_INTERVAL_MS (logNow - last)) as [Hl|Hl];
      [rewrite bool_decide_eq_true_2 by done
      |rewrite bool_decide_eq_false_2 by lia];
      destruct t; simpl; done.
  - replace (Z.to_nat (100 - Z.of_nat (length q))) with 0%nat by lia.
    rewrite take_0, app_nil_r.
    destruct (Z.leb_spec ERROR_LOG_INTERVAL_MS (logNow - last)) as [Hl|Hl];
      [rewrite bool_decide_eq_true_2 by done
      |rewrite bool_decide_eq_false_2 by lia];
      destruct t; simpl; done.
Qed.

(** Everything the success path of [flush] changes in the state. *)
Lemma flush_settle_success dbg events now logNow st :
  state_of (flush_settle dbg events ResponseOk now logNow st)
  = set_backoffUntil 0 (set_consecutiveFailures 0 st)
  ∧ deliveries (effects_of (flush_settle dbg events ResponseOk now logNow st)) = []
  ∧ schedulings (effects_of (flush_settle dbg events ResponseOk now logNow st)) = []
  ∧ warn_times (effects_of (flush_settle dbg events ResponseOk now logNow st)) = [].
Proof.
  destruct st as [q t ? ? ? cf until last]. msimpl.
  destruct (bool_decide (0 < cf)%nat), dbg; done.
Qed.

(** C1 (as the code has it): after a failed request the batch of that
    request, and nothing else, is appended to the back of the current queue,
    cut to its first [100 - length queue] events: events that arrived during
    the attempt stay in front, the requeue never grows the queue beyond 100
    events, and when the batch does not fit it is its newest events that are
    left out. *)
Theorem C1_requeue_after_failure dbg events outcome now logNow st :
  caught outcome ≠ None →
  let q := eventQueue st in
  let q' := eventQueue (state_of (flush_settle dbg events outcome now logNow st)) in
  q' = q ++ take (Z.to_nat (100 - Z.of_nat (length q))) events
  ∧ (length q' ≤ length q `max` 100)%nat
  ∧ ((length q ≤ 100)%nat → (length q' ≤ 100)%nat)
  ∧ ((length q + length events ≤ 100)%nat → q' = q ++ events)
  ∧ ((100 ≤ length q)%nat → q' = q).
Proof.
  intros Hc q q'. destruct (caught outcome) as [error|] eqn:He; [|done].
  destruct (flush_settle_failure dbg events outcome now logNow st error He)
    as [Hst _].
  assert (Hq : q' = q ++ take (Z.to_nat (100 - Z.of_nat (length q))) events).
  { subst q'. by rewrite Hst. }
  split; [exact Hq|]. rewrite Hq. rewrite length_app, length_take.
  repeat split.
  - lia.
  - lia.
  - intros Hfit. by rewrite take_ge by lia.
  - intros Hfull. replace (Z.to_nat (100 - Z.of_nat (length q))) with 0%nat by lia.
    by rewrite take_0, app_nil_r.
Qed.

(** C1 on a queue of one event and a failed batch of two. *)
Lemma C1_witness :
  caught network_down ≠ None
  ∧ eventQueue (state_of (flush_settle false
        [ev "a" 1700000000000; ev "b" 1700000000100] network_down
        1700000000300 1700000000300
        (set_eventQueue [ev "c" 1700000000200] initialState)))
    = [ev "c" 1700000000200; ev "a" 1700000000000; ev "b" 1700000000100].
Proof.
  assert (Hc : caught network_down ≠ None) by discriminate.
  split; [exact Hc|].
  destruct (C1_requeue_after_failure false
              [ev "a" 1700000000000; ev "b" 1700000000100] network_down
              1700000000300 1700000000300
              (set_eventQueue [ev "c" 1700000000200] initialState) Hc)
    as (_ & _ & _ & Hfit & _).
  apply Hfit. simpl. lia.
Defined.

(** C1, refuted as stated: the failed batch lands behind the event that
    arrived during the attempt, not in front of it; the queue after a
    requeue can hold more than 100 events; and of a failed batch that does
    not fit, the oldest event is kept and the newest one dropped. *)
Lemma C1_counterexample :
  ((eventQueue ∘ inst) <$> run batch_of_one false true true
       one_arrives_during_attempt (boot batch_of_one false true)
   = Some [ev "b" 1700000000002; ev "a" 1700000000000]
   ∧ requeue_as_specified [ev "b" 1700000000002] [ev "a" 1700000000000]
     = [ev "a" 1700000000000; ev "b" 1700000000002]
   ∧ [ev "b" 1700000000002; ev "a" 1700000000000]
     ≠ [ev "a" 1700000000000; ev "b" 1700000000002])
  ∧ ((length ∘ eventQueue ∘ inst) <$> run batch_of_one false true true
       many_arrive_during_attempt (boot batch_of_one false true)
     = Some 101%nat
     ∧ ¬ (101 ≤ 100)%nat)
  ∧ ((eventQueue ∘ inst) <$> run batch_of_one false true true
       batch_does_not_fit (boot batch_of_one false true)
     = Some (replicate 99 (ev "c" 1700000000002) ++ [ev "a" 1700000000000])
     ∧ requeue_as_specified (replicate 99 (ev "c" 1700000000002))
         [ev "a" 1700000000000; ev "b" 1700000000001]
       = ev "b" 1700000000001 :: replicate 99 (ev "c" 1700000000002)
     ∧ ev "b" 1700000000001
       ∉ replicate 99 (ev "c" 1700000000002) ++ [ev "a" 1700000000000]).
Proof.
  split; [|split].
  - split; [by vm_compute|]. split; [by vm_compute|]. discriminate.
  - split; [by vm_compute|]. lia.
  - split; [by vm_compute|]. split; [by vm_compute|].
    rewrite elem_of_app, elem_of_replicate, list_elem_of_singleton.
    intros [[Heq _]|Heq]; discriminate Heq.
Qed.

(** ** The circuit breaker along a run *)

Lemma keeps_breaker_bind {A B} (m : M A) (f : A → M B) :
  keeps_breaker m → (∀ a, keeps_breaker (f a)) → keeps_breaker (m ≫= f).
Proof.
  intros Hm Hf st. specialize (Hm st). unfold mbind, M_bind.
  destruct (m st) as [[a s1] e1]. specialize (Hf a s1).
  destruct (f a s1) as [[b s2] e2].
  unfold state_of, effects_of in *. simpl in *.
  destruct Hf as (-> & -> & -> & Hw2), Hm as (-> & -> & -> & Hw1).
  unfold warn_times in *. by rewrite omap_app, Hw1, Hw2.
Qed.

Lemma keeps_breaker_scheduleFlush hw hr : keeps_breaker (scheduleFlush hw hr).
Proof. intros st. destruct st. msimpl. mcases; done. Qed.

Lemma keeps_breaker_collect cfg dbg hw hr r event :
  keeps_breaker (collect cfg dbg hw hr r event).
Proof. intros st. destruct st. msimpl. mcases; done. Qed.

Lemma void_state {A} (m : M A) st : state_of (void m st) = state_of (m st).
Proof. unfold void, state_of. by destruct (m st) as [[? ?] ?]. Qed.

Lemma void_effects {A} (m : M A) st : effects_of (void m st) = effects_of (m st).
Proof. unfold void, effects_of. by destruct (m st) as [[? ?] ?]. Qed.

(** [flush] where [JSON.stringify] does not throw: nothing of [thrown] is
    read. *)
Lemma flush_not_thrown cfg dbg now thrown st :
  flush_throws now st = false →
  flush cfg dbg now thrown st
  = if bool_decide (length (eventQueue st) = 0%nat) then (None, st, [])
    else if now <? backoffUntil st then
      match flushTimer st with
      | None =>
          (None,
           set_flushTimer (Some (mkTimeout scheduleFlushCb (backoffUntil st - now))) st,
           [SetTimeout scheduleFlushCb (backoffUntil st - now)])
      | Some _ => (None, st, [])
      end
    else
      (Some (eventQueue st), set_eventQueue [] st,
       (if dbg then [ConsoleLog (LogFlushing (length (eventQueue st)))] else [])
       ++ [Fetch (telemetryEndpoint cfg) (eventQueue st)]).
Proof.
  unfold flush_throws. destruct st as [[|e q] t ? ? ? ? until ?]; [done|].
  unfold flush, arm_flushTimer, when, gets, modify, emit, mbind, M_bind, mret, M_ret.
  simpl. destruct (now <? until); simpl; [by destruct t|].
  intros Hs. apply negb_false_iff in Hs. rewrite Hs. by destruct dbg.
Qed.

(** [flush] where [JSON.stringify] throws: the batch has left the queue and
    the [catch] block runs on it at once. *)
Lemma flush_thrown cfg dbg now thrown st :
  flush_throws now st = true →
  let c := flush_settle dbg (eventQueue st)
             (FetchRejected (JError (t_message thrown) None))
             (t_now thrown) (t_logNow thrown) (set_eventQueue [] st) in
  result_of (flush cfg dbg now thrown st) = None
  ∧ state_of (flush cfg dbg now thrown st) = state_of c
  ∧ effects_of (flush cfg dbg now thrown st)
    = (if dbg then [ConsoleLog (LogFlushing (length (eventQueue st)))] else [])
      ++ effects_of c.
Proof.
  unfold flush_throws. destruct st as [[|e q] t ? ? ? ? until ?]; [done|].
  unfold flush, flush_catch, when, gets, modify, emit, mbind, M_bind, mret, M_ret.
  simpl. intros [Hb Hs]%andb_true_iff.
  apply negb_true_iff in Hb, Hs. rewrite Hb, Hs.
  unfold result_of, state_of, effects_of.
  destruct dbg; simpl; destruct (flush_settle _ _ _ _ _ _) as [[? ?] ?]; simpl;
    by rewrite ?app_nil_r.
Qed.

(** Everything [flush] does when [JSON.stringify] throws. *)
Lemma flush_failure_at_once cfg dbg now thrown st :
  flush_throws now st = true →
  let n := S (consecutiveFailures st) in
  let d := Z.min (5000 * 2 ^ (Z.of_nat n - 1)) MAX_BACKOFF_MS in
  let logs :=
    bool_decide (ERROR_LOG_INTERVAL_MS ≤ t_logNow thrown - lastErrorLogged st) in
  result_of (flush cfg dbg now thrown st) = None
  ∧ state_of (flush cfg dbg now thrown st)
    = {| eventQueue := take 100 (eventQueue st);
         flushTimer :=
           match flushTimer st with
           | None => Some (mkTimeout scheduleFlushCb d)
           | Some h => Some h
           end;
         isInitialized := isInitialized st;
         boundHandleVisibilityChange := boundHandleVisibilityChange st;
         boundFlushWithBeacon := boundFlushWithBeacon st;
         consecutiveFailures := n;
         backoffUntil := t_now thrown + d;
         lastErrorLogged := if logs then t_logNow thrown else lastErrorLogged st |}
  ∧ effects_of (flush cfg dbg now thrown st)
    = (if dbg then [ConsoleLog (LogFlushing (length (eventQueue st)))] else [])
      ++ (if logs
          then [ConsoleWarn (t_logNow thrown) n (Math_round_div d 1000)
                  (JString (t_message thrown))]
          else [])
      ++ match flushTimer st with
         | None => [SetTimeout scheduleFlushCb d]
         | Some _ => []
         end.
Proof.
  intros Hth n d logs.
  destruct (flush_thrown cfg dbg now thrown st Hth) as (-> & -> & ->).
  destruct (flush_settle_failure dbg (eventQueue st)
              (FetchRejected (JError (t_message thrown) None))
              (t_now thrown) (t_logNow thrown) (set_eventQueue [] st)
              (JError (t_message thrown) None) eq_refl) as [-> ->].
  done.
Qed.

Lemma flush_keeps_breaker cfg dbg now thrown st :
  flush_throws now st = false →
  consecutiveFailures (state_of (flush cfg dbg now thrown st)) = consecutiveFailures st
  ∧ backoffUntil (state_of (flush cfg dbg now thrown st)) = backoffUntil st
  ∧ lastErrorLogged (state_of (flush cfg dbg now thrown st)) = lastErrorLogged st
  ∧ warn_times (effects_of (flush cfg dbg now thrown st)) = [].
Proof.
  intros H. rewrite (flush_not_thrown _ _ _ _ _ H).
  destruct st as [q [t|] ? ? ? ? until ?]; simpl;
    case_bool_decide; try done; destruct (now <? until), dbg; done.
Qed.

Lemma keeps_breaker_flushWithBeacon cfg dbg call :
  keeps_breaker (flushWithBeacon cfg dbg call).
Proof. intros st. destruct st. msimpl. mcases; done. Qed.

Lemma keeps_breaker_cleanup dbg hw : keeps_breaker (cleanup dbg hw).
Proof. intros st. destruct st. msimpl. mcases; done. Qed.

Lemma dispatch_keeps_breaker cfg dbg hw hr a w w0 m :
  dispatch cfg dbg hw hr a w = Some (w0, m) →
  is_settle a = false →
  consecutiveFailures (state_of (m (inst w))) = consecutiveFailures (inst w)
  ∧ backoffUntil (state_of (m (inst w))) = backoffUntil (inst w)
  ∧ lastErrorLogged (state_of (m (inst w))) = lastErrorLogged (inst w)
  ∧ warn_times (effects_of (m (inst w))) = [].
Proof.
  intros Hd Ha.
  destruct a; simpl in Hd, Ha; try done; mcases;
    try apply keeps_breaker_collect;
    try apply keeps_breaker_scheduleFlush;
    try apply keeps_breaker_cleanup;
    try apply keeps_breaker_flushWithBeacon.
  - apply keeps_breaker_bind; [apply keeps_breaker_collect|done].
  - rewrite void_state, void_effects. by apply flush_keeps_breaker.
  - destruct hidden; [apply keeps_breaker_flushWithBeacon|done].
  - done.
  - done.
Qed.

Lemma run_m_unfold {A} (m : M A) w :
  run_m m w
  = foldl host_effect
      (mkWorld (state_of (m (inst w))) (timers w) (deferred w) (inflight w)
         (listeners w) (output w))
      (effects_of (m (inst w))).
Proof. unfold run_m, state_of, effects_of. by destruct (m (inst w)) as [[a s] es]. Qed.

(** The counter of the instance is the number of failures in a row. *)
Lemma run_failures_in_a_row cfg dbg hw hr acts w w' :
  run cfg dbg hw hr acts w = Some w' →
  consecutiveFailures (inst w')
  = failures_in_a_row acts (consecutiveFailures (inst w)).
Proof.
  revert w. induction acts as [|a acts IH]; intros w; simpl.
  { by intros [= ->]. }
  destruct (step cfg dbg hw hr a w) as [w1|] eqn:Hs; [|done].
  intros Hr. rewrite (IH _ Hr). clear IH Hr.
  destruct (step_dispatch _ _ _ _ _ _ _ Hs) as (w0 & m & Hd & ->).
  destruct (dispatch_inst _ _ _ _ _ _ _ _ Hd) as [Hi _].
  rewrite run_m_inst, Hi.
  destruct (is_settle a) eqn:Ha.
  - destruct a; try done; simpl in Hd.
    + destruct (deferred w); [done|].
      destruct (flush_throws now (inst w)) eqn:Hth; simplify_eq. simpl.
      rewrite void_state.
      by destruct (flush_failure_at_once cfg dbg now thrown (inst w) Hth)
        as (_ & -> & _).
    + destruct (inflight w !! i) as [l|]; simplify_eq. simpl.
      destruct (caught outcome) as [error|] eqn:Hc.
      * destruct (flush_settle_failure dbg l outcome now logNow (inst w) error Hc)
          as [-> _]. done.
      * assert (outcome = ResponseOk) as -> by (by destruct outcome).
        destruct (flush_settle_success dbg l now logNow (inst w)) as [-> _]. done.
  - destruct (dispatch_keeps_breaker _ _ _ _ _ _ _ _ Hd Ha) as [-> _].
    by destruct a.
Qed.

(** One failing settlement in the world. *)
Lemma settle_failure_step cfg dbg hw hr i outcome now logNow w w' :
  caught outcome ≠ None →
  step cfg dbg hw hr (RequestSettles i outcome now logNow) w = Some w' →
  let n := S (consecutiveFailures (inst w)) in
  let d := Z.min (5000 * 2 ^ (Z.of_nat n - 1)) MAX_BACKOFF_MS in
  consecutiveFailures (inst w') = n
  ∧ backoffUntil (inst w') = now + d
  ∧ (flushTimer (inst w) = None →
       flushTimer (inst w') = Some (mkTimeout scheduleFlushCb d)
       ∧ timers w' = timers w ++ [mkTimeout scheduleFlushCb d])
  ∧ (is_Some (flushTimer (inst w)) →
       flushTimer (inst w') = flushTimer (inst w) ∧ timers w' = timers w).
Proof.
  intros Hc Hs n d.
  destruct (caught outcome) as [error|] eqn:He; [|done].
  unfold step in Hs. simpl in Hs.
  destruct (inflight w !! i) as [events|]; [|done]. simplify_eq.
  destruct (flush_settle_failure dbg events outcome now logNow (inst w) error He)
    as [Hst Hes].
  rewrite run_m_unfold. simpl. rewrite Hst, Hes. fold n d.
  rewrite !foldl_host_inst. simpl.
  split; [done|]. split; [done|]. split.
  - intros Ht. rewrite Ht. split; [done|]. by case_bool_decide.
  - intros [h Ht]. rewrite Ht. split; [done|]. by case_bool_decide.
Qed.

Lemma backoff_in_milliseconds (n : nat) :
  (1 ≤ n)%nat →
  let d := Z.min (5000 * 2 ^ (Z.of_nat n - 1)) MAX_BACKOFF_MS in
  ((n ≤ 6)%nat → d = 5000 * 2 ^ (Z.of_nat n - 1))
  ∧ ((7 ≤ n)%nat → d = 300000)
  ∧ 5000 ≤ d ≤ 300000
  ∧ Math_round_div d 1000 * 1000 = d.
Proof.
  intros Hn d.
  destruct (decide (n ≤ 6)%nat) as [Hle|Hgt].
  - assert (Hcases : n = 1%nat ∨ n = 2%nat ∨ n = 3%nat ∨ n = 4%nat
                     ∨ n = 5%nat ∨ n = 6%nat) by lia.
    subst d. repeat split; try lia;
      destruct Hcases as [->|[->|[->|[->|[->| ->]]]]]; done.
  - assert (H64 : 2 ^ 6 ≤ 2 ^ (Z.of_nat n - 1)) by (apply Z.pow_le_mono_r; lia).
    change (2 ^ 6) with 64 in H64.
    assert (Hd : d = 300000) by (subst d; unfold MAX_BACKOFF_MS; lia).
    rewrite Hd. repeat split; try lia; done.
Qed.

Lemma failures_in_a_row_no_settle acts k :
  Forall (λ a, is_settle a = false) acts → failures_in_a_row acts k = k.
Proof.
  induction 1 as [|a acts Ha _ IH]; [done|].
  destruct a; simpl; try done.
Qed.

(** C3: when a request fails and it is the [n]-th failure in a row
    ([n ≥ 1], counted since the instance was created or since the last
    success), the failure counter becomes [n], [backoffUntil] is set to the
    clock reading plus [min(5000 * 2^(n-1), 300000)] ms, and the retry timer
    (armed when none is pending) is armed with exactly that delay: 5 s,
    10 s, 20 s, 40 s, 80 s, 160 s for [n ≤ 6] and 300 s from [n = 7] on. *)
Theorem C3_backoff_delay cfg dbg hw hr (n : nat) acts w w1 i outcome now logNow w2 :
  (1 ≤ n)%nat →
  consecutiveFailures (inst w) = 0%nat →
  run cfg dbg hw hr acts w = Some w1 →
  failures_in_a_row acts 0 = (n - 1)%nat →
  caught outcome ≠ None →
  step cfg dbg hw hr (RequestSettles i outcome now logNow) w1 = Some w2 →
  let d := Z.min (5000 * 2 ^ (Z.of_nat n - 1)) 300000 in
  consecutiveFailures (inst w2) = n
  ∧ backoffUntil (inst w2) = now + d
  ∧ (flushTimer (inst w1) = None →
       flushTimer (inst w2) = Some (mkTimeout scheduleFlushCb d)
       ∧ timers w2 = timers w1 ++ [mkTimeout scheduleFlushCb d])
  ∧ ((n ≤ 6)%nat → d = 5000 * 2 ^ (Z.of_nat n - 1))
  ∧ ((7 ≤ n)%nat → d = 300000).
Proof.
  intros Hn H0 Hrun Hcount Hc Hstep d.
  pose proof (run_failures_in_a_row _ _ _ _ _ _ _ Hrun) as Hcf.
  rewrite H0, Hcount in Hcf.
  destruct (settle_failure_step _ _ _ _ _ _ _ _ _ _ Hc Hstep)
    as (Hn2 & Hb & Harm & _).
  rewrite Hcf in Hn2, Hb, Harm.
  replace (S (n - 1)) with n in Hn2, Hb, Harm by lia.
  destruct (backoff_in_milliseconds n Hn) as (Hlow & Hhigh & _).
  done.
Qed.

(** C3 at the third failure in a row: 20 seconds. *)
Lemma C3_witness :
  (1 ≤ 3)%nat
  ∧ backoffUntil (inst (world_after batch_of_one
      (two_failures_then_retry
       ++ [RequestSettles 0 network_down 1700000015150 1700000015150])))
    = 1700000015150 + 20000
  ∧ timers (world_after batch_of_one
      (two_failures_then_retry
       ++ [RequestSettles 0 network_down 1700000015150 1700000015150]))
    = [mkTimeout scheduleFlushCb 20000].
Proof.
  assert (H3 : (1 ≤ 3)%nat) by lia.
  split; [exact H3|].
  assert (Hcf : consecutiveFailures (inst (boot batch_of_one false true)) = 0%nat)
    by reflexivity.
  assert (Hrun : run batch_of_one false true true two_failures_then_retry
                   (boot batch_of_one false true)
                 = Some (world_after batch_of_one two_failures_then_retry))
    by (vm_compute; reflexivity).
  assert (Hcount : failures_in_a_row two_failures_then_retry 0 = (3 - 1)%nat)
    by reflexivity.
  assert (Hc : caught network_down ≠ None) by discriminate.
  assert (Hstep : step batch_of_one false true true
                    (RequestSettles 0 network_down 1700000015150 1700000015150)
                    (world_after batch_of_one two_failures_then_retry)
                  = Some (world_after batch_of_one
                            (two_failures_then_retry
                             ++ [RequestSettles 0 network_down
                                   1700000015150 1700000015150])))
    by (vm_compute; reflexivity).
  destruct (C3_backoff_delay batch_of_one false true true 3 _ _ _ _ _ _ _ _
              H3 Hcf Hrun Hcount Hc Hstep) as (_ & Hb & Harm & _).
  split; [exact Hb|].
  destruct Harm as [_ Ht]; [by vm_compute|].
  rewrite Ht. by vm_compute.
Defined.

(** C6: a request that settles successfully sets the failure counter and
    [backoffUntil] to 0 whatever they were, and the first failure after it
    counts as failure 1: the backoff is 5000 ms again. *)
Theorem C6_success_resets cfg dbg hw hr events now logNow st :
  consecutiveFailures (state_of (flush_settle dbg events ResponseOk now logNow st))
    = 0%nat
  ∧ backoffUntil (state_of (flush_settle dbg events ResponseOk now logNow st)) = 0
  ∧ (∀ w i w1 acts w2 j outcome now' logNow' w3,
       step cfg dbg hw hr (RequestSettles i ResponseOk now logNow) w = Some w1 →
       run cfg dbg hw hr acts w1 = Some w2 →
       Forall (λ a, is_settle a = false) acts →
       caught outcome ≠ None →
       step cfg dbg hw hr (RequestSettles j outcome now' logNow') w2 = Some w3 →
       consecutiveFailures (inst w3) = 1%nat
       ∧ backoffUntil (inst w3) = now' + 5000
       ∧ (flushTimer (inst w2) = None →
            timers w3 = timers w2 ++ [mkTimeout scheduleFlushCb 5000])).
Proof.
  destruct (flush_settle_success dbg events now logNow st) as [-> _].
  split; [done|]. split; [done|].
  intros w i w1 acts w2 j outcome now' logNow' w3 Hok Hrun Hacts Hc Hfail.
  assert (H1 : consecutiveFailures (inst w1) = 0%nat).
  { unfold step in Hok. simpl in Hok.
    destruct (inflight w !! i) as [l|]; [|done]. simplify_eq.
    rewrite run_m_inst. simpl.
    by destruct (flush_settle_success dbg l now logNow (inst w)) as [-> _]. }
  pose proof (run_failures_in_a_row _ _ _ _ _ _ _ Hrun) as Hcf.
  rewrite H1, failures_in_a_row_no_settle in Hcf by done.
  destruct (settle_failure_step _ _ _ _ _ _ _ _ _ _ Hc Hfail)
    as (Hn & Hb & Harm & _).
  rewrite Hcf in Hn, Hb, Harm.
  split; [done|]. split; [done|].
  intros Ht. by destruct (Harm Ht).
Qed.

(** C6 on a run: failure, successful retry, then a failure again. *)
Lemma C6_witness :
  consecutiveFailures (inst (world_after batch_of_one one_failure_then_retry))
    = 1%nat
  ∧ backoffUntil (inst (world_after batch_of_one
      (one_failure_then_retry
       ++ [RequestSettles 0 ResponseOk 1700000005100 1700000005100]
       ++ next_attempt
       ++ [RequestSettles 0 (ResponseNotOk 503) 1700000006050 1700000006050])))
    = 1700000006050 + 5000.
Proof.
  split; [by vm_compute|].
  destruct (C6_success_resets batch_of_one false true true []
              1700000005100 1700000005100 initialState) as (_ & _ & H).
  refine (proj1 (proj2 (H (world_after batch_of_one one_failure_then_retry) 0%nat
            (world_after batch_of_one
               (one_failure_then_retry
                ++ [RequestSettles 0 ResponseOk 1700000005100 1700000005100]))
            next_attempt
            (world_after batch_of_one
               (one_failure_then_retry
                ++ [RequestSettles 0 ResponseOk 1700000005100 1700000005100]
                ++ next_attempt))
            0%nat (ResponseNotOk 503) 1700000006050 1700000006050 _
            _ _ _ _ _))).
  - by vm_compute.
  - by vm_compute.
  - repeat constructor.
  - discriminate.
  - by vm_compute.
Defined.

(** ** Events in the queue and in flight *)

Lemma collect_fetched cfg dbg hw hr r event st :
  fetched (effects_of (collect cfg dbg hw hr r event st)) = [].
Proof. destruct st. msimpl. mcases; done. Qed.

Lemma scheduleFlush_held hw hr st :
  eventQueue (state_of (scheduleFlush hw hr st)) = eventQueue st
  ∧ fetched (effects_of (scheduleFlush hw hr st)) = [].
Proof. destruct st. msimpl. mcases; done. Qed.

Lemma cleanup_held dbg hw st :
  eventQueue (state_of (cleanup dbg hw st)) = eventQueue st
  ∧ fetched (effects_of (cleanup dbg hw st)) = [].
Proof. destruct st. msimpl. mcases; done. Qed.

Lemma flush_held cfg dbg now thrown st :
  flush_throws now st = false →
  (eventQueue (state_of (flush cfg dbg now thrown st)) = eventQueue st
   ∧ fetched (effects_of (flush cfg dbg now thrown st)) = [])
  ∨ (eventQueue (state_of (flush cfg dbg now thrown st)) = []
     ∧ fetched (effects_of (flush cfg dbg now thrown st)) = [eventQueue st]).
Proof.
  intros H. rewrite (flush_not_thrown _ _ _ _ _ H).
  destruct st as [q [t|] ? ? ? ? until ?]; simpl;
    case_bool_decide; auto; destruct (now <? until), dbg; auto.
Qed.

Lemma flush_thrown_held cfg dbg now thrown st :
  flush_throws now st = true →
  eventQueue (state_of (flush cfg dbg now thrown st)) = take 100 (eventQueue st)
  ∧ fetched (effects_of (flush cfg dbg now thrown st)) = [].
Proof.
  intros H.
  destruct (flush_failure_at_once cfg dbg now thrown st H) as (_ & -> & ->).
  split; [done|].
  by destruct dbg; case_bool_decide; destruct (flushTimer st).
Qed.

Lemma flushWithBeacon_held cfg dbg call st :
  (eventQueue (state_of (flushWithBeacon cfg dbg call st)) = eventQueue st
   ∨ eventQueue (state_of (flushWithBeacon cfg dbg call st)) = [])
  ∧ fetched (effects_of (flushWithBeacon cfg dbg call st)) = [].
Proof. destruct st. msimpl. mcases; auto. Qed.

Lemma flush_settle_held dbg events outcome now logNow st :
  (eventQueue (state_of (flush_settle dbg events outcome now logNow st))
   = eventQueue st
   ∨ eventQueue (state_of (flush_settle dbg events outcome now logNow st))
     = eventQueue st
       ++ take (Z.to_nat (100 - Z.of_nat (length (eventQueue st)))) events)
  ∧ fetched (effects_of (flush_settle dbg events outcome now logNow st)) = [].
Proof.
  destruct (caught outcome) as [error|] eqn:Hc.
  - destruct (flush_settle_failure dbg events outcome now logNow st error Hc)
      as [-> ->]. simpl. split; [by right|].
    by case_bool_decide; destruct (flushTimer st).
  - assert (outcome = ResponseOk) as -> by (by destruct outcome).
    split.
    + left. by destruct (flush_settle_success dbg events now logNow st) as [-> _].
    + destruct st. msimpl. mcases; done.
Qed.

(** What a track-* turn does to the queue and to the requests in flight. *)
Lemma track_step cfg dbg hw hr a w w' r t n :
  step cfg dbg hw hr a w = Some w' →
  track_of a = Some (r, t, n) →
  ∃ e, eventQueue (inst w') = eventQueue (inst w) ++ [e]
       ∧ type e = t ∧ name e = n
       ∧ timestamp e = r_now r ∧ sessionId e = r_session r ∧ page e = r_page r
       ∧ inflight w' = inflight w.
Proof.
  intros Hs Ht. unfold step in Hs.
  destruct a; simpl in Hs, Ht; simplify_eq;
    rewrite run_m_inst, run_m_inflight;
    unfold trackMetric, trackEvent, trackError, trackTrace, trackPageView,
      captureException, trackError, trackEvent.
  1-4, 6: rewrite collect_queue, collect_fetched, app_nil_r;
    eexists; split; [reflexivity|]; done.
  unfold mbind, M_bind, state_of, effects_of.
  match goal with
  | |- context [collect ?c ?d ?h1 ?h2 ?rr ?pe (inst w)] =>
      pose proof (collect_queue c d h1 h2 rr pe (inst w)) as Hq;
      pose proof (collect_fetched c d h1 h2 rr pe (inst w)) as Hf;
      unfold state_of, effects_of in Hq, Hf;
      destruct (collect c d h1 h2 rr pe (inst w)) as [[? s] es]
  end.
  simpl in *. rewrite Hq. unfold fetched in *. rewrite omap_app, Hf. simpl.
  rewrite app_nil_r. eexists; split; [reflexivity|]; done.
Qed.

(** What any other turn does: no event appears that was not held before. *)
Lemma other_step cfg dbg hw hr a w w' :
  step cfg dbg hw hr a w = Some w' →
  track_of a = None →
  ∀ e, e ∈ held w' → e ∈ held w.
Proof.
  intros Hs Ht e. unfold step in Hs. unfold held.
  destruct a; simpl in Hs, Ht; simplify_eq.
  - rewrite run_m_inst, run_m_inflight. unfold api_flush.
    destruct (scheduleFlush_held hw hr (inst w)) as [-> ->].
    by rewrite app_nil_r.
  - rewrite run_m_inst, run_m_inflight.
    destruct (cleanup_held dbg hw (inst w)) as [-> ->].
    by rewrite app_nil_r.
  - case_bool_decide; simplify_eq.
    rewrite run_m_inst, run_m_inflight. simpl.
    destruct (scheduleFlush_held hw hr (inst w)) as [-> ->].
    by rewrite app_nil_r.
  - destruct (deferred w); simplify_eq.
    destruct (flush_throws now (inst w)) eqn:Hth; simplify_eq.
    rewrite run_m_inst, run_m_inflight. simpl.
    rewrite void_state, void_effects.
    destruct (flush_held cfg dbg now (not_thrown now) (inst w) Hth)
      as [[-> ->]|[-> ->]].
    + by rewrite app_nil_r.
    + rewrite join_app. simpl. rewrite app_nil_r.
      rewrite !elem_of_app. tauto.
  - destruct (deferred w); simplify_eq.
    destruct (flush_throws now (inst w)) eqn:Hth; simplify_eq.
    rewrite run_m_inst, run_m_inflight. simpl.
    rewrite void_state, void_effects.
    destruct (flush_thrown_held cfg dbg now thrown (inst w) Hth) as [-> ->].
    rewrite app_nil_r, !elem_of_app.
    intros [Hx|?]; [|auto]. left. by eapply subseteq_take.
  - destruct (inflight w !! i) as [l|] eqn:Hl; simplify_eq.
    rewrite run_m_inst, run_m_inflight. simpl.
    destruct (flush_settle_held dbg l outcome now logNow (inst w)) as [Hq ->].
    rewrite app_nil_r.
    assert (Hl_in : ∀ x, x ∈ l → x ∈ mjoin (inflight w)).
    { intros x Hx. apply list_elem_of_join. exists l. split; [done|].
      by eapply list_elem_of_lookup_2. }
    assert (Hdel : ∀ x, x ∈ mjoin (delete i (inflight w)) → x ∈ mjoin (inflight w)).
    { intros x Hx. apply list_elem_of_join in Hx as (l' & Hx & Hl').
      apply list_elem_of_join. exists l'. split; [done|].
      eapply elem_of_sublist; [done|apply sublist_delete]. }
    destruct Hq as [-> | ->]; rewrite !elem_of_app.
    + intros [?|?]; auto.
    + intros [[?|Hx]|?]; auto.
      right. apply Hl_in. by eapply subseteq_take.
  - case_bool_decide; simplify_eq; [|done].
    rewrite run_m_inst, run_m_inflight.
    destruct hidden; simpl; [|by rewrite app_nil_r].
    destruct (flushWithBeacon_held cfg dbg call (inst w)) as [[-> | ->] ->];
      rewrite app_nil_r, ?elem_of_app; [done|].
    intros [Hx|?]; [|auto]. by apply elem_of_nil in Hx.
  - case_bool_decide; simplify_eq; [|done].
    rewrite run_m_inst, run_m_inflight.
    destruct (flushWithBeacon_held cfg dbg call (inst w)) as [[-> | ->] ->];
      rewrite app_nil_r, ?elem_of_app; [done|].
    intros [Hx|?]; [|auto]. by apply elem_of_nil in Hx.
Qed.

(** C9: a track-* call appends exactly one event, which enters the queue
    with its type and name as given and with [timestamp], [sessionId] and
    [page] set to what the clock and the two providers return during the
    call; and no turn of the event loop changes an event: whatever is in the
    queue or in flight after a turn that creates no event was there, as the
    same value, before it. *)
Theorem C9_events_stamped_and_kept cfg dbg hw hr a w w' :
  step cfg dbg hw hr a w = Some w' →
  (∀ r t n, track_of a = Some (r, t, n) →
     ∃ e, eventQueue (inst w') = eventQueue (inst w) ++ [e]
          ∧ type e = t ∧ name e = n
          ∧ timestamp e = r_now r ∧ sessionId e = r_session r ∧ page e = r_page r
          ∧ inflight w' = inflight w)
  ∧ (track_of a = None → ∀ e, e ∈ held w' → e ∈ held w).
Proof.
  intros Hs. split.
  - intros r t n Ht. by eapply track_step.
  - intros Ht. by eapply other_step.
Qed.

(** C9 on the first metric of a fresh instance. *)
Lemma C9_witness :
  ∃ e, eventQueue (inst (world_after DEFAULT_CONFIG
         [CallTrackMetric (at_time 1700000000000) "LCP" 100 (Some Good) None]))
       = [e]
       ∧ type e = Metric ∧ name e = "LCP" ∧ timestamp e = 1700000000000
       ∧ sessionId e = "1700000000000-abc123xyz" ∧ page e = "/home".
Proof.
  assert (Hs : step DEFAULT_CONFIG false true true
                 (CallTrackMetric (at_time 1700000000000) "LCP" 100 (Some Good) None)
                 (boot DEFAULT_CONFIG false true)
               = Some (world_after DEFAULT_CONFIG
                   [CallTrackMetric (at_time 1700000000000) "LCP" 100 (Some Good) None]))
    by (vm_compute; reflexivity).
  destruct (C9_events_stamped_and_kept _ _ _ _ _ _ _ Hs) as [Htrack _].
  destruct (Htrack (at_time 1700000000000) Metric "LCP" eq_refl)
    as (e & Hq & Ht & Hn & Hts & Hsid & Hp & _).
  exists e. repeat split; try assumption.
Defined.

(** ** Failure warnings *)

Lemma spaced_lower_bound b ts :
  spaced b ts → Forall (λ t, b + ERROR_LOG_INTERVAL_MS ≤ t) ts.
Proof.
  revert b. induction ts as [|t ts IH]; intros b; simpl; [done|].
  intros [Hb Hs]. constructor; [done|].
  eapply Forall_impl; [by apply IH|].
  intros x Hx. simpl in Hx. unfold ERROR_LOG_INTERVAL_MS in *. lia.
Qed.

Lemma spaced_in_minute b ts T :
  spaced b ts → (length (filter (in_minute T) ts) ≤ 1)%nat.
Proof.
  revert b. induction ts as [|t ts IH]; intros b; simpl; [lia|].
  intros [Hb Hs]. rewrite filter_cons.
  destruct (decide (in_minute T t)) as [Hin|Hout]; [|by eapply IH].
  assert (Hnone : filter (in_minute T) ts = []).
  { assert (Hall : Forall (λ x, ¬ in_minute T x) ts); cycle 1.
    { clear -Hall. induction Hall as [|x l Hx _ IH]; [done|].
      by rewrite filter_cons_False. }
    eapply Forall_impl; [by apply spaced_lower_bound|].
    intros x Hx. simpl in Hx.
    unfold in_minute, ERROR_LOG_INTERVAL_MS in *.
    apply andb_prop_elim in Hin as [H1 H2].
    apply Is_true_true, Z.leb_le in H1. apply Is_true_true, Z.ltb_lt in H2.
    intros Hx2. apply andb_prop_elim in Hx2 as [H3 H4].
    apply Is_true_true, Z.ltb_lt in H4. lia. }
  rewrite Hnone. simpl. lia.
Qed.

(** What one turn prints: no warning, or one warning at least a minute
    after the last one logged. *)
Lemma dispatch_warns cfg dbg hw hr a w w0 m :
  dispatch cfg dbg hw hr a w = Some (w0, m) →
  (warn_times (effects_of (m (inst w))) = []
   ∧ lastErrorLogged (state_of (m (inst w))) = lastErrorLogged (inst w))
  ∨ (∃ t, warn_times (effects_of (m (inst w))) = [t]
          ∧ lastErrorLogged (inst w) + ERROR_LOG_INTERVAL_MS ≤ t
          ∧ lastErrorLogged (state_of (m (inst w))) = t).
Proof.
  intros Hd. destruct (is_settle a) eqn:Ha.
  - destruct a; try done; simpl in Hd.
    + destruct (deferred w); [done|].
      destruct (flush_throws now (inst w)) eqn:Hth; simplify_eq.
      rewrite void_state, void_effects.
      destruct (flush_failure_at_once cfg dbg now thrown (inst w) Hth)
        as (_ & -> & ->). simpl.
      case_bool_decide; [right|left].
      * exists (t_logNow thrown).
        split; [by destruct dbg, (flushTimer (inst w))|]. split; [lia|done].
      * split; [by destruct dbg, (flushTimer (inst w))|done].
    + destruct (inflight w !! i) as [l|]; simplify_eq.
      destruct (caught outcome) as [error|] eqn:Hc.
      * destruct (flush_settle_failure dbg l outcome now logNow (inst w) error Hc)
          as [-> ->]. simpl.
        case_bool_decide; [right|left].
        -- exists logNow. split; [by destruct (flushTimer (inst w))|].
           split; [lia|done].
        -- split; [by destruct (flushTimer (inst w))|done].
      * assert (outcome = ResponseOk) as -> by (by destruct outcome).
        destruct (flush_settle_success dbg l now logNow (inst w))
          as (-> & _ & _ & ->).
        by left.
  - left. destruct (dispatch_keeps_breaker _ _ _ _ _ _ _ _ Hd Ha)
      as (_ & _ & ? & ?). done.
Qed.

Lemma no_warning_in es t n s detail :
  warn_times es = [] → ConsoleWarn t n s detail ∉ es.
Proof.
  intros Hw Hin.
  induction es as [|e es IH]; [by apply elem_of_nil in Hin|].
  apply elem_of_cons in Hin as [<-|Hin]; [done|].
  unfold warn_times in *. simpl in Hw. destruct e; try done; by apply IH.
Qed.

(** What one turn prints, up close: a warning names an attempt [n ≥ 1] and
    the delay of that attempt in seconds. *)
Lemma dispatch_warning_text cfg dbg hw hr a w w0 m t n s detail :
  dispatch cfg dbg hw hr a w = Some (w0, m) →
  ConsoleWarn t n s detail ∈ effects_of (m (inst w)) →
  n = S (consecutiveFailures (inst w))
  ∧ s * 1000 = Z.min (5000 * 2 ^ (Z.of_nat n - 1)) MAX_BACKOFF_MS.
Proof.
  intros Hd Hin. destruct (is_settle a) eqn:Ha.
  - destruct a; try done; simpl in Hd.
    + destruct (deferred w); [done|].
      destruct (flush_throws now (inst w)) eqn:Hth; simplify_eq.
      rewrite void_effects in Hin.
      destruct (flush_failure_at_once cfg dbg now thrown (inst w) Hth)
        as (_ & _ & Hes). rewrite Hes in Hin.
      apply elem_of_app in Hin as [Hin|Hin].
      { destruct dbg; [by apply list_elem_of_singleton in Hin
                      |by apply elem_of_nil in Hin]. }
      apply elem_of_app in Hin as [Hin|Hin].
      * case_bool_decide; [|by apply elem_of_nil in Hin].
        apply list_elem_of_singleton in Hin. simplify_eq.
        split; [done|].
        by destruct (backoff_in_milliseconds (S (consecutiveFailures (inst w))))
          as (_ & _ & _ & ?); [lia|].
      * destruct (flushTimer (inst w)); [by apply elem_of_nil in Hin|].
        by apply list_elem_of_singleton in Hin.
    + destruct (inflight w !! i) as [l|]; simplify_eq.
      destruct (caught outcome) as [error|] eqn:Hc.
      * destruct (flush_settle_failure dbg l outcome now logNow (inst w) error Hc)
          as [_ Hes]. rewrite Hes in Hin.
        apply elem_of_app in Hin as [Hin|Hin].
        -- case_bool_decide; [|by apply elem_of_nil in Hin].
           apply list_elem_of_singleton in Hin. simplify_eq.
           split; [done|].
           by destruct (backoff_in_milliseconds (S (consecutiveFailures (inst w))))
             as (_ & _ & _ & ?); [lia|].
        -- destruct (flushTimer (inst w)); [by apply elem_of_nil in Hin|].
           by apply list_elem_of_singleton in Hin.
      * assert (outcome = ResponseOk) as -> by (by destruct outcome).
        destruct (flush_settle_success dbg l now logNow (inst w))
          as (_ & _ & _ & Hw).
        by destruct (no_warning_in _ t n s detail Hw).
  - destruct (dispatch_keeps_breaker _ _ _ _ _ _ _ _ Hd Ha) as (_ & _ & _ & Hw).
    by destruct (no_warning_in _ t n s detail Hw).
Qed.

Lemma warn_times_app es1 es2 :
  warn_times (es1 ++ es2) = warn_times es1 ++ warn_times es2.
Proof. apply omap_app. Qed.

Lemma run_warnings cfg dbg hw hr acts w w' :
  run cfg dbg hw hr acts w = Some w' →
  ∃ es, output w' = output w ++ es
    ∧ spaced (lastErrorLogged (inst w)) (warn_times es)
    ∧ (∀ t n s detail, ConsoleWarn t n s detail ∈ es →
         (1 ≤ n)%nat
         ∧ s * 1000 = Z.min (5000 * 2 ^ (Z.of_nat n - 1)) MAX_BACKOFF_MS).
Proof.
  revert w. induction acts as [|a acts IH]; intros w; simpl.
  { intros [= ->]. exists []. rewrite app_nil_r.
    split; [done|]. split; [done|].
    intros t n s detail Hin. by apply elem_of_nil in Hin. }
  destruct (step cfg dbg hw hr a w) as [w1|] eqn:Hs; [|done].
  intros Hr. destruct (IH _ Hr) as (es2 & Hout & Hsp & Htxt). clear IH Hr.
  destruct (step_dispatch _ _ _ _ _ _ _ Hs) as (w0 & m & Hd & ->).
  destruct (dispatch_inst _ _ _ _ _ _ _ _ Hd) as [Hi Ho].
  rewrite run_m_output, Hi, Ho in Hout. rewrite run_m_inst, Hi in Hsp.
  exists (effects_of (m (inst w)) ++ es2).
  split; [by rewrite Hout, app_assoc|]. split.
  - rewrite warn_times_app.
    destruct (dispatch_warns _ _ _ _ _ _ _ _ Hd)
      as [[-> <-]|(t & -> & Hle & <-)]; simpl; [done|].
    split; [done|]. done.
  - intros t n s detail [Hin|Hin]%elem_of_app; [|by eapply Htxt].
    destruct (dispatch_warning_text _ _ _ _ _ _ _ _ _ _ _ _ Hd Hin) as [-> ?].
    split; [lia|done].
Qed.

(** C7: along any run, each failure warning is printed at least 60 s (by
    the clock readings of the [catch] block) after the previous one, so at
    most one falls in any minute, however many requests fail in it; and a
    warning names the attempt (the number of failures in a row, the current
    one included) and the retry delay of that attempt in seconds. *)
Theorem C7_warning_rate cfg dbg hw hr acts w w' :
  run cfg dbg hw hr acts w = Some w' →
  ∃ es, output w' = output w ++ es
    ∧ spaced (lastErrorLogged (inst w)) (warn_times es)
    ∧ (∀ T, (length (filter (in_minute T) (warn_times es)) ≤ 1)%nat)
    ∧ (∀ t n s detail, ConsoleWarn t n s detail ∈ es →
         (1 ≤ n)%nat ∧ s * 1000 = Z.min (5000 * 2 ^ (Z.of_nat n - 1)) 300000)
    ∧ (∀ events outcome now logNow st t n s detail,
         ConsoleWarn t n s detail
           ∈ effects_of (flush_settle dbg events outcome now logNow st) →
         t = logNow ∧ n = S (consecutiveFailures st)
         ∧ s * 1000 = Z.min (5000 * 2 ^ (Z.of_nat n - 1)) 300000
         ∧ ERROR_LOG_INTERVAL_MS ≤ logNow - lastErrorLogged st).
Proof.
  intros Hrun. destruct (run_warnings _ _ _ _ _ _ _ Hrun) as (es & Hout & Hsp & Htxt).
  exists es. split; [done|]. split; [done|].
  split; [intros T; by eapply spaced_in_minute|]. split; [done|].
  intros events outcome now logNow st t n s detail Hin.
  destruct (caught outcome) as [error|] eqn:Hc.
  - destruct (flush_settle_failure dbg events outcome now logNow st error Hc)
      as [_ Hes]. rewrite Hes in Hin.
    apply elem_of_app in Hin as [Hin|Hin].
    + case_bool_decide; [|by apply elem_of_nil in Hin].
      apply list_elem_of_singleton in Hin. simplify_eq.
      split; [done|]. split; [done|]. split; [|done].
      by destruct (backoff_in_milliseconds (S (consecutiveFailures st)))
        as (_ & _ & _ & ?); [lia|].
    + destruct (flushTimer st); [by apply elem_of_nil in Hin|].
      by apply list_elem_of_singleton in Hin.
  - assert (outcome = ResponseOk) as -> by (by destruct outcome).
    destruct (flush_settle_success dbg events now logNow st) as (_ & _ & _ & Hw).
    exfalso. revert Hin Hw.
    generalize (effects_of (flush_settle dbg events ResponseOk now logNow st)).
    intros l Hin Hw. induction l as [|e l IH]; [by apply elem_of_nil in Hin|].
    apply elem_of_cons in Hin as [<-|Hin]; [done|].
    unfold warn_times in *. simpl in Hw. destruct e; try done; by apply IH.
Qed.

(** C7 on three failures within 16 seconds: one warning. *)
Lemma C7_witness :
  warn_times (output (world_after batch_of_one
     (two_failures_then_retry
      ++ [RequestSettles 0 network_down 1700000015150 1700000015150])))
  = [1700000000050]
  ∧ ∃ es, output (world_after batch_of_one
            (two_failures_then_retry
             ++ [RequestSettles 0 network_down 1700000015150 1700000015150]))
          = output (boot batch_of_one false true) ++ es
          ∧ (∀ T, (length (filter (in_minute T) (warn_times es)) ≤ 1)%nat).
Proof.
  split; [by vm_compute|].
  assert (Hrun : run batch_of_one false true true
                   (two_failures_then_retry
                    ++ [RequestSettles 0 network_down 1700000015150 1700000015150])
                   (boot batch_of_one false true)
                 = Some (world_after batch_of_one
                     (two_failures_then_retry
                      ++ [RequestSettles 0 network_down
                            1700000015150 1700000015150])))
    by (vm_compute; reflexivity).
  destruct (C7_warning_rate _ _ _ _ _ _ _ Hrun) as (es & Hout & _ & Hmin & _).
  exists es. split; [exact Hout | exact Hmin].
Defined.

(** * Further properties of the engine *)

(** ** The pending timer *)

Lemma foldl_host_timers es w :
  timers (foldl host_effect w es) = foldl timer_effect (timers w) es.
Proof.
  revert w. induction es as [|e es IH]; intros w; [done|].
  simpl. rewrite IH. by destruct e as [[] ?| | | | | | | | | |].
Qed.

Lemma foldl_host_deferred es w :
  deferred (foldl host_effect w es) = (deferred w + deferrals es)%nat.
Proof.
  revert w. induction es as [|e es IH]; intros w.
  { unfold deferrals. simpl. lia. }
  simpl. rewrite IH. unfold deferrals. rewrite filter_cons.
  destruct e as [[] ?| | | | | | | | | |]; simpl; lia.
Qed.

Lemma run_m_timers {A} (m : M A) w :
  timers (run_m m w) = foldl timer_effect (timers w) (effects_of (m (inst w))).
Proof. by rewrite run_m_unfold, foldl_host_timers. Qed.

Lemma run_m_deferred {A} (m : M A) w :
  deferred (run_m m w) = (deferred w + deferrals (effects_of (m (inst w))))%nat.
Proof. by rewrite run_m_unfold, foldl_host_deferred. Qed.

Lemma tracks_timer_bind {A B} (m : M A) (f : A → M B) :
  tracks_timer m → (∀ a, tracks_timer (f a)) → tracks_timer (m ≫= f).
Proof.
  intros Hm Hf st. specialize (Hm st). unfold mbind, M_bind.
  destruct (m st) as [[a s1] e1]. specialize (Hf a s1).
  destruct (f a s1) as [[b s2] e2].
  unfold state_of, effects_of in *. simpl in *.
  by rewrite foldl_app, Hm, Hf.
Qed.

Lemma tracks_timer_scheduleFlush hw hr : tracks_timer (scheduleFlush hw hr).
Proof. intros st. destruct st as [? [?|] ? ? ? ? ? ?]; mfinish. Qed.

Lemma tracks_timer_collect cfg dbg hw hr r event :
  tracks_timer (collect cfg dbg hw hr r event).
Proof. intros st. destruct dbg, st as [? [?|] ? ? ? ? ? ?]; mfinish. Qed.

Lemma tracks_timer_flush cfg dbg now thrown :
  tracks_timer (flush cfg dbg now thrown).
Proof.
  intros st. destruct (flush_throws now st) eqn:Hth.
  - destruct (flush_failure_at_once cfg dbg now thrown st Hth) as (_ & -> & ->).
    unfold pending_timer. simpl. rewrite !foldl_app.
    by destruct dbg; case_bool_decide; destruct (flushTimer st).
  - rewrite (flush_not_thrown _ _ _ _ _ Hth).
    destruct dbg, st as [? [?|] ? ? ? ? until ?]; simpl;
      case_bool_decide; try done; destruct (now <? until); done.
Qed.

Lemma tracks_timer_flushWithBeacon cfg dbg call :
  tracks_timer (flushWithBeacon cfg dbg call).
Proof. intros st. destruct dbg, st as [? [?|] ? ? ? ? ? ?]; mfinish. Qed.

Lemma tracks_timer_cleanup dbg hw : tracks_timer (cleanup dbg hw).
Proof. intros st. destruct dbg, st as [? [?|] ? ? ? ? ? ?]; mfinish. Qed.

Lemma tracks_timer_flush_settle dbg events outcome now logNow :
  tracks_timer (flush_settle dbg events outcome now logNow).
Proof.
  intros st. destruct (caught outcome) as [error|] eqn:Hc.
  - destruct (flush_settle_failure dbg events outcome now logNow st error Hc)
      as [-> ->].
    unfold pending_timer. simpl. rewrite foldl_app.
    by case_bool_decide; destruct (flushTimer st).
  - assert (outcome = ResponseOk) as -> by (by destruct outcome).
    destruct dbg, st as [? [?|] ? ? ? ? ? ?]; mfinish.
Qed.

Lemma dispatch_tracks_timer cfg dbg hw hr a w w0 m :
  dispatch cfg dbg hw hr a w = Some (w0, m) → tracks_timer m.
Proof.
  intros Hd.
  destruct a; simpl in Hd; mcases;
    try apply tracks_timer_collect;
    try apply tracks_timer_scheduleFlush;
    try apply tracks_timer_cleanup;
    try apply tracks_timer_flushWithBeacon;
    try apply tracks_timer_flush_settle;
    try done.
  - apply tracks_timer_bind; [apply tracks_timer_collect|done].
  - intros st. rewrite void_state, void_effects. apply tracks_timer_flush.
  - intros st. rewrite void_state, void_effects. apply tracks_timer_flush.
  - destruct hidden; [apply tracks_timer_flushWithBeacon|done].
Qed.

Lemma scheduleFlush_timers hw hr st ts :
  foldl timer_effect ts (effects_of (scheduleFlush hw hr st))
  = match flushTimer st with Some h => clear_timer h ts | None => ts end
  ∧ flushTimer (state_of (scheduleFlush hw hr st)) = None.
Proof. destruct st as [? [?|] ? ? ? ? ? ?]; mfinish. Qed.

Lemma boot_timers cfg dbg hw :
  timers (boot cfg dbg hw) = [] ∧ flushTimer (inst (boot cfg dbg hw)) = None
  ∧ deferred (boot cfg dbg hw) = 0%nat ∧ eventQueue (inst (boot cfg dbg hw)) = []
  ∧ inflight (boot cfg dbg hw) = []
  ∧ consecutiveFailures (inst (boot cfg dbg hw)) = 0%nat
  ∧ backoffUntil (inst (boot cfg dbg hw)) = 0.
Proof.
  unfold boot, run_m. msimpl. by destruct hw, (useBeacon cfg), dbg.
Qed.

Lemma step_timer_invariant cfg dbg hw hr a w w' :
  timers w = pending_timer (inst w) →
  step cfg dbg hw hr a w = Some w' →
  timers w' = pending_timer (inst w').
Proof.
  intros Hinv Hs.
  destruct (step_dispatch _ _ _ _ _ _ _ Hs) as (w0 & m & Hd & ->).
  destruct (dispatch_inst _ _ _ _ _ _ _ _ Hd) as [Hi _].
  rewrite run_m_timers, run_m_inst, Hi.
  destruct (decide (timers w0 = timers w)) as [Ht|Ht].
  - rewrite Ht, Hinv. by eapply dispatch_tracks_timer.
  - destruct a; simpl in Hd; mcases; try done. simpl in *.
    destruct (scheduleFlush_timers hw hr (inst w) (clear_timer h (timers w)))
      as [-> Hnone].
    unfold pending_timer in *. rewrite Hnone.
    destruct (flushTimer (inst w)) as [h'|]; rewrite Hinv; simpl.
    + rewrite Hinv in H. apply bool_decide_eq_true_1, list_elem_of_singleton in H.
      subst. by rewrite !decide_True.
    + done.
Qed.

(** At most one [scheduleFlush] timer is ever pending, and it is the one
    whose handle the instance holds in [flushTimer]: no timer is lost or
    armed twice, along any run of a fresh instance. *)
Theorem one_pending_timer cfg dbg hw hr acts w' :
  run cfg dbg hw hr acts (boot cfg dbg hw) = Some w' →
  timers w' = pending_timer (inst w')
  ∧ (length (timers w') ≤ 1)%nat
  ∧ (flushTimer (inst w') = None ↔ timers w' = []).
Proof.
  intros Hrun.
  assert (Hinv : timers w' = pending_timer (inst w')).
  { assert (H0 : timers (boot cfg dbg hw) = pending_timer (inst (boot cfg dbg hw))).
    { destruct (boot_timers cfg dbg hw) as (-> & Hf & _).
      unfold pending_timer. by rewrite Hf. }
    revert Hrun H0. generalize (boot cfg dbg hw). intros w.
    revert w. induction acts as [|a acts IH]; intros w; simpl.
    - by intros [= ->].
    - destruct (step cfg dbg hw hr a w) as [w1|] eqn:Hs; [|done].
      intros Hr Hw. eapply IH; [done|]. by eapply step_timer_invariant. }
  split; [done|]. rewrite Hinv. unfold pending_timer.
  destruct (flushTimer (inst w')); simpl; split; try lia; by split.
Qed.

(** After a failure and the start of the retry, no timer is pending. *)
Lemma one_pending_timer_witness :
  timers (world_after batch_of_one one_failure_then_retry)
  = pending_timer (inst (world_after batch_of_one one_failure_then_retry))
  ∧ (length (timers (world_after batch_of_one one_failure_then_retry)) ≤ 1)%nat.
Proof.
  assert (Hrun : run batch_of_one false true true one_failure_then_retry
                   (boot batch_of_one false true)
                 = Some (world_after batch_of_one one_failure_then_retry))
    by (by vm_compute).
  destruct (one_pending_timer batch_of_one false true true
              one_failure_then_retry _ Hrun) as (H1 & H2 & _).
  split; [exact H1 | exact H2].
Defined.

(** ** No event is left waiting without a wake-up *)

Lemma serves_bind_l {A B} (m : M A) (f : A → M B) :
  (∀ a, idles (f a)) → serves m → serves (m ≫= f).
Proof.
  intros Hf Hm st. specialize (Hm st). unfold mbind, M_bind.
  destruct (m st) as [[a s1] e1]. destruct (Hf a s1) as (Ht & _ & Hq).
  destruct (f a s1) as [[b s2] e2].
  unfold state_of, effects_of, deferrals in *. simpl in *.
  rewrite Ht, filter_app, length_app.
  destruct Hm as [Hm|[Hm|Hm]]; [|by right; left|right; right; lia].
  left. destruct Hq as [->| ->]; done.
Qed.

Lemma serves_scheduleFlush hw hr : serves (scheduleFlush hw hr).
Proof.
  intros st. destruct st as [[|? ?] [?|] ? ? ? ? ? ?], (hw && hr) eqn:?; mfinish;
    rewrite ?Heqb; simpl; auto with lia.
Qed.

Lemma serves_collect cfg dbg hw hr r event : serves (collect cfg dbg hw hr r event).
Proof.
  intros st.
  destruct dbg, st as [q [?|] ? ? ? ? ? ?], (hw && hr) eqn:Hh; msimpl;
    destruct (batchSize cfg <=? Z.of_nat (length (q ++ [stamp event r]))); simpl;
    rewrite ?bool_decide_eq_false_2 by (rewrite length_app; simpl; lia);
    rewrite ?Hh; unfold deferrals; simpl; eauto with lia.
Qed.

Lemma serves_flush cfg dbg now thrown : serves (flush cfg dbg now thrown).
Proof.
  intros st. destruct (flush_throws now st) eqn:Hth.
  - destruct (flush_failure_at_once cfg dbg now thrown st Hth) as (_ & -> & _).
    simpl. right; left. by destruct (flushTimer st).
  - rewrite (flush_not_thrown _ _ _ _ _ Hth).
    destruct dbg, st as [[|? ?] [?|] ? ? ? ? until ?]; simpl;
      try (by left); destruct (now <? until); simpl; eauto.
Qed.

Lemma serves_flush_settle_failure dbg events outcome now logNow :
  caught outcome ≠ None → serves (flush_settle dbg events outcome now logNow).
Proof.
  intros Hc st. destruct (caught outcome) as [error|] eqn:He; [|done].
  destruct (flush_settle_failure dbg events outcome now logNow st error He)
    as [-> _]. simpl. right; left. by destruct (flushTimer st).
Qed.

Lemma idles_ret : idles (mret () : M unit).
Proof. by intros st; auto. Qed.

Lemma idles_emit_error error : idles (emit (ConsoleError error)).
Proof. by intros st; auto. Qed.

Lemma idles_flushWithBeacon cfg dbg call :
  idles (flushWithBeacon cfg dbg call).
Proof.
  intros st. destruct dbg, st as [[|? ?] [?|] ? ? ? ? ? ?]; mfinish; auto.
Qed.

Lemma idles_flush_settle_success dbg events now logNow :
  idles (flush_settle dbg events ResponseOk now logNow).
Proof.
  intros st. destruct dbg, st as [? [?|] ? ? ? [|?] ? ?]; mfinish; auto.
Qed.

(** What a turn other than [cleanup()] runs either serves the queue or
    idles; in the second case it took nothing off the host's lists. *)
Lemma dispatch_serves cfg dbg hw hr a w w0 m :
  dispatch cfg dbg hw hr a w = Some (w0, m) →
  is_cleanup a = false →
  serves m ∨ (idles m ∧ timers w0 = timers w ∧ deferred w0 = deferred w).
Proof.
  intros Hd Ha.
  destruct a; simpl in Hd, Ha; try done; mcases;
    try (left; apply serves_collect);
    try (left; apply serves_scheduleFlush).
  - left. apply serves_bind_l; [intros; apply idles_emit_error|apply serves_collect].
  - left. intros st. rewrite void_state, void_effects. apply serves_flush.
  - left. intros st. rewrite void_state, void_effects. apply serves_flush.
  - destruct (caught outcome) as [error|] eqn:Hc.
    + left. apply serves_flush_settle_failure. by rewrite Hc.
    + right. assert (outcome = ResponseOk) as -> by (by destruct outcome).
      split; [apply idles_flush_settle_success|done].
  - right. split; [|done].
    destruct hidden; [apply idles_flushWithBeacon|apply idles_ret].
  - right. split; [apply idles_ret|done].
  - right. split; [apply idles_flushWithBeacon|done].
  - right. split; [apply idles_ret|done].
Qed.

Lemma step_served cfg dbg hw hr a w w' :
  is_cleanup a = false →
  timers w = pending_timer (inst w) →
  served w →
  step cfg dbg hw hr a w = Some w' →
  served w'.
Proof.
  intros Ha Hinv Hsv Hs.
  pose proof (step_timer_invariant _ _ _ _ _ _ _ Hinv Hs) as Hinv'.
  destruct (step_dispatch _ _ _ _ _ _ _ Hs) as (w0 & m & Hd & ->).
  destruct (dispatch_inst _ _ _ _ _ _ _ _ Hd) as [Hi _].
  unfold served. rewrite Hinv', run_m_deferred, run_m_inst, Hi.
  destruct (dispatch_serves _ _ _ _ _ _ _ _ Hd Ha) as [Hm|(Hm & Ht & Hdf)].
  - destruct (Hm (inst w)) as [?|[[h Hh]|?]]; [by left| |right; right; lia].
    right; left. unfold pending_timer. by rewrite Hh.
  - destruct (Hm (inst w)) as (Hft & _ & Hq). rewrite Hdf.
    unfold pending_timer. rewrite Hft.
    destruct Hq as [Hq|Hq]; [|by left]. rewrite Hq.
    destruct Hsv as [?|[Hsv|?]]; [by left| |right; right; lia].
    right; left. by rewrite Hinv in Hsv.
Qed.

(** Along any run of a fresh instance in which [cleanup()] is not called,
    whenever the queue holds an event the host has something pending that
    will look at the queue: the [scheduleFlush] timer or a deferred run of
    [flush].  No tracked event is left waiting with nothing to wake the
    engine up. *)
Theorem queue_always_served cfg dbg hw hr acts w' :
  Forall (λ a, is_cleanup a = false) acts →
  run cfg dbg hw hr acts (boot cfg dbg hw) = Some w' →
  eventQueue (inst w') ≠ [] →
  timers w' ≠ [] ∨ (0 < deferred w')%nat.
Proof.
  intros Hacts Hrun Hq.
  assert (Hsv : timers w' = pending_timer (inst w') ∧ served w').
  { assert (H0 : timers (boot cfg dbg hw) = pending_timer (inst (boot cfg dbg hw))
                 ∧ served (boot cfg dbg hw)).
    { destruct (boot_timers cfg dbg hw) as (Ht & Hf & _ & Hq0 & _).
      split; [|by left]. unfold pending_timer. by rewrite Ht, Hf. }
    revert Hrun H0. generalize (boot cfg dbg hw). intros w.
    revert w. induction Hacts as [|a acts Ha _ IH]; intros w; simpl.
    - by intros [= ->].
    - destruct (step cfg dbg hw hr a w) as [w1|] eqn:Hs; [|done].
      intros Hr [Hw1 Hw2]. eapply IH; [done|]. split.
      + by eapply step_timer_invariant.
      + by eapply step_served. }
  destruct Hsv as [_ [?|?]]; done.
Qed.

(** With a failed request requeued, the retry timer is pending. *)
Lemma queue_always_served_witness :
  timers (world_after batch_of_one (take 3 one_failure_then_retry)) ≠ []
  ∨ (0 < deferred (world_after batch_of_one (take 3 one_failure_then_retry)))%nat.
Proof.
  assert (Hrun : run batch_of_one false true true (take 3 one_failure_then_retry)
                   (boot batch_of_one false true)
                 = Some (world_after batch_of_one (take 3 one_failure_then_retry)))
    by (by vm_compute).
  assert (Hacts : Forall (λ a, is_cleanup a = false) (take 3 one_failure_then_retry))
    by (repeat constructor).
  apply (queue_always_served batch_of_one false true true
           (take 3 one_failure_then_retry) _ Hacts Hrun).
  by vm_compute.
Defined.

(** ** Where events go *)

Lemma inflight_split (l : list TelemetryEvent) i (fl : list (list TelemetryEvent)) :
  fl !! i = Some l → mjoin fl ≡ₚ l ++ mjoin (delete i fl).
Proof.
  revert i. induction fl as [|x fl IH]; intros [|i] Hl; simpl in *;
    simplify_eq.
  - reflexivity.
  - rewrite (IH i Hl). rewrite !app_assoc. f_equiv. apply Permutation_app_comm.
Qed.

Lemma requeue_when_it_fits dbg events outcome now logNow st :
  caught outcome ≠ None →
  eventQueue (state_of (flush_settle dbg events outcome now logNow st))
  = eventQueue st
    ++ take (Z.to_nat (100 - Z.of_nat (length (eventQueue st)))) events
  ∧ ((length (eventQueue st) + length events ≤ 100)%nat →
     eventQueue (state_of (flush_settle dbg events outcome now logNow st))
     = eventQueue st ++ events).
Proof.
  intros Hc. destruct (caught outcome) as [error|] eqn:He; [|done].
  destruct (flush_settle_failure dbg events outcome now logNow st error He)
    as [-> _]. simpl. split; [done|].
  intros Hfit. by rewrite take_ge by lia.
Qed.

(** Events leave the engine only through a successful delivery, a beacon or
    the cap of 100 on the requeue (of a failed request, or of a batch that
    [JSON.stringify] throws on): any other turn that creates no event keeps
    the events held (queued or in flight) the same, up to their order. *)
Theorem events_kept_unless_delivered cfg dbg hw hr a w w' :
  step cfg dbg hw hr a w = Some w' →
  created a = None →
  is_beacon_turn a = false →
  (∀ i outcome now logNow events,
     a = RequestSettles i outcome now logNow →
     inflight w !! i = Some events →
     caught outcome ≠ None
     ∧ (length (eventQueue (inst w)) + length events ≤ 100)%nat) →
  (∀ now thrown,
     a = DeferredFlushThrows now thrown →
     (length (eventQueue (inst w)) ≤ 100)%nat) →
  held w' ≡ₚ held w.
Proof.
  intros Hs Hc Hb Hsettle Hthrown. unfold step in Hs. unfold held.
  destruct a; simpl in Hs, Hc, Hb; simplify_eq.
  - rewrite run_m_inst, run_m_inflight. unfold api_flush.
    destruct (scheduleFlush_held hw hr (inst w)) as [-> ->].
    by rewrite app_nil_r.
  - rewrite run_m_inst, run_m_inflight.
    destruct (cleanup_held dbg hw (inst w)) as [-> ->].
    by rewrite app_nil_r.
  - case_bool_decide; simplify_eq.
    rewrite run_m_inst, run_m_inflight. simpl.
    destruct (scheduleFlush_held hw hr (inst w)) as [-> ->].
    by rewrite app_nil_r.
  - destruct (deferred w); simplify_eq.
    destruct (flush_throws now (inst w)) eqn:Hth; simplify_eq.
    rewrite run_m_inst, run_m_inflight. simpl.
    rewrite void_state, void_effects.
    destruct (flush_held cfg dbg now (not_thrown now) (inst w) Hth)
      as [[-> ->]|[-> ->]].
    + by rewrite app_nil_r.
    + rewrite join_app. simpl. rewrite app_nil_r. apply Permutation_app_comm.
  - destruct (deferred w); simplify_eq.
    destruct (flush_throws now (inst w)) eqn:Hth; simplify_eq.
    rewrite run_m_inst, run_m_inflight. simpl.
    rewrite void_state, void_effects.
    destruct (flush_thrown_held cfg dbg now thrown (inst w) Hth) as [-> ->].
    rewrite take_ge by (by eapply Hthrown). by rewrite app_nil_r.
  - destruct (inflight w !! i) as [l|] eqn:Hl; simplify_eq.
    destruct (Hsettle i outcome now logNow l eq_refl Hl) as [Hfail Hroom].
    rewrite run_m_inst, run_m_inflight. simpl.
    destruct (requeue_when_it_fits dbg l outcome now logNow (inst w) Hfail)
      as [Hq Hfit].
    rewrite (Hfit Hroom).
    destruct (flush_settle_held dbg l outcome now logNow (inst w)) as [_ ->].
    rewrite app_nil_r, <- app_assoc. f_equiv. symmetry. by apply inflight_split.
Qed.

(** A failed request whose batch fits: the event is back in the queue. *)
Lemma events_kept_unless_delivered_witness :
  held (world_after batch_of_one (take 3 one_failure_then_retry))
  ≡ₚ held (world_after batch_of_one (take 2 one_failure_then_retry)).
Proof.
  assert (Hs : step batch_of_one false true true
                 (RequestSettles 0 network_down 1700000000050 1700000000050)
                 (world_after batch_of_one (take 2 one_failure_then_retry))
               = Some (world_after batch_of_one (take 3 one_failure_then_retry)))
    by (by vm_compute).
  apply (events_kept_unless_delivered _ _ _ _ _ _ _ Hs eq_refl eq_refl);
    [|discriminate].
  intros i outcome now logNow events [= <- <- <- <-] Hl.
  split; [discriminate|].
  vm_compute in Hl. injection Hl as <-. vm_compute. lia.
Defined.

(** ** Batching *)

Lemma run_app cfg dbg hw hr acts1 acts2 w :
  run cfg dbg hw hr (acts1 ++ acts2) w
  = run cfg dbg hw hr acts1 w ≫= run cfg dbg hw hr acts2.
Proof.
  revert w. induction acts1 as [|a acts1 IH]; intros w; simpl; [done|].
  by destruct (step cfg dbg hw hr a w).
Qed.

(** [collect] below the batch size: the event is queued, the interval
    timer is armed unless one is pending, nothing else happens. *)
Lemma collect_below cfg dbg hw hr r event st :
  Z.of_nat (length (eventQueue st)) + 1 < batchSize cfg →
  state_of (collect cfg dbg hw hr r event st)
  = set_flushTimer (Some (default (interval_timer cfg) (flushTimer st)))
      (set_eventQueue (eventQueue st ++ [stamp event r]) st)
  ∧ deliveries (effects_of (collect cfg dbg hw hr r event st)) = []
  ∧ deferrals (effects_of (collect cfg dbg hw hr r event st)) = 0%nat
  ∧ foldl timer_effect (pending_timer st) (effects_of (collect cfg dbg hw hr r event st))
    = [default (interval_timer cfg) (flushTimer st)].
Proof.
  intros Hb. destruct dbg, st as [q [?|] ? ? ? ? ? ?]; msimpl;
    rewrite length_app; simpl; rewrite (proj2 (Z.leb_gt _ _)) by lia; done.
Qed.

(** [collect] reaching the batch size: the event is queued, the pending
    timer is cancelled and one run of [flush] is deferred. *)
Lemma collect_reaching cfg dbg hw hr r event st :
  batchSize cfg ≤ Z.of_nat (length (eventQueue st)) + 1 →
  state_of (collect cfg dbg hw hr r event st)
  = set_flushTimer None (set_eventQueue (eventQueue st ++ [stamp event r]) st)
  ∧ deliveries (effects_of (collect cfg dbg hw hr r event st)) = []
  ∧ deferrals (effects_of (collect cfg dbg hw hr r event st)) = 1%nat
  ∧ foldl timer_effect (pending_timer st) (effects_of (collect cfg dbg hw hr r event st))
    = [].
Proof.
  intros Hb. destruct dbg, st as [q [?|] ? ? ? ? ? ?], (hw && hr) eqn:Hh; msimpl;
    rewrite length_app; simpl; rewrite (proj2 (Z.leb_le _ _)) by lia; simpl;
    rewrite bool_decide_eq_false_2 by (rewrite length_app; simpl; lia);
    rewrite Hh; unfold pending_timer, deferrals; simpl;
    rewrite ?decide_True by done; done.
Qed.

(** The code of a track-* turn is [collect] on the event it creates, up to
    the [console.error] of [captureException]. *)
Lemma dispatch_track cfg dbg hw hr a w e :
  created a = Some e →
  ∃ r pe m, dispatch cfg dbg hw hr a w = Some (w, m) ∧ e = stamp pe r
    ∧ ∀ st, state_of (m st) = state_of (collect cfg dbg hw hr r pe st)
            ∧ deliveries (effects_of (m st))
              = deliveries (effects_of (collect cfg dbg hw hr r pe st))
            ∧ deferrals (effects_of (m st))
              = deferrals (effects_of (collect cfg dbg hw hr r pe st))
            ∧ fetched (effects_of (m st)) = []
            ∧ ∀ ts, foldl timer_effect ts (effects_of (m st))
                    = foldl timer_effect ts (effects_of (collect cfg dbg hw hr r pe st)).
Proof.
  intros Hc. destruct a; simpl in Hc; simplify_eq; simpl.
  1-4, 6: eexists _, _, _; split; [reflexivity|]; split; [reflexivity|];
    intros st; repeat (split; [done|]); split; [apply collect_fetched|done].
  eexists _, _, _. split; [reflexivity|]. split; [reflexivity|].
  intros st. unfold captureException, trackError, mbind, M_bind, emit.
  match goal with
  | |- context [collect ?c ?d ?h1 ?h2 ?rr ?pe st] =>
      pose proof (collect_fetched c d h1 h2 rr pe st) as Hf;
      destruct (collect c d h1 h2 rr pe st) as [[? s] es]
  end.
  unfold state_of, effects_of, deliveries, deferrals, fetched in *. simpl in *.
  rewrite !filter_app, omap_app, Hf. simpl. rewrite !app_nil_r.
  split; [done|]. split; [done|]. split; [done|]. split; [done|].
  intros ts. by rewrite foldl_app.
Qed.

(** One track-* turn in the world. *)
Lemma track_turn cfg dbg hw hr a w e :
  created a = Some e →
  timers w = pending_timer (inst w) →
  ∃ w' es, step cfg dbg hw hr a w = Some w'
    ∧ eventQueue (inst w') = eventQueue (inst w) ++ [e]
    ∧ backoffUntil (inst w') = backoffUntil (inst w)
    ∧ output w' = output w ++ es ∧ deliveries es = []
    ∧ inflight w' = inflight w
    ∧ timers w' = pending_timer (inst w')
    ∧ (Z.of_nat (length (eventQueue (inst w))) + 1 < batchSize cfg →
         deferred w' = deferred w
         ∧ timers w' = [default (interval_timer cfg) (flushTimer (inst w))])
    ∧ (batchSize cfg ≤ Z.of_nat (length (eventQueue (inst w))) + 1 →
         deferred w' = S (deferred w) ∧ timers w' = []).
Proof.
  intros Hc Hinv.
  destruct (dispatch_track cfg dbg hw hr a w e Hc) as (r & pe & m & Hd & -> & Hm).
  assert (Hs : step cfg dbg hw hr a w = Some (run_m m w)) by (unfold step; by rewrite Hd).
  exists (run_m m w), (effects_of (m (inst w))).
  destruct (Hm (inst w)) as (Hst & Hdel & Hdef & Hf & Htm).
  split; [done|].
  rewrite run_m_inst, run_m_output, run_m_deferred, run_m_timers, Hst, Hdef, Htm, Hinv.
  split; [apply collect_queue|].
  split; [by destruct (keeps_breaker_collect cfg dbg hw hr r pe (inst w)) as (_ & ? & _)|].
  split; [done|].
  split.
  { rewrite Hdel.
    destruct (Z.lt_ge_cases (Z.of_nat (length (eventQueue (inst w))) + 1) (batchSize cfg)).
    - by destruct (collect_below cfg dbg hw hr r pe (inst w)) as (_ & ? & _).
    - by destruct (collect_reaching cfg dbg hw hr r pe (inst w)) as (_ & ? & _). }
  split.
  { by rewrite run_m_inflight, Hf, app_nil_r. }
  split; [apply tracks_timer_collect|].
  split; intros Hb.
  - destruct (collect_below cfg dbg hw hr r pe (inst w) Hb) as (_ & _ & -> & ->).
    split; [lia|done].
  - destruct (collect_reaching cfg dbg hw hr r pe (inst w) Hb) as (_ & _ & -> & ->).
    split; [lia|done].
Qed.

(** Track-* turns that keep the queue below [batchSize], from any world. *)
Lemma below_batch_size cfg dbg hw hr acts w :
  timers w = pending_timer (inst w) →
  Forall (λ a, is_Some (created a)) acts →
  Z.of_nat (length (eventQueue (inst w)) + length acts) < batchSize cfg →
  ∃ w' es, run cfg dbg hw hr acts w = Some w'
    ∧ eventQueue (inst w') = eventQueue (inst w) ++ omap created acts
    ∧ backoffUntil (inst w') = backoffUntil (inst w)
    ∧ output w' = output w ++ es ∧ deliveries es = []
    ∧ deferred w' = deferred w ∧ inflight w' = inflight w
    ∧ timers w' = pending_timer (inst w')
    ∧ (acts ≠ [] →
         timers w' = [default (interval_timer cfg) (flushTimer (inst w))]).
Proof.
  intros Hinv Hacts. revert w Hinv.
  induction Hacts as [|a acts [e Ha] _ IH]; intros w Hinv Hlen.
  { exists w, []. simpl. rewrite !app_nil_r. repeat split; try done. }
  simpl in Hlen.
  destruct (track_turn cfg dbg hw hr a w e Ha Hinv)
    as (w1 & es1 & Hs & Hq1 & Hb1 & Ho1 & Hd1 & Hf1 & Hinv1 & Hbelow & _).
  destruct Hbelow as [Hdef1 Ht1]; [lia|].
  destruct (IH w1 Hinv1) as (w' & es2 & Hr & Hq & Hb & Ho & Hd & Hdef & Hfl & Hinv' & Ht).
  { rewrite Hq1, length_app. simpl. lia. }
  exists w', (es1 ++ es2). simpl. rewrite Hs, Ha. simpl.
  split; [done|]. split; [by rewrite Hq, Hq1, <- app_assoc|].
  split; [by rewrite Hb|].
  split; [by rewrite Ho, Ho1, app_assoc|].
  split; [unfold deliveries in *; by rewrite filter_app, Hd1, Hd|].
  split; [by rewrite Hdef|]. split; [by rewrite Hfl|]. split; [done|].
  intros _. destruct acts as [|a' acts'].
  - simpl in Hr. by simplify_eq.
  - rewrite Ht by done.
    rewrite Hinv1 in Ht1. unfold pending_timer in Ht1.
    destruct (flushTimer (inst w1)); by simplify_eq.
Qed.

(** While a fresh instance has tracked fewer events than [batchSize], the
    track-* calls have only queued their events, in call order: nothing
    has been sent, no run of [flush] is deferred, and exactly one timer is
    pending, armed with [flushInterval] ms by the first call. *)
Theorem tracking_below_batch_size cfg dbg hw hr acts :
  Forall (λ a, is_Some (created a)) acts →
  Z.of_nat (length acts) < batchSize cfg →
  ∃ w', run cfg dbg hw hr acts (boot cfg dbg hw) = Some w'
    ∧ eventQueue (inst w') = omap created acts
    ∧ deliveries (output w') = []
    ∧ deferred w' = 0%nat ∧ inflight w' = []
    ∧ (acts ≠ [] → timers w' = [interval_timer cfg]).
Proof.
  intros Hacts Hlen.
  destruct (boot_timers cfg dbg hw) as (Ht & Hf & Hd & Hq & Hfl & _).
  destruct (below_batch_size cfg dbg hw hr acts (boot cfg dbg hw))
    as (w' & es & Hr & Hq' & _ & Ho & Hdl & Hdf & Hfl' & _ & Htm).
  - unfold pending_timer. by rewrite Ht, Hf.
  - done.
  - rewrite Hq. simpl. lia.
  - exists w'. split; [done|]. rewrite Hq', Hq, Hdf, Hd, Hfl', Hfl, Ho.
    split; [done|]. split.
    { unfold deliveries in *. rewrite filter_app, Hdl, app_nil_r.
      unfold boot, run_m. msimpl. by destruct hw, (useBeacon cfg), dbg. }
    split; [done|]. split; [done|].
    intros Hne. rewrite (Htm Hne), Hf. done.
Qed.

(** Below the batch size on a fresh instance: two events, one timer. *)
Lemma tracking_below_batch_size_witness :
  eventQueue (inst (world_after batch_of_three (take 2 three_tracks)))
  = omap created (take 2 three_tracks)
  ∧ timers (world_after batch_of_three (take 2 three_tracks))
    = [mkTimeout scheduleFlushCb 10000]
  ∧ deferred (world_after batch_of_three (take 2 three_tracks)) = 0%nat.
Proof.
  destruct (tracking_below_batch_size batch_of_three false true true
              (take 2 three_tracks))
    as (w' & Hr & Hq & _ & Hd & _ & Ht).
  - repeat constructor; by eexists.
  - by vm_compute.
  - unfold world_after. rewrite Hr. simpl.
    split; [exact Hq|]. split; [by apply Ht|exact Hd].
Defined.

Lemma in_backoff_no_throw now st :
  now < backoffUntil st → flush_throws now st = false.
Proof.
  intros Hlt. apply Z.ltb_lt in Hlt. unfold flush_throws. rewrite Hlt.
  simpl. by rewrite andb_false_r.
Qed.

Lemma stringifies_no_throw now st :
  batch_stringifies (eventQueue st) = true → flush_throws now st = false.
Proof. intros Hs. unfold flush_throws. rewrite Hs. simpl. by rewrite andb_false_r. Qed.

(** [flush] inside a backoff window. *)
Lemma flush_inside_backoff cfg dbg now thrown st :
  now < backoffUntil st →
  result_of (flush cfg dbg now thrown st) = None
  ∧ deliveries (effects_of (flush cfg dbg now thrown st)) = []
  ∧ eventQueue (state_of (flush cfg dbg now thrown st)) = eventQueue st.
Proof.
  intros Hlt. rewrite (flush_not_thrown _ _ _ _ _ (in_backoff_no_throw _ _ Hlt)).
  apply Z.ltb_lt in Hlt. rewrite Hlt.
  by destruct st as [[|e q] [?|] ? ? ? ? until ?].
Qed.

(** [flush] outside a backoff window, on a non-empty queue that
    [JSON.stringify] accepts. *)
Lemma flush_outside_backoff cfg dbg now thrown st :
  eventQueue st ≠ [] →
  backoffUntil st ≤ now →
  batch_stringifies (eventQueue st) = true →
  result_of (flush cfg dbg now thrown st) = Some (eventQueue st)
  ∧ deliveries (effects_of (flush cfg dbg now thrown st))
    = [Fetch (telemetryEndpoint cfg) (eventQueue st)]
  ∧ schedulings (effects_of (flush cfg dbg now thrown st)) = []
  ∧ state_of (flush cfg dbg now thrown st) = set_eventQueue [] st.
Proof.
  intros Hq Hb Hs.
  rewrite (flush_not_thrown _ _ _ _ _ (stringifies_no_throw now _ Hs)).
  rewrite (proj2 (Z.ltb_ge _ _)) by lia.
  by destruct dbg, st as [[|e q] ? ? ? ? ? until ?].
Qed.

(** [flush] starts a request exactly when the queue is non-empty, the
    backoff window is over and [JSON.stringify] accepts the batch.  The
    request then carries the whole queue, in order, to the configured
    endpoint; the queue is emptied and the breaker, the timer and
    everything else stay as they are.  In every other case nothing is sent.
    When it is [JSON.stringify] that throws, the run ends as a failed
    request does: the failure is counted, the backoff window opens at the
    clock reading of the [catch] block, a retry timer is held and the batch
    (its first 100 events) is back in the queue. *)
Theorem flush_sends_whole_queue cfg dbg now thrown st batch :
  (result_of (flush cfg dbg now thrown st) = Some batch
   ↔ batch = eventQueue st ∧ batch ≠ [] ∧ backoffUntil st ≤ now
     ∧ batch_stringifies batch = true)
  ∧ (result_of (flush cfg dbg now thrown st) = Some batch →
       deliveries (effects_of (flush cfg dbg now thrown st))
         = [Fetch (telemetryEndpoint cfg) batch]
       ∧ schedulings (effects_of (flush cfg dbg now thrown st)) = []
       ∧ state_of (flush cfg dbg now thrown st) = set_eventQueue [] st)
  ∧ (result_of (flush cfg dbg now thrown st) = None →
       deliveries (effects_of (flush cfg dbg now thrown st)) = []
       ∧ (flush_throws now st = false →
            eventQueue (state_of (flush cfg dbg now thrown st)) = eventQueue st))
  ∧ (eventQueue st ≠ [] → backoffUntil st ≤ now →
     batch_stringifies (eventQueue st) = false →
       result_of (flush cfg dbg now thrown st) = None
       ∧ eventQueue (state_of (flush cfg dbg now thrown st))
         = take 100 (eventQueue st)
       ∧ consecutiveFailures (state_of (flush cfg dbg now thrown st))
         = S (consecutiveFailures st)
       ∧ backoffUntil (state_of (flush cfg dbg now thrown st))
         = t_now thrown
           + Z.min (5000 * 2 ^ (Z.of_nat (S (consecutiveFailures st)) - 1))
               MAX_BACKOFF_MS
       ∧ is_Some (flushTimer (state_of (flush cfg dbg now thrown st)))).
Proof.
  assert (Hthrows : eventQueue st ≠ [] → backoffUntil st ≤ now →
                    batch_stringifies (eventQueue st) = false →
                    flush_throws now st = true).
  { intros Hq Hge Hs. unfold flush_throws.
    rewrite Hs, (proj2 (Z.ltb_ge _ _)) by lia.
    by destruct (eventQueue st). }
  assert (Hiff : result_of (flush cfg dbg now thrown st) = Some batch
                 ↔ batch = eventQueue st ∧ batch ≠ [] ∧ backoffUntil st ≤ now
                   ∧ batch_stringifies batch = true).
  { split.
    - destruct (decide (eventQueue st = [])) as [Hq|Hq].
      + destruct dbg, st as [[|? ?] ? ? ? ? ? ? ?]; done.
      + destruct (Z.lt_ge_cases now (backoffUntil st)) as [Hlt|Hge].
        * by destruct (flush_inside_backoff cfg dbg now thrown st Hlt) as [-> _].
        * destruct (batch_stringifies (eventQueue st)) eqn:Hs.
          -- destruct (flush_outside_backoff cfg dbg now thrown st Hq Hge Hs)
               as [-> _].
             intros [= <-]. done.
          -- by destruct (flush_failure_at_once cfg dbg now thrown st
                            (Hthrows Hq Hge eq_refl)) as [-> _].
    - intros (-> & Hq & Hge & Hs).
      by destruct (flush_outside_backoff cfg dbg now thrown st Hq Hge Hs)
        as [-> _]. }
  split; [done|]. split; [|split].
  - intros (-> & Hq & Hge & Hs)%Hiff.
    by destruct (flush_outside_backoff cfg dbg now thrown st Hq Hge Hs)
      as (_ & ? & ? & ?).
  - intros Hnone.
    destruct (flush_throws now st) eqn:Hth.
    + destruct (flush_failure_at_once cfg dbg now thrown st Hth) as (_ & _ & ->).
      split; [|done].
      by destruct dbg; case_bool_decide; destruct (flushTimer st).
    + destruct (decide (eventQueue st = [])) as [Hq|Hq].
      * destruct dbg, st as [[|? ?] ? ? ? ? ? ? ?]; done.
      * destruct (Z.lt_ge_cases now (backoffUntil st)) as [Hlt|Hge].
        -- by destruct (flush_inside_backoff cfg dbg now thrown st Hlt)
             as (_ & ? & ?).
        -- destruct (batch_stringifies (eventQueue st)) eqn:Hs.
           ++ destruct (flush_outside_backoff cfg dbg now thrown st Hq Hge Hs)
                as [Hr _].
              by rewrite Hr in Hnone.
           ++ by pose proof (Hthrows Hq Hge eq_refl).
  - intros Hq Hge Hs.
    destruct (flush_failure_at_once cfg dbg now thrown st (Hthrows Hq Hge Hs))
      as (-> & -> & _).
    simpl. split; [done|]. split; [done|]. split; [done|]. split; [done|].
    by destruct (flushTimer st).
Qed.

(** A queue of two events, outside any backoff window. *)
Lemma flush_sends_whole_queue_witness :
  deliveries (effects_of (flush DEFAULT_CONFIG false 1700000000500
     (not_thrown 1700000000500)
     (set_eventQueue [ev "a" 1700000000000; ev "b" 1700000000100] initialState)))
  = [Fetch "/api/telemetry" [ev "a" 1700000000000; ev "b" 1700000000100]]
  ∧ eventQueue (state_of (flush DEFAULT_CONFIG false 1700000000500
     (not_thrown 1700000000500)
     (set_eventQueue [ev "a" 1700000000000; ev "b" 1700000000100] initialState)))
    = [].
Proof.
  destruct (flush_sends_whole_queue DEFAULT_CONFIG false 1700000000500
              (not_thrown 1700000000500)
              (set_eventQueue [ev "a" 1700000000000; ev "b" 1700000000100]
                 initialState)
              [ev "a" 1700000000000; ev "b" 1700000000100]) as (_ & Hsend & _).
  destruct (Hsend eq_refl) as (Hd & _ & Hs).
  split; [exact Hd|]. by rewrite Hs.
Defined.

(** Track-* turns that bring the queue of an idle world to [batchSize],
    then the deferred run of [flush]. *)
Lemma full_batch_from_idle cfg dbg hw hr acts now w :
  eventQueue (inst w) = [] →
  timers w = pending_timer (inst w) →
  deferred w = 0%nat →
  Forall (λ a, is_Some (created a)) acts →
  acts ≠ [] →
  Z.of_nat (length acts) = batchSize cfg →
  backoffUntil (inst w) ≤ now →
  batch_stringifies (omap created acts) = true →
  ∃ w' es, run cfg dbg hw hr (acts ++ [DeferredFlushRuns now]) w = Some w'
    ∧ output w' = output w ++ es
    ∧ deliveries es = [Fetch (telemetryEndpoint cfg) (omap created acts)]
    ∧ eventQueue (inst w') = []
    ∧ inflight w' = inflight w ++ [omap created acts]
    ∧ timers w' = [] ∧ deferred w' = 0%nat.
Proof.
  intros Hq0 Hinv Hd0 Hacts Hne Hlen Hnow Hstr.
  destruct acts as [|last front _] using rev_ind; [done|]. clear Hne.
  apply Forall_app in Hacts as [Hfront Hlast].
  apply Forall_singleton in Hlast as [e He].
  rewrite length_app in Hlen. simpl in Hlen.
  destruct (below_batch_size cfg dbg hw hr front w Hinv Hfront)
    as (w1 & es1 & Hr1 & Hq1 & Hb1 & Ho1 & Hdl1 & Hdf1 & Hfl1 & Hinv1 & _).
  { rewrite Hq0. simpl. lia. }
  destruct (track_turn cfg dbg hw hr last w1 e He Hinv1)
    as (w2 & es2 & Hs2 & Hq2 & Hb2 & Ho2 & Hdl2 & Hfl2 & Hinv2 & _ & Hreach).
  destruct Hreach as [Hdf2 Ht2].
  { rewrite Hq1, Hq0, length_app. simpl.
    assert (length (omap created front) = length front); [|lia].
    clear -Hfront. induction Hfront as [|a l [x Hx] _ IH]; [done|].
    simpl. rewrite Hx. simpl. f_equal. exact IH. }
  assert (Hall : omap created (front ++ [last]) = eventQueue (inst w2)).
  { rewrite omap_app. simpl. rewrite He. simpl. by rewrite Hq2, Hq1, Hq0. }
  assert (Hne2 : eventQueue (inst w2) ≠ []).
  { rewrite Hq2. by destruct (eventQueue (inst w1)). }
  rewrite Hall in Hstr.
  pose proof (stringifies_no_throw now _ Hstr) as Hth.
  destruct (flush_outside_backoff cfg dbg now (not_thrown now) (inst w2) Hne2)
    as (_ & Hsend & Hsched & Hst); [lia|done|].
  eexists _, (es1 ++ es2
              ++ effects_of (flush cfg dbg now (not_thrown now) (inst w2))).
  rewrite <- app_assoc, run_app, Hr1. simpl. rewrite Hs2. simpl.
  unfold step. simpl. rewrite Hdf2, Hdf1, Hd0, Hth.
  split; [reflexivity|].
  rewrite run_m_output, run_m_inst, run_m_inflight, run_m_timers, run_m_deferred.
  simpl. rewrite void_state, void_effects, Hst.
  split; [by rewrite Ho2, Ho1, !app_assoc|].
  split.
  { unfold deliveries in *. rewrite !filter_app, Hdl1, Hdl2, Hsend, Hall. done. }
  split; [done|].
  split.
  { rewrite Hfl2, Hfl1, Hall. f_equal.
    destruct (flush_held cfg dbg now (not_thrown now) (inst w2) Hth)
      as [[Hsame _]|[_ ->]]; [|done].
    rewrite Hst in Hsame. simpl in Hsame. by rewrite <- Hsame in Hne2. }
  split.
  { rewrite Ht2.
    pose proof (tracks_timer_flush cfg dbg now (not_thrown now) (inst w2)) as Htf.
    rewrite Hinv2 in Ht2. rewrite Ht2 in Htf. rewrite Htf, Hst.
    unfold pending_timer in *. simpl.
    by destruct (flushTimer (inst w2)). }
  unfold deferrals. unfold schedulings in Hsched.
  assert (Hnone : filter is_deferral
                    (effects_of (flush cfg dbg now (not_thrown now) (inst w2))) = []).
  { revert Hsched.
    generalize (effects_of (flush cfg dbg now (not_thrown now) (inst w2))).
    intros l. induction l as [|x l IH]; [done|].
    rewrite !filter_cons.
    destruct x as [[] ?| | | | | | | | | |]; simpl; try done; auto. }
  by rewrite Hnone.
Qed.

(** When the track-* calls of a fresh instance bring the queue to exactly
    [batchSize], the interval timer is cancelled and one run of [flush] is
    deferred; when that run starts, and [JSON.stringify] accepts the events,
    the batch goes out as a single request holding every event, in call
    order, and nothing stays queued, armed or deferred. *)
Theorem full_batch_is_sent_once cfg dbg hw hr acts now :
  Forall (λ a, is_Some (created a)) acts →
  acts ≠ [] →
  Z.of_nat (length acts) = batchSize cfg →
  0 ≤ now →
  batch_stringifies (omap created acts) = true →
  ∃ w', run cfg dbg hw hr (acts ++ [DeferredFlushRuns now]) (boot cfg dbg hw) = Some w'
    ∧ deliveries (output w') = [Fetch (telemetryEndpoint cfg) (omap created acts)]
    ∧ eventQueue (inst w') = []
    ∧ inflight w' = [omap created acts]
    ∧ timers w' = [] ∧ deferred w' = 0%nat.
Proof.
  intros Hacts Hne Hlen Hnow Hstr.
  destruct (boot_timers cfg dbg hw) as (Ht & Hf & Hd & Hq & Hfl & _ & Hb).
  destruct (full_batch_from_idle cfg dbg hw hr acts now (boot cfg dbg hw))
    as (w' & es & Hr & Ho & Hdl & Hq' & Hfl' & Htm & Hdf); try done.
  - unfold pending_timer. by rewrite Ht, Hf.
  - by rewrite Hb.
  - exists w'. split; [done|]. rewrite Ho, Hfl', Hfl.
    split; [|done].
    unfold deliveries in *. rewrite filter_app, Hdl.
    unfold boot, run_m. msimpl. by destruct hw, (useBeacon cfg), dbg.
Qed.

(** Three tracked events on a fresh instance with [batchSize = 3]: one
    request with all three. *)
Lemma full_batch_is_sent_once_witness :
  deliveries (output (world_after batch_of_three
     (three_tracks ++ [DeferredFlushRuns 1700000000201])))
  = [Fetch "/api/telemetry" (omap created three_tracks)].
Proof.
  destruct (full_batch_is_sent_once batch_of_three false true true three_tracks
              1700000000201)
    as (w' & Hr & Hd & _).
  - repeat constructor; by eexists.
  - discriminate.
  - reflexivity.
  - lia.
  - reflexivity.
  - unfold world_after. rewrite Hr. simpl. exact Hd.
Defined.

(** ** What is sent, and where *)

Lemma sends_well_bind {A B} cfg (m : M A) (f : A → M B) :
  sends_well cfg m → (∀ a, sends_well cfg (f a)) → sends_well cfg (m ≫= f).
Proof.
  intros Hm Hf st. specialize (Hm st). unfold mbind, M_bind.
  destruct (m st) as [[a s1] e1]. specialize (Hf a s1).
  destruct (f a s1) as [[b s2] e2].
  unfold effects_of in *. simpl in *. by apply Forall_app.
Qed.

Lemma sends_well_collect cfg dbg hw hr r event :
  sends_well cfg (collect cfg dbg hw hr r event).
Proof.
  intros st. destruct dbg, st as [? [?|] ? ? ? ? ? ?]; msimpl; mcases;
    repeat constructor.
Qed.

Lemma sends_well_scheduleFlush cfg hw hr : sends_well cfg (scheduleFlush hw hr).
Proof.
  intros st. destruct st as [? [?|] ? ? ? ? ? ?]; msimpl; mcases;
    repeat constructor.
Qed.

Lemma sends_well_cleanup cfg dbg hw : sends_well cfg (cleanup dbg hw).
Proof.
  intros st. destruct dbg, st as [? [?|] ? [] [] ? ? ?], hw; msimpl;
    repeat constructor.
Qed.

Lemma sends_well_flush cfg dbg now thrown :
  sends_well cfg (flush cfg dbg now thrown).
Proof.
  intros st. destruct (flush_throws now st) eqn:Hth.
  - destruct (flush_failure_at_once cfg dbg now thrown st Hth) as (_ & _ & ->).
    destruct dbg; case_bool_decide; destruct (flushTimer st); repeat constructor.
  - rewrite (flush_not_thrown _ _ _ _ _ Hth).
    destruct dbg, st as [[|? ?] [?|] ? ? ? ? until ?]; simpl;
      try (by constructor); destruct (now <? until); repeat constructor; done.
Qed.

Lemma sends_well_flushWithBeacon cfg dbg call :
  sends_well cfg (flushWithBeacon cfg dbg call).
Proof.
  intros st. destruct dbg, st as [[|? ?] [?|] ? ? ? ? ? ?]; msimpl; mcases;
    repeat constructor; done.
Qed.

Lemma sends_well_flush_settle cfg dbg events outcome now logNow :
  sends_well cfg (flush_settle dbg events outcome now logNow).
Proof.
  intros st. destruct (caught outcome) as [error|] eqn:Hc.
  - destruct (flush_settle_failure dbg events outcome now logNow st error Hc)
      as [_ ->].
    case_bool_decide; destruct (flushTimer st); repeat constructor.
  - assert (outcome = ResponseOk) as -> by (by destruct outcome).
    destruct dbg, st as [? ? ? ? ? [|?] ? ?]; msimpl; repeat constructor.
Qed.

Lemma dispatch_sends_well cfg dbg hw hr a w w0 m :
  dispatch cfg dbg hw hr a w = Some (w0, m) → sends_well cfg m.
Proof.
  intros Hd.
  destruct a; simpl in Hd; mcases;
    try apply sends_well_collect;
    try apply sends_well_scheduleFlush;
    try apply sends_well_cleanup;
    try apply sends_well_flushWithBeacon;
    try apply sends_well_flush_settle;
    try (intros st; by constructor).
  - apply sends_well_bind; [apply sends_well_collect|].
    intros ? st. repeat constructor.
  - intros st. rewrite void_effects. apply sends_well_flush.
  - intros st. rewrite void_effects. apply sends_well_flush.
  - destruct hidden; [apply sends_well_flushWithBeacon|intros st; by constructor].
Qed.

(** Whatever happens to a fresh instance, every request and every beacon
    goes to the configured endpoint and carries at least one event: the
    engine never posts an empty batch and never posts anywhere else. *)
Theorem deliveries_are_well_formed cfg dbg hw hr acts w' :
  run cfg dbg hw hr acts (boot cfg dbg hw) = Some w' →
  Forall (well_sent cfg) (output w').
Proof.
  assert (H0 : Forall (well_sent cfg) (output (boot cfg dbg hw))).
  { unfold boot, run_m. msimpl. destruct hw, (useBeacon cfg), dbg; repeat constructor. }
  revert H0. generalize (boot cfg dbg hw). intros w. revert w.
  induction acts as [|a acts IH]; intros w Hw; simpl.
  - by intros [= ->].
  - destruct (step cfg dbg hw hr a w) as [w1|] eqn:Hs; [|done].
    intros Hr. eapply IH; [|done].
    destruct (step_dispatch _ _ _ _ _ _ _ Hs) as (w0 & m & Hd & ->).
    destruct (dispatch_inst _ _ _ _ _ _ _ _ Hd) as [_ Ho].
    rewrite run_m_output, Ho. apply Forall_app. split; [done|].
    by eapply dispatch_sends_well.
Qed.

(** On a run that ends with a request in flight. *)
Lemma deliveries_are_well_formed_witness :
  Forall (well_sent batch_of_one) (output (world_after batch_of_one one_failure_then_retry))
  ∧ length (deliveries (output (world_after batch_of_one one_failure_then_retry)))
    = 2%nat.
Proof.
  split; [|by vm_compute].
  apply (deliveries_are_well_formed batch_of_one false true true one_failure_then_retry).
  by vm_compute.
Defined.

(** ** Failures of either kind *)

(** A response that is not [ok] is handled exactly like a rejected
    request: the same state results (counter, backoff, requeue, timer) and
    the same host calls are made; only the text after the colon of the
    warning differs, which for a response reads
    [Telemetry request failed: <status>]. *)
Theorem bad_status_is_a_failure dbg events status reason now logNow st :
  state_of (flush_settle dbg events (ResponseNotOk status) now logNow st)
  = state_of (flush_settle dbg events (FetchRejected reason) now logNow st)
  ∧ schedulings (effects_of (flush_settle dbg events (ResponseNotOk status) now logNow st))
    = schedulings (effects_of (flush_settle dbg events (FetchRejected reason) now logNow st))
  ∧ warn_times (effects_of (flush_settle dbg events (ResponseNotOk status) now logNow st))
    = warn_times (effects_of (flush_settle dbg events (FetchRejected reason) now logNow st))
  ∧ length (effects_of (flush_settle dbg events (ResponseNotOk status) now logNow st))
    = length (effects_of (flush_settle dbg events (FetchRejected reason) now logNow st))
  ∧ (∀ t n s detail,
       ConsoleWarn t n s detail
         ∈ effects_of (flush_settle dbg events (ResponseNotOk status) now logNow st) →
       detail = JString ("Telemetry request failed: " +:+ pretty status)).
Proof.
  destruct (flush_settle_failure dbg events (ResponseNotOk status) now logNow st _ eq_refl)
    as [-> ->].
  destruct (flush_settle_failure dbg events (FetchRejected reason) now logNow st _ eq_refl)
    as [-> ->].
  split; [done|].
  case_bool_decide; destruct (flushTimer st) as [h|]; simpl;
    (split; [done|]); (split; [done|]); (split; [done|]);
    intros ? ? ? ? Hin;
    repeat (apply elem_of_cons in Hin as [Hin|Hin]; simplify_eq; try done);
    by apply elem_of_nil in Hin.
Qed.

(** ** The backoff delay *)

(** The delay grows with the number of failures in a row and stays between
    5 seconds and 5 minutes. *)
Theorem backoff_is_monotone_and_bounded (n m : nat) st st' :
  (1 ≤ n ≤ m)%nat →
  consecutiveFailures st = n →
  consecutiveFailures st' = m →
  result_of (getBackoffDelay st) ≤ result_of (getBackoffDelay st')
  ∧ 5000 ≤ result_of (getBackoffDelay st) ≤ 300000
  ∧ state_of (getBackoffDelay st) = st.
Proof.
  intros [Hn Hm] Hcn Hcm. unfold getBackoffDelay. msimpl. rewrite Hcn, Hcm.
  assert (Hpow : 2 ^ (Z.of_nat n - 1) ≤ 2 ^ (Z.of_nat m - 1))
    by (apply Z.pow_le_mono_r; lia).
  assert (Hpos : 1 ≤ 2 ^ (Z.of_nat n - 1)).
  { change 1 with (2 ^ 0). apply Z.pow_le_mono_r; lia. }
  unfold MAX_BACKOFF_MS. split; [lia|]. split; [lia|done].
Qed.

Lemma backoff_is_monotone_and_bounded_witness :
  result_of (getBackoffDelay (set_consecutiveFailures 2 initialState))
  ≤ result_of (getBackoffDelay (set_consecutiveFailures 9 initialState)).
Proof.
  refine (proj1 (backoff_is_monotone_and_bounded 2 9
                   (set_consecutiveFailures 2 initialState)
                   (set_consecutiveFailures 9 initialState) _ eq_refl eq_refl)).
  lia.
Defined.

(** ** Listeners: init, cleanup and the beacon *)

Lemma foldl_host_listeners es w :
  listeners (foldl host_effect w es) = foldl listener_effect (listeners w) es.
Proof.
  revert w. induction es as [|e es IH]; intros w; [done|].
  simpl. rewrite IH. by destruct e as [[] ?| | | | | | | | | |].
Qed.

Lemma run_m_listeners {A} (m : M A) w :
  listeners (run_m m w) = foldl listener_effect (listeners w) (effects_of (m (inst w))).
Proof. by rewrite run_m_unfold, foldl_host_listeners. Qed.

(** The listeners and handlers of a fresh instance. *)
Lemma boot_listeners cfg dbg hw :
  listeners (boot cfg dbg hw)
  = (if hw && useBeacon cfg then ["visibilitychange"; "beforeunload"] else [])
  ∧ isInitialized (inst (boot cfg dbg hw)) = hw
  ∧ boundFlushWithBeacon (inst (boot cfg dbg hw)) = hw && useBeacon cfg
  ∧ boundHandleVisibilityChange (inst (boot cfg dbg hw)) = hw && useBeacon cfg.
Proof.
  repeat split; unfold boot, run_m; msimpl; by destruct hw, (useBeacon cfg), dbg.
Qed.

(** [createObservability] registers the two page listeners exactly when
    there is a window and [useBeacon] is on, and [init] never registers
    them twice: a second [init()] makes no host call and changes nothing. *)
Theorem init_registers_once cfg dbg hw st :
  listeners (boot cfg dbg hw)
  = (if hw && useBeacon cfg then ["visibilitychange"; "beforeunload"] else [])
  ∧ isInitialized (inst (boot cfg dbg hw)) = hw
  ∧ effects_of (init cfg dbg hw (state_of (init cfg dbg hw st))) = []
  ∧ state_of (init cfg dbg hw (state_of (init cfg dbg hw st)))
    = state_of (init cfg dbg hw st).
Proof.
  destruct (boot_listeners cfg dbg hw) as (Hl & Hi & _).
  split; [done|]. split; [done|].
  split; destruct st as [? ? [] ? ? ? ? ?], hw, dbg; msimpl;
    destruct (useBeacon cfg); reflexivity.
Qed.

(** [cleanup()] is idempotent: called again right away it removes no
    listener and clears no timer (it only resets the session cache again)
    and leaves the state as the first call left it. *)
Theorem cleanup_is_idempotent dbg hw st :
  state_of (cleanup dbg hw (state_of (cleanup dbg hw st)))
  = state_of (cleanup dbg hw st)
  ∧ without_logs (effects_of (cleanup dbg hw (state_of (cleanup dbg hw st))))
    = [ResetSessionCache].
Proof.
  split; destruct st as [? [?|] ? [] [] ? ? ?], hw, dbg; reflexivity.
Qed.

(** [cleanup()] removes every registered listener. *)
Lemma cleanup_clears_listeners dbg hw w :
  listeners_bound hw w →
  listeners (run_m (cleanup dbg hw) w) = [].
Proof.
  intros Hb. rewrite run_m_listeners.
  apply elem_of_nil_inv. intros ty Hin.
  assert (Hsub : ty ∈ listeners w
                 ∧ (boundHandleVisibilityChange (inst w) = true → hw = true
                    → ty ≠ "visibilitychange")
                 ∧ (boundFlushWithBeacon (inst w) = true → hw = true
                    → ty ≠ "beforeunload")).
  { revert Hin. generalize (listeners w). intros ls.
    destruct (inst w) as [? [?|] ? [] [] ? ? ?], hw, dbg; simpl;
      rewrite ?list_elem_of_filter; intuition (auto; congruence). }
  destruct Hsub as (Hin0 & Hv & Hu).
  destruct (Hb ty Hin0) as [Hw [[-> Hbv]|[-> Hbu]]]; [by apply Hv|by apply Hu].
Qed.

Lemma leaves_listeners_bind {A B} (m : M A) (f : A → M B) :
  leaves_listeners m → (∀ a, leaves_listeners (f a)) → leaves_listeners (m ≫= f).
Proof.
  intros Hm Hf st. specialize (Hm st). unfold mbind, M_bind.
  destruct (m st) as [[a s1] e1]. specialize (Hf a s1).
  destruct (f a s1) as [[b s2] e2].
  unfold state_of, effects_of, beacons in *. simpl in *.
  destruct Hm as (Hl1 & <- & <- & Hb1), Hf as (Hl2 & -> & -> & Hb2).
  split; [|by rewrite filter_app, Hb1, Hb2].
  intros ls. by rewrite foldl_app, Hl1, Hl2.
Qed.

Lemma leaves_listeners_collect cfg dbg hw hr r event :
  leaves_listeners (collect cfg dbg hw hr r event).
Proof. intros st. destruct dbg, st as [? [?|] ? ? ? ? ? ?]; msimpl; mcases; done. Qed.

Lemma leaves_listeners_scheduleFlush hw hr : leaves_listeners (scheduleFlush hw hr).
Proof. intros st. destruct st as [? [?|] ? ? ? ? ? ?]; msimpl; mcases; done. Qed.

Lemma leaves_listeners_flush cfg dbg now thrown :
  leaves_listeners (flush cfg dbg now thrown).
Proof.
  intros st. destruct (flush_throws now st) eqn:Hth.
  - destruct (flush_failure_at_once cfg dbg now thrown st Hth) as (_ & -> & ->).
    simpl. by destruct dbg; case_bool_decide; destruct (flushTimer st).
  - rewrite (flush_not_thrown _ _ _ _ _ Hth).
    destruct dbg, st as [[|? ?] [?|] ? ? ? ? until ?]; simpl;
      try done; destruct (now <? until); done.
Qed.

Lemma leaves_listeners_flush_settle dbg events outcome now logNow :
  leaves_listeners (flush_settle dbg events outcome now logNow).
Proof.
  intros st. destruct (caught outcome) as [error|] eqn:Hc.
  - destruct (flush_settle_failure dbg events outcome now logNow st error Hc)
      as [-> ->]. simpl.
    by case_bool_decide; destruct (flushTimer st).
  - assert (outcome = ResponseOk) as -> by (by destruct outcome).
    destruct dbg, st as [? ? ? ? ? [|?] ? ?]; msimpl; done.
Qed.

(** With no listener registered, a turn other than [cleanup()] registers
    none and sends no beacon. *)
Lemma dispatch_leaves_listeners cfg dbg hw hr a w w0 m :
  dispatch cfg dbg hw hr a w = Some (w0, m) →
  is_cleanup a = false →
  is_beacon_turn a = false ∨ listeners w = [] →
  leaves_listeners m.
Proof.
  intros Hd Hc Hb.
  destruct a; simpl in Hd, Hc; try done.
  1-4, 6-8: mcases;
    try apply leaves_listeners_collect;
    try apply leaves_listeners_scheduleFlush.
  - simplify_eq. apply leaves_listeners_bind; [apply leaves_listeners_collect|done].
  - destruct (deferred w), (flush_throws now (inst w)); simplify_eq.
    intros st. rewrite void_state, void_effects. apply leaves_listeners_flush.
  - destruct (deferred w), (flush_throws now (inst w)); simplify_eq.
    intros st. rewrite void_state, void_effects. apply leaves_listeners_flush.
  - destruct (inflight w !! i); simplify_eq. apply leaves_listeners_flush_settle.
  - destruct Hb as [?|Hl]; [done|]. rewrite Hl in Hd.
    rewrite bool_decide_eq_false_2 in Hd by apply not_elem_of_nil.
    by simplify_eq.
  - destruct Hb as [?|Hl]; [done|]. rewrite Hl in Hd.
    rewrite bool_decide_eq_false_2 in Hd by apply not_elem_of_nil.
    by simplify_eq.
Qed.

Lemma leaves_listeners_cleanup_none dbg hw st ls :
  ls = [] →
  foldl listener_effect ls (effects_of (cleanup dbg hw st)) = []
  ∧ beacons (effects_of (cleanup dbg hw st)) = [].
Proof.
  intros ->. destruct st as [? [?|] ? [] [] ? ? ?], hw, dbg; done.
Qed.

(** Once no listener is registered, none ever is again and no beacon is
    sent. *)
Lemma run_without_listeners cfg dbg hw hr acts w w' :
  listeners w = [] →
  run cfg dbg hw hr acts w = Some w' →
  listeners w' = [] ∧ ∃ es, output w' = output w ++ es ∧ beacons es = [].
Proof.
  revert w. induction acts as [|a acts IH]; intros w Hl; simpl.
  { intros [= ->]. split; [done|]. exists []. by rewrite app_nil_r. }
  destruct (step cfg dbg hw hr a w) as [w1|] eqn:Hs; [|done].
  intros Hr.
  destruct (step_dispatch _ _ _ _ _ _ _ Hs) as (w0 & m & Hd & ->).
  destruct (dispatch_inst _ _ _ _ _ _ _ _ Hd) as [Hi Ho].
  assert (Hl0 : listeners w0 = listeners w).
  { destruct a; simpl in Hd; mcases; done. }
  assert (Hstep : listeners (run_m m w0) = [] ∧ beacons (effects_of (m (inst w))) = []).
  { rewrite run_m_listeners, Hi, Hl0, Hl.
    destruct (is_cleanup a) eqn:Hc.
    - destruct a; try done. simpl in Hd. simplify_eq.
      by apply leaves_listeners_cleanup_none.
    - destruct (dispatch_leaves_listeners _ _ _ _ _ _ _ _ Hd Hc (or_intror Hl) (inst w))
        as (Hls & _ & _ & Hb). by rewrite Hls. }
  destruct Hstep as [Hl1 Hb1].
  destruct (IH _ Hl1 Hr) as (Hl' & es & Hout & Hb).
  split; [done|]. exists (effects_of (m (inst w)) ++ es).
  rewrite Hout, run_m_output, Hi, Ho, app_assoc. split; [done|].
  unfold beacons in *. by rewrite filter_app, Hb1, Hb.
Qed.

(** Without a window, or with [useBeacon] off, an instance never sends a
    beacon, whatever happens to it. *)
Theorem no_beacon_unless_enabled cfg dbg hw hr acts w' :
  hw = false ∨ useBeacon cfg = false →
  run cfg dbg hw hr acts (boot cfg dbg hw) = Some w' →
  beacons (output w') = [].
Proof.
  intros Hoff Hrun.
  destruct (boot_listeners cfg dbg hw) as (Hl & _).
  assert (Hl0 : listeners (boot cfg dbg hw) = []).
  { rewrite Hl. destruct Hoff as [-> | ->]; [done|]. by destruct hw. }
  destruct (run_without_listeners _ _ _ _ _ _ _ Hl0 Hrun) as (_ & es & -> & Hb).
  unfold beacons in *. rewrite filter_app, Hb, app_nil_r.
  unfold boot, run_m. msimpl. by destruct hw, (useBeacon cfg), dbg.
Qed.

Lemma no_beacon_unless_enabled_witness :
  beacons (output (world_after beacon_off track_then_unload)) = []
  ∧ eventQueue (inst (world_after beacon_off track_then_unload))
    = [ev "a" 1700000000000].
Proof.
  split; [|by vm_compute].
  apply (no_beacon_unless_enabled beacon_off false true true track_then_unload).
  - by right.
  - by vm_compute.
Defined.

Lemma flushWithBeacon_keeps_listeners cfg dbg call st :
  (∀ ls, foldl listener_effect ls (effects_of (flushWithBeacon cfg dbg call st)) = ls)
  ∧ boundHandleVisibilityChange (state_of (flushWithBeacon cfg dbg call st))
    = boundHandleVisibilityChange st
  ∧ boundFlushWithBeacon (state_of (flushWithBeacon cfg dbg call st))
    = boundFlushWithBeacon st.
Proof.
  destruct dbg, st as [[|? ?] [?|] ? ? ? ? ? ?]; msimpl; mcases; done.
Qed.

Lemma step_listeners_bound cfg dbg hw hr a w w' :
  listeners_bound hw w →
  step cfg dbg hw hr a w = Some w' →
  listeners_bound hw w'.
Proof.
  intros Hb Hs.
  destruct (step_dispatch _ _ _ _ _ _ _ Hs) as (w0 & m & Hd & ->).
  destruct (dispatch_inst _ _ _ _ _ _ _ _ Hd) as [Hi Ho].
  assert (Hl0 : listeners w0 = listeners w).
  { destruct a; simpl in Hd; mcases; done. }
  destruct (is_cleanup a) eqn:Hc.
  { destruct a; try done. simpl in Hd. simplify_eq.
    intros ty Hin. rewrite cleanup_clears_listeners in Hin by done.
    by apply elem_of_nil in Hin. }
  assert (Hkeep : (∀ ls, foldl listener_effect ls (effects_of (m (inst w))) = ls)
                  ∧ boundHandleVisibilityChange (state_of (m (inst w)))
                    = boundHandleVisibilityChange (inst w)
                  ∧ boundFlushWithBeacon (state_of (m (inst w)))
                    = boundFlushWithBeacon (inst w)).
  { destruct (is_beacon_turn a) eqn:Hbt.
    - destruct a; try done; simpl in Hd; mcases; try done;
        try apply flushWithBeacon_keeps_listeners.
      destruct hidden; [apply flushWithBeacon_keeps_listeners|done].
    - destruct (dispatch_leaves_listeners _ _ _ _ _ _ _ _ Hd Hc (or_introl Hbt) (inst w))
        as (? & ? & ? & _). done. }
  destruct Hkeep as (Hls & Hv & Hu).
  intros ty. rewrite run_m_listeners, run_m_inst, Hi, Hls, Hl0, Hv, Hu. apply Hb.
Qed.

(** After [cleanup()] the page listeners are gone for good: whatever
    happens next (tracking, page hide, unload), no listener is registered
    and no beacon is ever sent by the instance. *)
Theorem no_beacon_after_cleanup cfg dbg hw hr acts1 acts2 w1 w' :
  run cfg dbg hw hr acts1 (boot cfg dbg hw) = Some w1 →
  run cfg dbg hw hr (CallCleanup :: acts2) w1 = Some w' →
  listeners w' = []
  ∧ ∃ es, output w' = output w1 ++ es ∧ beacons es = [].
Proof.
  intros Hr1 Hr2.
  assert (Hb : listeners_bound hw w1).
  { assert (H0 : listeners_bound hw (boot cfg dbg hw)).
    { destruct (boot_listeners cfg dbg hw) as (Hl & _ & Hu & Hv).
      intros ty. rewrite Hl, Hu, Hv.
      destruct hw, (useBeacon cfg); simpl; try (intros Hin; by apply elem_of_nil in Hin).
      intros [->|[->|Hin]%elem_of_cons]%elem_of_cons; auto.
      by apply elem_of_nil in Hin. }
    revert Hr1 H0. generalize (boot cfg dbg hw). intros w. revert w.
    induction acts1 as [|a acts IH]; intros w; simpl.
    - by intros [= ->].
    - destruct (step cfg dbg hw hr a w) as [w2|] eqn:Hs; [|done].
      intros Hr Hw. eapply IH; [done|]. by eapply step_listeners_bound. }
  simpl in Hr2. unfold step in Hr2. simpl in Hr2.
  pose proof (cleanup_clears_listeners dbg hw w1 Hb) as Hl.
  destruct (run_without_listeners _ _ _ _ _ _ _ Hl Hr2) as (Hl' & es & Hout & Hbe).
  split; [done|].
  exists (effects_of (cleanup dbg hw (inst w1)) ++ es).
  rewrite Hout, run_m_output, app_assoc. split; [done|].
  unfold beacons in *. rewrite filter_app, Hbe, app_nil_r.
  by destruct (inst w1) as [? [?|] ? [] [] ? ? ?], hw, dbg.
Qed.

(** A tab that is closed after [cleanup()]: the event tracked in between
    stays in the queue, no beacon goes out. *)
Lemma no_beacon_after_cleanup_witness :
  listeners (world_after DEFAULT_CONFIG
     ([CallTrackEvent (at_time 1700000000000) "a" None]
      ++ CallCleanup :: cleanup_then_unload)) = []
  ∧ beacons (output (world_after DEFAULT_CONFIG
       ([CallTrackEvent (at_time 1700000000000) "a" None]
        ++ CallCleanup :: cleanup_then_unload))) = [].
Proof.
  destruct (no_beacon_after_cleanup DEFAULT_CONFIG false true true
              [CallTrackEvent (at_time 1700000000000) "a" None]
              cleanup_then_unload
              (world_after DEFAULT_CONFIG
                 [CallTrackEvent (at_time 1700000000000) "a" None])
              (world_after DEFAULT_CONFIG
                 ([CallTrackEvent (at_time 1700000000000) "a" None]
                  ++ CallCleanup :: cleanup_then_unload)))
    as (Hl & es & Hout & Hb).
  - by vm_compute.
  - by vm_compute.
  - split; [exact Hl|]. rewrite Hout. unfold beacons in *.
    rewrite filter_app, Hb, app_nil_r. by vm_compute.
Defined.

(** ** cleanup *)

Lemma run_timer_invariant cfg dbg hw hr acts w' :
  run cfg dbg hw hr acts (boot cfg dbg hw) = Some w' →
  timers w' = pending_timer (inst w').
Proof.
  assert (H0 : timers (boot cfg dbg hw) = pending_timer (inst (boot cfg dbg hw))).
  { destruct (boot_timers cfg dbg hw) as (-> & Hf & _).
    unfold pending_timer. by rewrite Hf. }
  revert H0. generalize (boot cfg dbg hw). intros w.
  revert w. induction acts as [|a acts IH]; intros w; simpl.
  - by intros ? [= ->].
  - destruct (step cfg dbg hw hr a w) as [w1|] eqn:Hs; [|done].
    intros Hw Hr. eapply IH; [|done]. by eapply step_timer_invariant.
Qed.

Lemma run_listeners_bound cfg dbg hw hr acts w' :
  run cfg dbg hw hr acts (boot cfg dbg hw) = Some w' →
  listeners_bound hw w'.
Proof.
  assert (H0 : listeners_bound hw (boot cfg dbg hw)).
  { destruct (boot_listeners cfg dbg hw) as (Hl & _ & Hu & Hv).
    intros ty. rewrite Hl, Hu, Hv.
    destruct hw, (useBeacon cfg); simpl; try (intros Hin; by apply elem_of_nil in Hin).
    intros [->|[->|Hin]%elem_of_cons]%elem_of_cons; auto.
    by apply elem_of_nil in Hin. }
  revert H0. generalize (boot cfg dbg hw). intros w. revert w.
  induction acts as [|a acts IH]; intros w; simpl.
  - by intros ? [= ->].
  - destruct (step cfg dbg hw hr a w) as [w2|] eqn:Hs; [|done].
    intros Hw Hr. eapply IH; [|done]. by eapply step_listeners_bound.
Qed.

(** C2 (as the code has it): [cleanup()] cancels the pending timer, unbinds
    the page listeners and leaves the queue alone, sending nothing: its
    host calls are the removal of each listener whose handler is bound, the
    clearing of the timer it holds and the reset of the session cache, and
    on an instance run from its creation no timer and no listener is left
    afterwards.  Every later track-* call still appends its event, and it
    re-arms the scheduler as on a live instance: the first call after
    [cleanup()] defers a flush when the queue has reached [batchSize] and
    arms the interval timer otherwise. *)
Theorem C2_track_after_cleanup cfg dbg hw hr r event st :
  eventQueue (state_of (cleanup dbg hw st)) = eventQueue st
  ∧ flushTimer (state_of (cleanup dbg hw st)) = None
  ∧ isInitialized (state_of (cleanup dbg hw st)) = false
  ∧ (hw = true →
       boundHandleVisibilityChange (state_of (cleanup dbg hw st)) = false
       ∧ boundFlushWithBeacon (state_of (cleanup dbg hw st)) = false)
  ∧ deliveries (effects_of (cleanup dbg hw st)) = []
  ∧ (∀ st', eventQueue (state_of (collect cfg dbg hw hr r event st'))
            = eventQueue st' ++ [stamp event r])
  ∧ (batchSize cfg ≤ Z.of_nat (length (eventQueue st)) + 1 →
       schedulings (effects_of (collect cfg dbg hw hr r event
                                  (state_of (cleanup dbg hw st))))
       = [if hw && hr then RequestIdleCallback 2000 else SetTimeout flushCb 0])
  ∧ (Z.of_nat (length (eventQueue st)) + 1 < batchSize cfg →
       schedulings (effects_of (collect cfg dbg hw hr r event
                                  (state_of (cleanup dbg hw st))))
       = [SetTimeout scheduleFlushCb (flushInterval cfg)]
       ∧ flushTimer (state_of (collect cfg dbg hw hr r event
                                 (state_of (cleanup dbg hw st))))
         = Some (mkTimeout scheduleFlushCb (flushInterval cfg)))
  ∧ without_logs (effects_of (cleanup dbg hw st))
    = (if hw && boundHandleVisibilityChange st
       then [RemoveEventListener "visibilitychange"] else [])
      ++ (if hw && boundFlushWithBeacon st
          then [RemoveEventListener "beforeunload"] else [])
      ++ match flushTimer st with Some h => [ClearTimeout h] | None => [] end
      ++ [ResetSessionCache]
  ∧ (∀ acts w,
       run cfg dbg hw hr acts (boot cfg dbg hw) = Some w →
       ∃ w', step cfg dbg hw hr CallCleanup w = Some w'
             ∧ timers w' = [] ∧ listeners w' = []
             ∧ eventQueue (inst w') = eventQueue (inst w)
             ∧ inflight w' = inflight w ∧ deferred w' = deferred w
             ∧ deliveries (output w') = deliveries (output w)).
Proof.
  assert (Hst : state_of (cleanup dbg hw st)
                = mkState (eventQueue st) None false
                    (if hw then false else boundHandleVisibilityChange st)
                    (if hw then false else boundFlushWithBeacon st)
                    (consecutiveFailures st) (backoffUntil st) (lastErrorLogged st)).
  { destruct st as [? [?|] ? [] [] ? ? ?], hw, dbg; reflexivity. }
  rewrite Hst. clear Hst. simpl.
  split; [done|]. split; [done|]. split; [done|].
  split; [by intros ->|].
  split; [by destruct st as [? [?|] ? [] [] ? ? ?], hw, dbg|].
  split; [intros st'; apply collect_queue|].
  split; [|split; [|split]].
  - intros Hb. destruct dbg; msimpl; rewrite length_app; simpl;
      rewrite (proj2 (Z.leb_le _ _)) by lia; simpl;
      rewrite bool_decide_eq_false_2 by (rewrite length_app; simpl; lia);
      by destruct (hw && hr).
  - intros Hb. destruct dbg; msimpl; rewrite length_app; simpl;
      rewrite (proj2 (Z.leb_gt _ _)) by lia; done.
  - by destruct st as [? [?|] ? [] [] ? ? ?], hw, dbg.
  - intros acts w Hrun. eexists. split; [reflexivity|].
    pose proof (run_timer_invariant _ _ _ _ _ _ Hrun) as Hinv.
    pose proof (run_listeners_bound _ _ _ _ _ _ Hrun) as Hbound.
    assert (Hs : step cfg dbg hw hr CallCleanup w
                 = Some (run_m (cleanup dbg hw) w)) by reflexivity.
    pose proof (step_timer_invariant _ _ _ _ _ _ _ Hinv Hs) as Hinv'.
    split.
    { rewrite Hinv', run_m_inst. unfold pending_timer.
      by destruct (inst w) as [? [?|] ? [] [] ? ? ?], hw, dbg. }
    split; [by apply cleanup_clears_listeners|].
    rewrite run_m_inst, run_m_inflight, run_m_deferred, run_m_output.
    destruct (cleanup_held dbg hw (inst w)) as [-> ->].
    split; [done|]. split; [by rewrite app_nil_r|].
    split.
    { unfold deferrals.
      by destruct (inst w) as [? [?|] ? [] [] ? ? ?], hw, dbg. }
    unfold deliveries. rewrite filter_app.
    replace (filter is_delivery (effects_of (cleanup dbg hw (inst w))))
      with (@nil Effect); [by rewrite app_nil_r|].
    by destruct (inst w) as [? [?|] ? [] [] ? ? ?], hw, dbg.
Qed.

(** C2 on an instance with one queued event and its interval timer
    pending: [cleanup()] removes the two listeners and clears the timer, and
    the next event re-arms the timer. *)
Lemma C2_witness :
  let st := mkState [ev "a" 1700000000000]
              (Some (mkTimeout scheduleFlushCb 5000)) true true true 0 0 0 in
  effects_of (cleanup false true st)
  = [RemoveEventListener "visibilitychange"; RemoveEventListener "beforeunload";
     ClearTimeout (mkTimeout scheduleFlushCb 5000); ResetSessionCache]
  ∧ flushTimer (state_of (cleanup false true st)) = None
  ∧ eventQueue (state_of (collect DEFAULT_CONFIG false true true
        (at_time 1700000000500) (mkPartial Event "b" None None None)
        (state_of (cleanup false true st))))
    = [ev "a" 1700000000000; ev "b" 1700000000500]
  ∧ flushTimer (state_of (collect DEFAULT_CONFIG false true true
        (at_time 1700000000500) (mkPartial Event "b" None None None)
        (state_of (cleanup false true st))))
    = Some (mkTimeout scheduleFlushCb 5000).
Proof.
  intros st.
  destruct (C2_track_after_cleanup DEFAULT_CONFIG false true true
              (at_time 1700000000500) (mkPartial Event "b" None None None) st)
    as (Hq & Ht & _ & _ & _ & Happ & _ & Harm & Heff & _).
  split; [exact Heff|]. split; [exact Ht|]. split.
  - rewrite Happ, Hq. reflexivity.
  - apply Harm. simpl. lia.
Defined.

(** C2, refuted as stated: on a fresh instance, after [cleanup()], tracking
    one event leads to a request being sent, both with [batchSize = 1] (a
    flush is deferred at once) and with the default configuration (the
    interval timer is armed again and fires). *)
Lemma C2_counterexample :
  (deliveries ∘ output) <$> run batch_of_one false true true
     track_after_cleanup (boot batch_of_one false true)
  = Some [Fetch "/api/telemetry" [ev "a" 1700000000000]]
  ∧ (deliveries ∘ output) <$> run DEFAULT_CONFIG false true true
       track_after_cleanup_default (boot DEFAULT_CONFIG false true)
    = Some [Fetch "/api/telemetry" [ev "a" 1700000000000]].
Proof. vm_compute. done. Qed.

(** ** Debug logging *)

Lemma silent_foldl_host es w :
  silent (foldl host_effect w es) = foldl host_effect (silent w) (without_logs es).
Proof.
  revert w. induction es as [|e es IH]; intros w; [done|].
  simpl. rewrite IH. unfold without_logs. rewrite filter_cons.
  destruct e as [[] ?| | | | | | | | | |]; simpl; f_equal;
    unfold silent, without_logs; simpl; rewrite filter_app; simpl;
    by rewrite ?app_nil_r.
Qed.

Lemma silent_run_m {A} (m : M A) w :
  silent (run_m m w)
  = foldl host_effect
      (mkWorld (state_of (m (inst w))) (timers w) (deferred w) (inflight w)
         (listeners w) (without_logs (output w)))
      (without_logs (effects_of (m (inst w)))).
Proof. by rewrite run_m_unfold, silent_foldl_host. Qed.

Lemma debug_related_refl {A} (m : M A) : debug_related m m.
Proof. by intros st. Qed.

Lemma debug_related_bind {A B} (m1 m2 : M A) (f : A → M B) :
  debug_related m1 m2 →
  (∀ st, result_of (m1 st) = result_of (m2 st)) →
  debug_related (m1 ≫= f) (m2 ≫= f).
Proof.
  intros Hm Hr st. specialize (Hm st). specialize (Hr st). unfold mbind, M_bind.
  destruct (m1 st) as [[a1 s1] e1], (m2 st) as [[a2 s2] e2].
  unfold state_of, effects_of, result_of, without_logs in *. simpl in *.
  destruct Hm as [-> He]. subst a2.
  destruct (f a1 s2) as [[b s3] e3]. simpl.
  by rewrite !filter_app, He.
Qed.

Lemma debug_collect cfg hw hr r event :
  debug_related (collect cfg true hw hr r event) (collect cfg false hw hr r event).
Proof. intros st. destruct st as [? [?|] ? ? ? ? ? ?]; msimpl; mcases; done. Qed.

Lemma debug_flush cfg now thrown :
  debug_related (void (flush cfg true now thrown))
                (void (flush cfg false now thrown)).
Proof.
  intros st. rewrite !void_state, !void_effects.
  destruct (flush_throws now st) eqn:Hth.
  - destruct (flush_failure_at_once cfg true now thrown st Hth) as (_ & -> & ->).
    by destruct (flush_failure_at_once cfg false now thrown st Hth)
      as (_ & -> & ->).
  - rewrite !(flush_not_thrown _ _ _ _ _ Hth).
    destruct st as [[|? ?] [?|] ? ? ? ? until ?]; simpl;
      try done; destruct (now <? until); done.
Qed.

Lemma debug_flushWithBeacon cfg call :
  debug_related (flushWithBeacon cfg true call) (flushWithBeacon cfg false call).
Proof.
  intros st. destruct st as [[|? ?] [?|] ? ? ? ? ? ?]; msimpl; mcases; done.
Qed.

Lemma debug_cleanup hw : debug_related (cleanup true hw) (cleanup false hw).
Proof. intros st. by destruct st as [? [?|] ? [] [] ? ? ?], hw. Qed.

Lemma debug_flush_settle events outcome now logNow :
  debug_related (flush_settle true events outcome now logNow)
                (flush_settle false events outcome now logNow).
Proof.
  intros st. destruct (caught outcome) as [error|] eqn:Hc.
  - destruct (flush_settle_failure true events outcome now logNow st error Hc)
      as [-> ->].
    by destruct (flush_settle_failure false events outcome now logNow st error Hc)
      as [-> ->].
  - assert (outcome = ResponseOk) as -> by (by destruct outcome).
    by destruct st as [? ? ? ? ? [|?] ? ?].
Qed.

Lemma step_debug cfg hw hr a i t d f l o1 o2 :
  without_logs o1 = without_logs o2 →
  silent <$> step cfg true hw hr a (mkWorld i t d f l o1)
  = silent <$> step cfg false hw hr a (mkWorld i t d f l o2).
Proof.
  intros Ho.
  assert (Hgo : ∀ (m1 m2 : M unit) t' d' f',
             debug_related m1 m2 →
             silent <$> Some (run_m m1 (mkWorld i t' d' f' l o1))
             = silent <$> Some (run_m m2 (mkWorld i t' d' f' l o2))).
  { intros m1 m2 t' d' f' Hm. simpl. f_equal. rewrite !silent_run_m. simpl.
    destruct (Hm i) as [-> ->]. by rewrite Ho. }
  unfold step. destruct a; simpl.
  - apply Hgo, debug_collect.
  - apply Hgo, debug_collect.
  - apply Hgo, debug_collect.
  - apply Hgo, debug_collect.
  - apply Hgo. apply debug_related_bind; [apply debug_collect|].
    intros st. by destruct (result_of _), (result_of _).
  - apply Hgo, debug_collect.
  - apply Hgo, debug_related_refl.
  - apply Hgo, debug_cleanup.
  - case_bool_decide; [|done]. apply Hgo, debug_related_refl.
  - destruct d; [done|]. destruct (flush_throws now i); [done|].
    apply Hgo, debug_flush.
  - destruct d; [done|]. destruct (flush_throws now i); [|done].
    apply Hgo, debug_flush.
  - destruct (f !! i0); [|done]. apply Hgo, debug_flush_settle.
  - case_bool_decide.
    + apply Hgo. destruct hidden; [apply debug_flushWithBeacon|apply debug_related_refl].
    + simpl. f_equal. unfold silent. simpl. by rewrite Ho.
  - case_bool_decide.
    + apply Hgo, debug_flushWithBeacon.
    + simpl. f_equal. unfold silent. simpl. by rewrite Ho.
Qed.

(** The debug flag changes nothing but [console.log]: with it on or off, a
    run of a fresh instance goes through the same states, timers, deferred
    runs, requests and listeners and makes the same host calls, the log
    lines aside; a run is possible with the flag on exactly when it is with
    the flag off. *)
Theorem debug_only_logs cfg hw hr acts :
  silent <$> run cfg true hw hr acts (boot cfg true hw)
  = silent <$> run cfg false hw hr acts (boot cfg false hw).
Proof.
  assert (H0 : silent (boot cfg true hw) = silent (boot cfg false hw)).
  { unfold boot, run_m. msimpl. by destruct hw, (useBeacon cfg). }
  revert H0. generalize (boot cfg true hw) (boot cfg false hw).
  induction acts as [|a acts IH]; intros w1 w2 Hw; simpl.
  { by rewrite Hw. }
  destruct w1 as [i1 t1 d1 f1 l1 o1], w2 as [i2 t2 d2 f2 l2 o2].
  unfold silent in Hw. simpl in Hw. injection Hw as -> -> -> -> -> Ho.
  pose proof (step_debug cfg hw hr a i2 t2 d2 f2 l2 o1 o2 Ho) as Hs.
  destruct (step cfg true hw hr a _) as [w1'|],
           (step cfg false hw hr a _) as [w2'|]; simpl in Hs.
  - apply IH. congruence.
  - discriminate.
  - discriminate.
  - done.
Qed.

(** * Properties of session.ts *)

Lemma generateSessionId_not_empty now random36 :
  generateSessionId now random36 ≠ "".
Proof. unfold generateSessionId. by destruct (pretty now). Qed.

Lemma truthy_Some s : truthy (Some s) = true ↔ s ≠ "".
Proof.
  unfold truthy. case_bool_decide; simpl; split; try done.
Qed.

(** What [getSessionId] returns is never empty and is what it leaves in the
    cache. *)
Lemma getSessionId_cached hw now random36 key s :
  (getSessionId hw now random36 key s).1 ≠ ""
  ∧ cachedSessionId (getSessionId hw now random36 key s).2
    = Some (getSessionId hw now random36 key s).1.
Proof.
  unfold getSessionId.
  destruct (cachedSessionId s) as [c|] eqn:Hc; simpl.
  - case_bool_decide; simpl.
    + destruct hw; simpl; [|done].
      destruct (sessionStorage s !! key) as [x|]; simpl;
        [case_bool_decide; simpl|]; split; try done;
        apply generateSessionId_not_empty.
    + by rewrite Hc.
  - destruct hw; simpl; [|done].
    destruct (sessionStorage s !! key) as [x|]; simpl;
      [case_bool_decide; simpl|]; split; try done;
      apply generateSessionId_not_empty.
Qed.

(** The session id is stable: once [getSessionId] has returned, every later
    call returns the same id and changes nothing, whatever key it is given
    and whatever has become of the window, the clock or the contents of
    [sessionStorage] in between; the cache looks at neither the key nor the
    storage. *)
Theorem session_id_is_stable hw now random36 key s hw' now' random36' key' storage' :
  getSessionId hw' now' random36' key'
    (mkSession (cachedSessionId (getSessionId hw now random36 key s).2) storage')
  = ((getSessionId hw now random36 key s).1,
     mkSession (cachedSessionId (getSessionId hw now random36 key s).2) storage').
Proof.
  destruct (getSessionId_cached hw now random36 key s) as [Hne Hc].
  destruct (getSessionId hw now random36 key s) as [id s1]. simpl in *.
  unfold getSessionId. rewrite Hc. simpl.
  by rewrite bool_decide_eq_false_2.
Qed.

(** In a browser, an id resolved with an empty cache survives
    [resetSessionCache()] (as [cleanup()] calls it): the next call with the
    same key reads it back from [sessionStorage], whatever the clock and
    the random source say by then. *)
Theorem session_id_survives_reset now random36 key s now' random36' :
  truthy (cachedSessionId s) = false →
  getSessionId true now' random36' key
    (resetSessionCache (getSessionId true now random36 key s).2)
  = getSessionId true now random36 key s.
Proof.
  intros Hc. unfold getSessionId. rewrite Hc. simpl.
  destruct (sessionStorage s !! key) as [x|] eqn:Hx; simpl.
  - case_bool_decide as He; simpl.
    + rewrite lookup_insert_eq. simpl.
      rewrite bool_decide_eq_false_2 by apply generateSessionId_not_empty. done.
    + rewrite Hx. simpl. by rewrite bool_decide_eq_false_2.
  - rewrite lookup_insert_eq. simpl.
    rewrite bool_decide_eq_false_2 by apply generateSessionId_not_empty. done.
Qed.

Lemma session_id_survives_reset_witness :
  getSessionId true 1700000099999 "zzzzzzzzz" "pleme_session_id"
    (resetSessionCache
       (getSessionId true 1700000000000 "k3j2h1g0f" "pleme_session_id"
          (mkSession None ∅)).2)
  = getSessionId true 1700000000000 "k3j2h1g0f" "pleme_session_id"
      (mkSession None ∅).
Proof. by apply session_id_survives_reset. Defined.

(** Resolving the id in a browser with an empty cache writes
    [sessionStorage] only when the key holds no usable id: an id already
    stored is returned and the storage is left alone; otherwise (no entry,
    or an empty one) a generated id is returned and stored under the key.
    Either way the key holds the returned id afterwards and no other key is
    touched. *)
Theorem session_id_storage now random36 key s :
  truthy (cachedSessionId s) = false →
  sessionStorage (getSessionId true now random36 key s).2 !! key
  = Some (getSessionId true now random36 key s).1
  ∧ (∀ k, k ≠ key →
       sessionStorage (getSessionId true now random36 key s).2 !! k
       = sessionStorage s !! k)
  ∧ (∀ x, sessionStorage s !! key = Some x → x ≠ "" →
       (getSessionId true now random36 key s).1 = x
       ∧ sessionStorage (getSessionId true now random36 key s).2 = sessionStorage s)
  ∧ (truthy (sessionStorage s !! key) = false →
       (getSessionId true now random36 key s).1 = generateSessionId now random36).
Proof.
  intros Hc. unfold getSessionId. rewrite Hc. simpl.
  destruct (sessionStorage s !! key) as [x|] eqn:Hx; simpl.
  - case_bool_decide as He; simpl.
    + subst x. rewrite lookup_insert_eq.
      split; [done|]. split; [intros k Hk; by rewrite lookup_insert_ne|].
      split; [by intros x [= <-] ?|done].
    + split; [done|]. split; [done|]. split; [by intros ? [= <-] _|done].
  - rewrite lookup_insert_eq.
    split; [done|]. split; [intros k Hk; by rewrite lookup_insert_ne|].
    split; [done|done].
Qed.

Lemma session_id_storage_witness :
  sessionStorage (getSessionId true 1700000000000 "k3j2h1g0f" "test_session"
     (mkSession None {["test_session" := "existing-session-123"]})).2
    !! "test_session"
  = Some "existing-session-123".
Proof.
  destruct (session_id_storage 1700000000000 "k3j2h1g0f" "test_session"
              (mkSession None {["test_session" := "existing-session-123"]}) eq_refl)
    as (Hk & _ & Hkeep & _).
  rewrite Hk. apply (f_equal Some).
  assert (Hx : sessionStorage
                 (mkSession None {["test_session" := "existing-session-123"]})
                 !! "test_session" = Some "existing-session-123").
  { simpl. by rewrite lookup_singleton_eq. }
  assert (Hne : "existing-session-123" ≠ "") by discriminate.
  exact (proj1 (Hkeep "existing-session-123" Hx Hne)).
Defined.

(** Without a window the id is the constant [ssr] and [sessionStorage] is
    not touched; and since the id is cached, it stays [ssr] when a window
    appears later, until the cache is reset. *)
Theorem session_id_without_window now random36 key s now' random36' key' :
  truthy (cachedSessionId s) = false →
  (getSessionId false now random36 key s).1 = "ssr"
  ∧ sessionStorage (getSessionId false now random36 key s).2 = sessionStorage s
  ∧ (getSessionId true now' random36' key'
       (getSessionId false now random36 key s).2).1 = "ssr".
Proof.
  intros Hc.
  assert (H1 : getSessionId false now random36 key s
               = ("ssr", mkSession (Some "ssr") (sessionStorage s))).
  { unfold getSessionId. by rewrite Hc. }
  split; [by rewrite H1|]. split; [by rewrite H1|].
  by rewrite H1.
Qed.

Lemma session_id_without_window_witness :
  (getSessionId true 1700000000000 "k3j2h1g0f" "pleme_session_id"
     (getSessionId false 1700000000000 "k3j2h1g0f" "pleme_session_id"
        (mkSession None ∅)).2).1 = "ssr".
Proof.
  by destruct (session_id_without_window 1700000000000 "k3j2h1g0f" "pleme_session_id"
                 (mkSession None ∅) 1700000000000 "k3j2h1g0f" "pleme_session_id"
                 eq_refl) as (_ & _ & ?).
Defined.

Lemma endsWith_spec s suffix :
  endsWith s suffix = true ↔ ∃ front, s = front +:+ suffix.
Proof.
  induction s as [|c s IH]; simpl.
  - rewrite orb_false_r. split.
    + intros <-%bool_decide_eq_true_1. by exists "".
    + intros [[|? ?] H]; simpl in H; [by apply bool_decide_eq_true_2|done].
  - rewrite orb_true_iff, IH. split.
    + intros [<-%bool_decide_eq_true_1|[front ->]]; [by exists ""|].
      by exists (String c front).
    + intros [[|c' front] H]; simpl in H.
      * left. by apply bool_decide_eq_true_2.
      * right. injection H as -> ->. by exists front.
Qed.

(** Where [isDevelopment] finds its answer: never on the server; from a
    non-empty [VITE_ENV] alone when there is one (only the value
    [development] counts, the host name is not looked at); otherwise from
    the host name, which must be [localhost], [127.0.0.1] or end in
    [.local]. *)
Theorem isDevelopment_sources vite_env hostname :
  isDevelopment false vite_env hostname = false
  ∧ (∀ v, vite_env = Some v → v ≠ "" →
       isDevelopment true vite_env hostname = bool_decide (v = "development"))
  ∧ (truthy vite_env = false →
       (isDevelopment true vite_env hostname = true
        ↔ hostname = "localhost" ∨ hostname = "127.0.0.1"
          ∨ ∃ front, hostname = front +:+ ".local")).
Proof.
  split; [done|]. split.
  - intros v -> Hv. unfold isDevelopment. simpl.
    rewrite bool_decide_eq_false_2 by done. simpl.
    apply bool_decide_ext. split; [by intros [= ->]|by intros ->].
  - intros Ht. unfold isDevelopment. simpl. rewrite Ht.
    rewrite !orb_true_iff, !bool_decide_eq_true, endsWith_spec. tauto.
Qed.

Lemma isDevelopment_sources_witness :
  isDevelopment true (Some "production") "localhost" = false
  ∧ isDevelopment true (Some "") "app.dev.local" = true
  ∧ isDevelopment true None "example.com" = false.
Proof.
  destruct (isDevelopment_sources (Some "production") "localhost") as (_ & H1 & _).
  destruct (isDevelopment_sources (Some "") "app.dev.local") as (_ & _ & H2).
  destruct (isDevelopment_sources None "example.com") as (_ & _ & H3).
  split; [by rewrite (H1 "production")|]. split.
  - apply H2; [done|]. right; right. by exists "app.dev".
  - apply not_true_is_false. intros He.
    apply (proj1 (H3 eq_refl)) in He as [?|[?|[front Hf]]]; try done.
    exfalso. clear -Hf.
    repeat (destruct front as [|? front]; simpl in Hf; try discriminate Hf).
Defined.

(** * telemetry.ts: the explicit flush *)

Lemma scheduleFlush_nonempty hw hr st :
  eventQueue st ≠ [] →
  state_of (scheduleFlush hw hr st) = set_flushTimer None st
  ∧ deferrals (effects_of (scheduleFlush hw hr st)) = 1%nat
  ∧ deliveries (effects_of (scheduleFlush hw hr st)) = [].
Proof.
  intros Hq. destruct st as [[|? ?] [?|] ? ? ? ? ? ?], (hw && hr) eqn:Hh;
    try done; msimpl; rewrite Hh; done.
Qed.

Lemma flush_arms_remaining cfg dbg now thrown st :
  now < backoffUntil st →
  eventQueue st ≠ [] →
  flushTimer st = None →
  effects_of (flush cfg dbg now thrown st)
  = [SetTimeout scheduleFlushCb (backoffUntil st - now)]
  ∧ state_of (flush cfg dbg now thrown st)
    = set_flushTimer (Some (mkTimeout scheduleFlushCb (backoffUntil st - now))) st.
Proof.
  intros Hlt Hq Ht.
  rewrite (flush_not_thrown _ _ _ _ _ (in_backoff_no_throw _ _ Hlt)).
  apply Z.ltb_lt in Hlt. rewrite Hlt, Ht.
  by destruct st as [[|? ?] ? ? ? ? ? ? ?].
Qed.

(** [flush()] on a non-empty queue, followed by the deferred run of [flush]
    at clock reading [now]: whatever the batch size and whatever timer was
    pending, the whole queue goes out in one request if the backoff window
    is over (the queue being one that [JSON.stringify] accepts), and no
    timer stays armed; inside the window nothing is sent, the queue is
    kept, and the only timer left is one for exactly the rest of the
    window. *)
Theorem explicit_flush cfg dbg hw hr now w :
  eventQueue (inst w) ≠ [] →
  timers w = pending_timer (inst w) →
  (backoffUntil (inst w) ≤ now → batch_stringifies (eventQueue (inst w)) = true) →
  ∃ w' es,
    run cfg dbg hw hr [CallFlush; DeferredFlushRuns now] w = Some w'
    ∧ output w' = output w ++ es
    ∧ deferred w' = deferred w
    ∧ (backoffUntil (inst w) ≤ now →
         deliveries es = [Fetch (telemetryEndpoint cfg) (eventQueue (inst w))]
         ∧ eventQueue (inst w') = []
         ∧ inflight w' = inflight w ++ [eventQueue (inst w)]
         ∧ timers w' = [])
    ∧ (now < backoffUntil (inst w) →
         deliveries es = []
         ∧ eventQueue (inst w') = eventQueue (inst w)
         ∧ inflight w' = inflight w
         ∧ timers w' = [mkTimeout scheduleFlushCb (backoffUntil (inst w) - now)]).
Proof.
  intros Hq Hinv Hstr.
  destruct (scheduleFlush_nonempty hw hr (inst w) Hq) as (Hst1 & Hdf1 & Hdl1).
  destruct (scheduleFlush_timers hw hr (inst w) (timers w)) as [Htm1 _].
  assert (Htm1' : foldl timer_effect (timers w)
                    (effects_of (scheduleFlush hw hr (inst w))) = []).
  { rewrite Htm1, Hinv. unfold pending_timer.
    destruct (flushTimer (inst w)); simpl; by rewrite ?decide_True. }
  set (thrown := not_thrown now).
  set (w1 := run_m (api_flush hw hr) w).
  assert (Hd1 : deferred w1 = S (deferred w)).
  { unfold w1, api_flush. rewrite run_m_deferred, Hdf1. lia. }
  assert (Hi1 : inst w1 = set_flushTimer None (inst w)).
  { unfold w1, api_flush. by rewrite run_m_inst. }
  assert (Ht1 : timers w1 = []).
  { unfold w1, api_flush. by rewrite run_m_timers. }
  assert (Hf1 : inflight w1 = inflight w).
  { unfold w1, api_flush. rewrite run_m_inflight.
    destruct (scheduleFlush_held hw hr (inst w)) as [_ ->]. by rewrite app_nil_r. }
  assert (Ho1 : output w1 = output w ++ effects_of (scheduleFlush hw hr (inst w))).
  { unfold w1, api_flush. by rewrite run_m_output. }
  assert (Hq1 : eventQueue (inst w1) ≠ []) by (by rewrite Hi1).
  assert (Hstr1 : backoffUntil (inst w1) ≤ now →
                  batch_stringifies (eventQueue (inst w1)) = true)
    by (by rewrite Hi1).
  assert (Hth : flush_throws now (inst w1) = false).
  { destruct (Z.lt_ge_cases now (backoffUntil (inst w1))) as [Hlt|Hge].
    - by apply in_backoff_no_throw.
    - by apply stringifies_no_throw, Hstr1. }
  eexists _, (effects_of (scheduleFlush hw hr (inst w))
              ++ effects_of (flush cfg dbg now thrown (inst w1))).
  simpl. unfold step at 1. simpl. fold w1.
  unfold step. simpl. rewrite Hd1, Hth. fold thrown.
  split; [reflexivity|].
  rewrite run_m_output, run_m_deferred, run_m_inst, run_m_inflight, run_m_timers.
  simpl. rewrite void_state, void_effects.
  split; [by rewrite Ho1, app_assoc|].
  split.
  { destruct (Z.lt_ge_cases now (backoffUntil (inst w1))) as [Hlt|Hge].
    - destruct (flush_arms_remaining cfg dbg now thrown (inst w1) Hlt Hq1)
        as [-> _]; [by rewrite Hi1|]. unfold deferrals. simpl. lia.
    - destruct (flush_outside_backoff cfg dbg now thrown (inst w1) Hq1 Hge
                  (Hstr1 Hge)) as (_ & _ & Hsched & _).
      assert (Hnone : deferrals (effects_of (flush cfg dbg now thrown (inst w1)))
                      = 0%nat).
      { unfold deferrals, schedulings in *. revert Hsched.
        generalize (effects_of (flush cfg dbg now thrown (inst w1))).
        intros l. induction l as [|x l IH]; [done|].
        rewrite !filter_cons.
        destruct x as [[] ?| | | | | | | | | |]; simpl; try done; auto. }
      rewrite Hnone. lia. }
  split.
  - intros Hge.
    assert (Hge1 : backoffUntil (inst w1) ≤ now) by (by rewrite Hi1).
    destruct (flush_outside_backoff cfg dbg now thrown (inst w1) Hq1 Hge1
                (Hstr1 Hge1)) as (_ & Hsend & _ & Hst).
    pose proof (tracks_timer_flush cfg dbg now thrown (inst w1)) as Htf.
    rewrite Hst in *. rewrite Ht1, Hf1.
    unfold pending_timer in Htf at 1. rewrite Hi1 in Htf at 1. simpl in Htf.
    rewrite Htf. unfold deliveries in *. rewrite filter_app, Hdl1, Hsend.
    destruct (flush_held cfg dbg now thrown (inst w1) Hth) as [[Hsame _]|[_ ->]].
    + rewrite Hst in Hsame. simpl in Hsame. by rewrite <- Hsame in Hq1.
    + rewrite Hi1. done.
  - intros Hlt.
    assert (Hlt1 : now < backoffUntil (inst w1)) by (by rewrite Hi1).
    destruct (flush_arms_remaining cfg dbg now thrown (inst w1) Hlt1 Hq1)
      as [-> ->]; [by rewrite Hi1|].
    rewrite Ht1, Hf1, Hi1. simpl. unfold deliveries in *.
    rewrite filter_app, Hdl1, !app_nil_r. done.
Qed.

(** [flush()] with one event queued and [batchSize = 10]: the event is
    sent. *)
Lemma explicit_flush_witness :
  deliveries (output (world_after DEFAULT_CONFIG
     [CallTrackEvent (at_time 1700000000000) "a" None; CallFlush;
      DeferredFlushRuns 1700000000001]))
  = [Fetch "/api/telemetry" [ev "a" 1700000000000]].
Proof.
  destruct (explicit_flush DEFAULT_CONFIG false true true 1700000000001
              (world_after DEFAULT_CONFIG
                 [CallTrackEvent (at_time 1700000000000) "a" None]))
    as (w' & es & Hr & Ho & _ & Hsend & _).
  - discriminate.
  - reflexivity.
  - reflexivity.
  - destruct Hsend as (Hd & _); [simpl; lia|].
    assert (H1 : run DEFAULT_CONFIG false true true
                   [CallTrackEvent (at_time 1700000000000) "a" None]
                   (boot DEFAULT_CONFIG false true)
                 = Some (world_after DEFAULT_CONFIG
                           [CallTrackEvent (at_time 1700000000000) "a" None]))
      by (by vm_compute).
    assert (Hfull : run DEFAULT_CONFIG false true true
                      ([CallTrackEvent (at_time 1700000000000) "a" None]
                       ++ [CallFlush; DeferredFlushRuns 1700000000001])
                      (boot DEFAULT_CONFIG false true) = Some w').
    { rewrite run_app, H1. exact Hr. }
    unfold world_after. simpl app in Hfull. rewrite Hfull. simpl. rewrite Ho.
    unfold deliveries in *. by rewrite filter_app, Hd.
Defined.

(** ** A batch that cannot be serialized *)

(** When the deferred run of [flush] comes, outside a backoff window, to a
    queue holding an event that [JSON.stringify] throws on (a [BigInt] or a
    circular object among its properties), it cannot start a request: the
    attempt fails at once.  Nothing is sent and nothing is put in flight;
    the failure is counted and opens a backoff window as a failed request
    does, the retry timer is armed if none is pending, and the batch (its
    first 100 events) is back in the queue, so that, while it holds that
    event, the next attempt fails in the same way. *)
Theorem unserializable_batch_fails_at_once cfg dbg hw hr now thrown w :
  (0 < deferred w)%nat →
  eventQueue (inst w) ≠ [] →
  backoffUntil (inst w) ≤ now →
  batch_stringifies (eventQueue (inst w)) = false →
  let d := Z.min (5000 * 2 ^ (Z.of_nat (S (consecutiveFailures (inst w))) - 1))
             MAX_BACKOFF_MS in
  step cfg dbg hw hr (DeferredFlushRuns now) w = None
  ∧ ∃ w', step cfg dbg hw hr (DeferredFlushThrows now thrown) w = Some w'
      ∧ deliveries (output w') = deliveries (output w)
      ∧ inflight w' = inflight w
      ∧ eventQueue (inst w') = take 100 (eventQueue (inst w))
      ∧ ((length (eventQueue (inst w)) ≤ 100)%nat →
           batch_stringifies (eventQueue (inst w')) = false)
      ∧ consecutiveFailures (inst w') = S (consecutiveFailures (inst w))
      ∧ backoffUntil (inst w') = t_now thrown + d
      ∧ (flushTimer (inst w) = None →
           flushTimer (inst w') = Some (mkTimeout scheduleFlushCb d)
           ∧ timers w' = timers w ++ [mkTimeout scheduleFlushCb d])
      ∧ (is_Some (flushTimer (inst w)) →
           flushTimer (inst w') = flushTimer (inst w) ∧ timers w' = timers w).
Proof.
  intros Hd Hq Hge Hs d.
  assert (Hth : flush_throws now (inst w) = true).
  { unfold flush_throws. rewrite Hs, (proj2 (Z.ltb_ge _ _)) by lia.
    by destruct (eventQueue (inst w)). }
  unfold step. simpl. destruct (deferred w) as [|n]; [lia|]. rewrite Hth.
  split; [done|]. eexists. split; [reflexivity|].
  rewrite run_m_output, run_m_inflight, run_m_inst, run_m_timers. simpl.
  rewrite void_state, void_effects.
  assert (Hnone : filter is_delivery
                    (effects_of (flush cfg dbg now thrown (inst w))) = []
                  ∧ fetched (effects_of (flush cfg dbg now thrown (inst w))) = []).
  { destruct (flush_failure_at_once cfg dbg now thrown (inst w) Hth)
      as (_ & _ & ->).
    by destruct dbg; case_bool_decide; destruct (flushTimer (inst w)). }
  destruct Hnone as [Hdl Hft].
  unfold deliveries. rewrite filter_app, Hdl, Hft, !app_nil_r.
  destruct (flush_failure_at_once cfg dbg now thrown (inst w) Hth)
    as (_ & -> & ->). simpl. fold d.
  split; [done|]. split; [done|]. split; [done|].
  split; [intros Hlen; by rewrite take_ge|].
  split; [done|]. split; [done|].
  split.
  - intros Ht. rewrite Ht. split; [done|].
    by destruct dbg; case_bool_decide.
  - intros [h Ht]. rewrite Ht. split; [done|].
    by destruct dbg; case_bool_decide.
Qed.

(** A purchase with a [BigInt] total is tracked and [flush()] is called:
    the deferred run sends nothing, counts a failure and arms the retry
    timer of five seconds with the event back in the queue. *)
Lemma unserializable_batch_fails_at_once_witness :
  let w := world_after DEFAULT_CONFIG [bigint_tracked; CallFlush] in
  let thrown := mkThrown "Do not know how to serialize a BigInt"
                  1700000000002 1700000000002 in
  ∃ w', step DEFAULT_CONFIG false true true
          (DeferredFlushThrows 1700000000001 thrown) w = Some w'
        ∧ deliveries (output w') = []
        ∧ length (eventQueue (inst w')) = 1%nat
        ∧ consecutiveFailures (inst w') = 1%nat
        ∧ timers w' = [mkTimeout scheduleFlushCb 5000].
Proof.
  intros w thrown.
  assert (Hd : (0 < deferred w)%nat) by (vm_compute; lia).
  assert (Hq : eventQueue (inst w) ≠ []) by (vm_compute; discriminate).
  assert (Hge : backoffUntil (inst w) ≤ 1700000000001) by (vm_compute; discriminate).
  assert (Hs : batch_stringifies (eventQueue (inst w)) = false)
    by (vm_compute; reflexivity).
  destruct (unserializable_batch_fails_at_once DEFAULT_CONFIG false true true
              1700000000001 thrown w Hd Hq Hge Hs)
    as (_ & w' & Hstep & Hdl & _ & Hqueue & _ & Hcf & _ & Harm & _).
  exists w'. split; [exact Hstep|].
  split; [rewrite Hdl; by vm_compute|].
  split; [rewrite Hqueue; by vm_compute|].
  split; [rewrite Hcf; by vm_compute|].
  destruct Harm as [_ Ht]; [by vm_compute|].
  rewrite Ht. by vm_compute.
Defined.
